(** * PocPlot: axis projection, tick ladder, grid positions and the spline engine

    A shallow embedding of the numeric core of PocPlot (pocaxis.c,
    pocspline.c, pocdataset.c, pocdatasetspline.c, poctypes.c) and of the
    way a plot keeps its axes and datasets (pocbag.c, pocplot.c), together
    with the properties its specification states about it and further
    properties read off the code.

    Every [gdouble] computation of the C code is written once, over an
    abstract arithmetic [Double D], and read at two instances:

    - [binary64]: IEEE 754 double precision, the type the compiled code
      really computes with (NaN, infinities, rounding);
    - [exact_real]: the real numbers, the arithmetic in which a property
      stated "within floating tolerance" is exact.

    libm's [log2], [log10], [exp2], [exp10], [floor] and [ceil] form a second
    interface, [Libm D]; over [binary64] they stay abstract. *)

From Stdlib Require Import String ZArith Reals Lra Lia Floats Uint63.
From stdpp Require Import base list.

Set Default Proof Using "Type*".

(** ** The arithmetic of [gdouble] *)

Class Double (D : Type) := {
  d_of_Z : Z -> D;            (* an integer constant, or an int converted *)
  d_add : D -> D -> D;
  d_sub : D -> D -> D;
  d_mul : D -> D -> D;
  d_div : D -> D -> D;
  d_lt : D -> D -> bool;      (* C's [a < b] *)
  d_le : D -> D -> bool;      (* C's [a <= b] *)
}.

Class Libm (D : Type) := {
  log2 : D -> D;
  log10 : D -> D;
  exp2 : D -> D;
  exp10 : D -> D;
  floor : D -> D;
  ceil : D -> D;
}.

Declare Scope double_scope.
Delimit Scope double_scope with D.
Notation "# z" := (d_of_Z z%Z) (at level 5, format "# z") : double_scope.
Infix "+" := d_add : double_scope.
Infix "-" := d_sub : double_scope.
Infix "*" := d_mul : double_scope.
Infix "/" := d_div : double_scope.
Infix "<?" := d_lt : double_scope.
Infix "<=?" := d_le : double_scope.
(* C's [a > b] and [a >= b] are the same comparisons with the operands
   exchanged (so every comparison with a NaN is false). *)
Notation "a >? b" := (d_lt b a) (only parsing) : double_scope.
Notation "a >=? b" := (d_le b a) (only parsing) : double_scope.

(** Conversion of a C integer to binary64; exact below 2^53, which covers
    [gint] and [guint]. *)
Definition float_of_Z (z : Z) : float :=
  match z with
  | Z0 => PrimFloat.zero
  | Zpos _ => PrimFloat.of_uint63 (Uint63.of_Z z)
  | Zneg _ => PrimFloat.opp (PrimFloat.of_uint63 (Uint63.of_Z (- z)))
  end.

#[export] Instance binary64 : Double float := {
  d_of_Z := float_of_Z;
  d_add := PrimFloat.add;
  d_sub := PrimFloat.sub;
  d_mul := PrimFloat.mul;
  d_div := PrimFloat.div;
  d_lt := PrimFloat.ltb;
  d_le := PrimFloat.leb;
}.

Definition Rltb (a b : R) : bool := if Rlt_dec a b then true else false.
Definition Rleb (a b : R) : bool := if Rle_dec a b then true else false.

#[export] Instance exact_real : Double R := {
  d_of_Z := IZR;
  d_add := Rplus;
  d_sub := Rminus;
  d_mul := Rmult;
  d_div := Rdiv;
  d_lt := Rltb;
  d_le := Rleb;
}.

#[export] Instance real_libm : Libm R := {
  log2 := fun v => (ln v / ln 2)%R;
  log10 := fun v => (ln v / ln 10)%R;
  exp2 := fun v => Rpower 2 v;
  exp10 := fun v => Rpower 10 v;
  floor := fun v => IZR (Zfloor v);
  ceil := fun v => IZR (Zceil v);
}.

(** An out-of-range array read is undefined in C; the model reads 0 there.
    Every read the theorems below depend on is shown to be in range. *)
#[export] Instance double_inhabited `{Double D} : Inhabited D := populate (d_of_Z 0).

(** ** poctypes.h *)

Inductive PocAxisMode := POC_AXIS_LINEAR | POC_AXIS_LOG_OCTAVE | POC_AXIS_LOG_DECADE.

Record PocPoint (D : Type) := { x : D; y : D }.
Arguments x {D} _.
Arguments y {D} _.
Arguments Build_PocPoint {D} _ _.

#[export] Instance point_inhabited `{Double D} : Inhabited (PocPoint D) :=
  populate {| x := d_of_Z 0; y := d_of_Z 0 |}.

(** [guint] arithmetic wraps modulo 2^32. *)
Definition guint_max : Z := 2 ^ 32.
Definition guint_sub (a b : Z) : Z := ((a - b) mod guint_max)%Z.
Definition guint_add (a b : Z) : Z := ((a + b) mod guint_max)%Z.

(** ** pocaxis.c *)

(** The fields of a GtkAdjustment that the axis reads. *)
Record GtkAdjustment (D : Type) := {
  adj_value : D;
  adj_lower : D;
  adj_upper : D;
  adj_page_size : D;
}.
Arguments adj_value {D} _.
Arguments adj_lower {D} _.
Arguments adj_upper {D} _.
Arguments adj_page_size {D} _.

(** [struct _PocAxisPrivate].  The presentation fields (tick and label
    sizes, grid styles, legend) and the signal handler ids are left out: no
    function below reads them. *)
Record PocAxisPrivate (D : Type) := {
  axis_mode : PocAxisMode;
  lower_bound : D;
  upper_bound : D;
  major_interval : D;
  auto_interval : bool;
  minor_divisions : Z;
  adjustment : option (GtkAdjustment D);
  lower_mode : D;
  upper_mode : D;
  minor_interval : D;
}.
Arguments axis_mode {D} _.
Arguments lower_bound {D} _.
Arguments upper_bound {D} _.
Arguments major_interval {D} _.
Arguments auto_interval {D} _.
Arguments minor_divisions {D} _.
Arguments adjustment {D} _.
Arguments lower_mode {D} _.
Arguments upper_mode {D} _.
Arguments minor_interval {D} _.
Arguments Build_PocAxisPrivate {D} _ _ _ _ _ _ _ _ _ _.

Section AxisFields.
Context {D : Type}.
Implicit Type self : PocAxisPrivate D.

(** Assignments [priv->field = v]. *)
Definition set_axis_mode (v : PocAxisMode) self : PocAxisPrivate D :=
  Build_PocAxisPrivate v (lower_bound self) (upper_bound self)
    (major_interval self) (auto_interval self) (minor_divisions self)
    (adjustment self) (lower_mode self) (upper_mode self) (minor_interval self).
Definition set_lower_bound (v : D) self : PocAxisPrivate D :=
  Build_PocAxisPrivate (axis_mode self) v (upper_bound self)
    (major_interval self) (auto_interval self) (minor_divisions self)
    (adjustment self) (lower_mode self) (upper_mode self) (minor_interval self).
Definition set_upper_bound (v : D) self : PocAxisPrivate D :=
  Build_PocAxisPrivate (axis_mode self) (lower_bound self) v
    (major_interval self) (auto_interval self) (minor_divisions self)
    (adjustment self) (lower_mode self) (upper_mode self) (minor_interval self).
Definition set_major_interval (v : D) self : PocAxisPrivate D :=
  Build_PocAxisPrivate (axis_mode self) (lower_bound self) (upper_bound self)
    v (auto_interval self) (minor_divisions self)
    (adjustment self) (lower_mode self) (upper_mode self) (minor_interval self).
Definition set_auto_interval (v : bool) self : PocAxisPrivate D :=
  Build_PocAxisPrivate (axis_mode self) (lower_bound self) (upper_bound self)
    (major_interval self) v (minor_divisions self)
    (adjustment self) (lower_mode self) (upper_mode self) (minor_interval self).
Definition set_minor_divisions (v : Z) self : PocAxisPrivate D :=
  Build_PocAxisPrivate (axis_mode self) (lower_bound self) (upper_bound self)
    (major_interval self) (auto_interval self) v
    (adjustment self) (lower_mode self) (upper_mode self) (minor_interval self).
Definition set_lower_mode (v : D) self : PocAxisPrivate D :=
  Build_PocAxisPrivate (axis_mode self) (lower_bound self) (upper_bound self)
    (major_interval self) (auto_interval self) (minor_divisions self)
    (adjustment self) v (upper_mode self) (minor_interval self).
Definition set_upper_mode (v : D) self : PocAxisPrivate D :=
  Build_PocAxisPrivate (axis_mode self) (lower_bound self) (upper_bound self)
    (major_interval self) (auto_interval self) (minor_divisions self)
    (adjustment self) (lower_mode self) v (minor_interval self).
Definition set_minor_interval (v : D) self : PocAxisPrivate D :=
  Build_PocAxisPrivate (axis_mode self) (lower_bound self) (upper_bound self)
    (major_interval self) (auto_interval self) (minor_divisions self)
    (adjustment self) (lower_mode self) (upper_mode self) v.
Definition set_adjustment (v : option (GtkAdjustment D)) self : PocAxisPrivate D :=
  Build_PocAxisPrivate (axis_mode self) (lower_bound self) (upper_bound self)
    (major_interval self) (auto_interval self) (minor_divisions self)
    v (lower_mode self) (upper_mode self) (minor_interval self).

End AxisFields.

Section Axis.
Context {D : Type} `{!Double D, !Libm D}.
Implicit Type self : PocAxisPrivate D.
Local Open Scope double_scope.

(** GTK is not part of this repository.  [gtk_adjustment_set_lower] and
    [gtk_adjustment_set_upper] store the new limit in the adjustment and may
    run the axis's own "changed" handler before they return; what they leave
    of the axis is a parameter of the two setters that call them. *)
Variable gtk_adjustment_set_lower :
  GtkAdjustment D -> D -> PocAxisPrivate D -> PocAxisPrivate D.
Variable gtk_adjustment_set_upper :
  GtkAdjustment D -> D -> PocAxisPrivate D -> PocAxisPrivate D.

(** The ladder of [poc_axis_update_bounds], lines 1045-1055. *)
Definition auto_major_interval (interval : D) : D :=
  if interval >=? #10000 then #10000
  else if interval >=? #1000 then #1000
  else if interval >=? #100 then #100
  else if interval >=? #10 then #10
  else #1.

(** [poc_axis_update_bounds]: swap inverted bounds, recompute the bounds in
    mode space, the automatic major interval and the minor interval.  The
    property notifications change no state and are not modelled. *)
Definition poc_axis_update_bounds self : PocAxisPrivate D :=
  let self :=
    if upper_bound self <? lower_bound self
    then
      let temp := lower_bound self in
      set_upper_bound temp (set_lower_bound (upper_bound self) self)
    else self in
  let self :=
    match axis_mode self with
    | POC_AXIS_LINEAR =>
        set_upper_mode (upper_bound self)
          (set_lower_mode (lower_bound self) self)
    | POC_AXIS_LOG_OCTAVE =>
        set_upper_mode (log2 (upper_bound self))
          (set_lower_mode (log2 (lower_bound self)) self)
    | POC_AXIS_LOG_DECADE =>
        set_upper_mode (log10 (upper_bound self))
          (set_lower_mode (log10 (lower_bound self)) self)
    end in
  let self :=
    if auto_interval self
    then
      let interval := upper_mode self - lower_mode self in
      set_major_interval (auto_major_interval interval) self
    else self in
  if negb (minor_divisions self =? 0)%Z
  then set_minor_interval
         (major_interval self / #(minor_divisions self)) self
  else self.

(** [poc_axis_init]: the state of a new axis ([poc_axis_new]); the instance
    memory starts zeroed. *)
Definition poc_axis_init : PocAxisPrivate D :=
  poc_axis_update_bounds
    {| axis_mode := POC_AXIS_LINEAR;
       lower_bound := #0; upper_bound := #1;
       major_interval := #10; auto_interval := true; minor_divisions := 5;
       adjustment := None;
       lower_mode := #0; upper_mode := #1; minor_interval := #0 |}.

Definition poc_axis_set_axis_mode self (mode : PocAxisMode) : PocAxisPrivate D :=
  poc_axis_update_bounds (set_axis_mode mode self).

Definition poc_axis_set_lower_bound self (bound : D) : PocAxisPrivate D :=
  let self := poc_axis_update_bounds (set_lower_bound bound self) in
  match adjustment self with
  | Some adj => gtk_adjustment_set_lower adj (lower_mode self) self
  | None => self
  end.

Definition poc_axis_set_upper_bound self (bound : D) : PocAxisPrivate D :=
  let self := poc_axis_update_bounds (set_upper_bound bound self) in
  match adjustment self with
  | Some adj => gtk_adjustment_set_upper adj (upper_mode self) self
  | None => self
  end.

Definition poc_axis_set_major_interval self (interval : D) : PocAxisPrivate D :=
  poc_axis_update_bounds
    (set_auto_interval false (set_major_interval interval self)).

Definition poc_axis_set_auto_interval self (enabled : bool) : PocAxisPrivate D :=
  poc_axis_update_bounds (set_auto_interval enabled self).

Definition poc_axis_set_minor_divisions self (divisions : Z) : PocAxisPrivate D :=
  poc_axis_update_bounds (set_minor_divisions divisions self).

Definition poc_axis_configure self (mode : PocAxisMode)
    (lower upper : D) : PocAxisPrivate D :=
  poc_axis_update_bounds
    (set_axis_mode mode (set_upper_bound upper (set_lower_bound lower self))).

Definition poc_axis_get_range self : D * D :=
  (lower_bound self, upper_bound self).

Definition poc_axis_get_display_range self : D * D :=
  match adjustment self with
  | Some adj =>
      let value := adj_value adj in
      let page_size := adj_page_size adj in
      match axis_mode self with
      | POC_AXIS_LINEAR => (value, value + page_size)
      | POC_AXIS_LOG_OCTAVE => (exp2 value, exp2 (value + page_size))
      | POC_AXIS_LOG_DECADE => (exp10 value, exp10 (value + page_size))
      end
  | None => poc_axis_get_range self
  end.

(** [poc_axis_linear_project]; [norm] is a [gint]. *)
Definition poc_axis_linear_project self (value : D) (norm : Z) : D :=
  let scale := #(if (norm <? 0)%Z then - norm else norm) - #1 in
  let value := (value - lower_mode self) / (upper_mode self - lower_mode self) in
  if (norm <? 0)%Z then (#1 - value) * scale else value * scale.

Definition poc_axis_project self (value : D) (norm : Z) : D :=
  let value :=
    match axis_mode self with
    | POC_AXIS_LINEAR => value
    | POC_AXIS_LOG_OCTAVE => log2 value
    | POC_AXIS_LOG_DECADE => log10 value
    end in
  poc_axis_linear_project self value norm.

(** The public operations that recompute the derived state of an axis. *)
Inductive AxisCall :=
| Configure (mode : PocAxisMode) (lower upper : D)
| SetAxisMode (mode : PocAxisMode)
| SetLowerBound (bound : D)
| SetUpperBound (bound : D)
| SetMajorInterval (interval : D)
| SetAutoInterval (enabled : bool)
| SetMinorDivisions (divisions : Z).

Definition poc_axis_call self (c : AxisCall) : PocAxisPrivate D :=
  match c with
  | Configure mode lower upper => poc_axis_configure self mode lower upper
  | SetAxisMode mode => poc_axis_set_axis_mode self mode
  | SetLowerBound bound => poc_axis_set_lower_bound self bound
  | SetUpperBound bound => poc_axis_set_upper_bound self bound
  | SetMajorInterval interval => poc_axis_set_major_interval self interval
  | SetAutoInterval enabled => poc_axis_set_auto_interval self enabled
  | SetMinorDivisions divisions => poc_axis_set_minor_divisions self divisions
  end.

(** The states of an axis that never had an adjustment attached: a new
    axis, then any sequence of the operations above. *)
Inductive axis_reachable : PocAxisPrivate D -> Prop :=
| reachable_new : axis_reachable poc_axis_init
| reachable_call self c :
    axis_reachable self -> axis_reachable (poc_axis_call self c).

End Axis.
Arguments AxisCall D : clear implicits.

(** *** Grid positions *)

Section Grid.
Context {D : Type} `{!Double D, !Libm D}.
Implicit Type self : PocAxisPrivate D.
Local Open Scope double_scope.

(** [for (v = init; cond (v); v += step) body (v);] over a [gdouble]
    counter.  Such a loop need not end (a zero or negative step), so the
    model counts iterations: [None] when the loop is still running after
    [fuel] tests of its condition, otherwise what the bodies produced, in
    order. *)
Fixpoint for_double {A : Type} (fuel : nat) (cond : D -> bool) (step : D)
    (body : D -> option (list A)) (v : D) : option (list A) :=
  match fuel with
  | O => None
  | S fuel' =>
      if cond v
      then
        match body v with
        | Some out =>
            match for_double fuel' cond step body (v + step) with
            | Some rest => Some (out ++ rest)
            | None => None
            end
        | None => None
        end
      else Some []
  end.

(** [poc_axis_draw_grid_line] draws one line across the plot area at the
    mode-space position [xy]; the model records the position. *)
Definition poc_axis_draw_grid_line (xy : D) : option (list D) := Some [xy].

Definition lower_floor self : D :=
  floor (lower_mode self / major_interval self) * major_interval self.

(** The major grid loop of [poc_axis_draw_grid], lines 1275-1278. *)
Definition poc_axis_draw_grid_major (fuel : nat) self : option (list D) :=
  for_double fuel (fun xy => xy <=? ceil (upper_mode self))
    (major_interval self)
    (fun xy => poc_axis_draw_grid_line xy)
    (lower_floor self).

(** The minor grid loops of [poc_axis_draw_grid], lines 1286-1298: nothing
    when [minor_divisions] is 0. *)
Definition poc_axis_draw_grid_minor (fuel : nat) self : option (list D) :=
  if negb (minor_divisions self =? 0)%Z
  then
    for_double fuel (fun xy => xy <=? upper_mode self)
      (major_interval self)
      (fun xy =>
         match axis_mode self with
         | POC_AXIS_LOG_DECADE =>
             for_double fuel (fun mxy => mxy <? #10) #1
               (fun mxy => poc_axis_draw_grid_line (xy + log10 mxy))
               #2
         | _ =>
             for_double fuel (fun mxy => mxy <? major_interval self)
               (minor_interval self)
               (fun mxy => poc_axis_draw_grid_line (xy + mxy))
               (minor_interval self)
         end)
      (lower_floor self)
  else Some [].

(** [poc_axis_draw_grid]: the positions of the major grid lines, then those
    of the minor grid lines.  Styles, colours and the cairo calls are not
    modelled. *)
Definition poc_axis_draw_grid (fuel : nat) self : option (list D * list D) :=
  match poc_axis_draw_grid_major fuel self with
  | Some major =>
      match poc_axis_draw_grid_minor fuel self with
      | Some minor => Some (major, minor)
      | None => None
      end
  | None => None
  end.

End Grid.

(** ** pocspline.c *)

(** What a function guarded by [g_return_val_if_fail] hands back: its
    result, or NULL after logging the assertion that failed. *)
Inductive checked (A : Type) :=
| Returned (a : A)
| Critical (assertion : String.string).
Arguments Returned {A} _.
Arguments Critical {A} _.

Definition is_null {A : Type} (r : checked A) : bool :=
  match r with Returned _ => false | Critical _ => true end.

Section Spline.
Context {D : Type} `{!Double D}.
Local Open Scope double_scope.

(** A [PocPointArray]: [data] with [len] its length. *)
Definition PocPointArray : Type := list (PocPoint D).

(** One pass of the forward elimination of [spline_solve], lines 43-48. *)
Definition spline_solve_forward (point : PocPointArray)
    (st : list D * list D) (i : nat) : list D * list D :=
  let '(y2, u) := st in
  let sig := (x (point !!! i) - x (point !!! (i - 1)%nat))
             / (x (point !!! (i + 1)%nat) - x (point !!! (i - 1)%nat)) in
  let p := sig * (y2 !!! (i - 1)%nat) + #2 in
  let y2 := <[i := (sig - #1) / p]> y2 in
  let u := <[i := (y (point !!! (i + 1)%nat) - y (point !!! i))
                    / (x (point !!! (i + 1)%nat) - x (point !!! i))
                  - (y (point !!! i) - y (point !!! (i - 1)%nat))
                    / (x (point !!! i) - x (point !!! (i - 1)%nat))]> u in
  let u := <[i := (#6 * (u !!! i)
                     / (x (point !!! (i + 1)%nat) - x (point !!! (i - 1)%nat))
                   - sig * (u !!! (i - 1)%nat)) / p]> u in
  (y2, u).

(** One pass of the back-substitution, line 52. *)
Definition spline_solve_backward (u : list D) (y2 : list D) (k : nat) : list D :=
  <[k := (y2 !!! k) * (y2 !!! (k + 1)%nat) + (u !!! k)]> y2.

(** [spline_solve (n, point, y2)]: returns the contents of [y2] when the
    function ends.  [n] is the length of [point]; both callers reach this
    function only with [n >= 2], so [n - 1] and [n - 2] do not wrap.  The
    scratch array [u] is allocated here; each of its cells is written
    before it is read. *)
Definition spline_solve (n : nat) (point : PocPointArray) (y2 : list D) : list D :=
  let u := replicate (n - 1) #0 in
  let u := <[0%nat := #0]> u in
  let y2 := <[(n - 1)%nat := #0]> y2 in
  let y2 := <[0%nat := #0]> y2 in
  let '(y2, u) := fold_left (spline_solve_forward point) (seq 1 (n - 2)) (y2, u) in
  fold_left (spline_solve_backward u) (rev (seq 1 (n - 2))) y2.

(** The binary search of [spline_eval], lines 64-72.  Each pass brings
    [k_hi] and [k_lo] strictly closer, so [k_hi - k_lo] passes are always
    enough ([spline_bisect_adjacent] below). *)
Fixpoint spline_bisect (passes : nat) (point : PocPointArray) (val : D)
    (k_lo k_hi : nat) : nat * nat :=
  match passes with
  | O => (k_lo, k_hi)
  | S passes' =>
      if (1 <? k_hi - k_lo)%nat
      then
        let k := ((k_hi + k_lo) / 2)%nat in
        if x (point !!! k) >? val
        then spline_bisect passes' point val k_lo k
        else spline_bisect passes' point val k k_hi
      else (k_lo, k_hi)
  end.

Definition spline_eval (n : nat) (point : PocPointArray) (y2 : list D) (val : D) : D :=
  let '(k_lo, k_hi) := spline_bisect (n - 1) point val 0 (n - 1) in
  let h := x (point !!! k_hi) - x (point !!! k_lo) in
  let a := (x (point !!! k_hi) - val) / h in
  let b := (val - x (point !!! k_lo)) / h in
  a * y (point !!! k_lo) + b * y (point !!! k_hi)
  + ((a * a * a - a) * (y2 !!! k_lo) + (b * b * b - b) * (y2 !!! k_hi))
    * (h * h) / #6.

(** The sampling loop of [poc_spline_get_vector], lines 114-118:
    [count] passes are left, [i] is the loop counter [x]. *)
Fixpoint get_vector_loop (n : nat) (point : PocPointArray) (y2v : list D)
    (dx : D) (count : nat) (i : nat) (rx : D) (data : list D) : list D :=
  match count with
  | O => data
  | S count' =>
      let ry := spline_eval n point y2v rx in
      get_vector_loop n point y2v dx count' (S i) (rx + dx) (<[i := ry]> data)
  end.

(** [poc_spline_get_vector].  GLib is not part of this repository:
    [g_array_sized_new] leaves [data] NULL exactly when nothing is reserved,
    and [g_array_set_size] grows the array with zeroed cells.  The buffer
    [y2v] comes from [g_malloc]; [spline_solve] writes each of its cells, so
    that what it held does not matter ([spline_solve_buffer] below). *)
Definition poc_spline_get_vector (points : PocPointArray)
    (min_x max_x : D) (veclen : Z) : checked (list D) :=
  let n_points := length points in
  if negb (2 <=? n_points)%nat then Critical "n_points >= 2"%string
  else if (veclen =? 0)%Z then Critical "array != NULL && array->data != NULL"%string
  else
    let y2v := spline_solve n_points points (replicate n_points #0) in
    let rx := min_x in
    let dx := (max_x - min_x) / #(guint_sub veclen 1) in
    let array := replicate (Z.to_nat veclen) #0 in
    Returned (get_vector_loop n_points points y2v dx (Z.to_nat veclen) 0 rx array).

(** The sampling loop of [poc_spline_get_points], lines 158-164. *)
Fixpoint get_points_loop (n : nat) (point : PocPointArray) (y2v : list D)
    (dx : D) (count : nat) (rx : D) (array : PocPointArray) : PocPointArray :=
  match count with
  | O => array
  | S count' =>
      let ry := spline_eval n point y2v rx in
      let p := {| x := rx; y := ry |} in
      get_points_loop n point y2v dx count' (rx + dx) (array ++ [p])
  end.

Definition poc_spline_get_points (points : PocPointArray)
    (min_x max_x : D) (veclen : Z) : checked PocPointArray :=
  let n_points := length points in
  if negb (2 <=? n_points)%nat then Critical "n_points >= 2"%string
  else if (veclen =? 0)%Z then Critical "array != NULL && array->data != NULL"%string
  else
    let y2v := spline_solve n_points points (replicate n_points #0) in
    let rx := min_x in
    let dx := (max_x - min_x) / #(guint_sub veclen 1) in
    Returned (get_points_loop n_points points y2v dx (Z.to_nat veclen) rx []).

End Spline.
Arguments PocPointArray D : clear implicits.

(** ** pocdataset.c and pocdatasetspline.c *)

(** [struct _PocDatasetPrivate]: the control points and the two axes (NULL
    until set).  Nickname, legend, stroke colour and line style are left
    out.  An axis is held by reference in C; the record holds the state the
    axis has when the dataset is used. *)
Record PocDatasetPrivate (D : Type) := {
  priv_points : option (PocPointArray D);
  x_axis : option (PocAxisPrivate D);
  y_axis : option (PocAxisPrivate D);
}.
Arguments priv_points {D} _.
Arguments x_axis {D} _.
Arguments y_axis {D} _.
Arguments Build_PocDatasetPrivate {D} _ _ _.

(** The fields [struct _PocDatasetSpline] adds to its parent instance:
    [self->points] is the cache of resampled points, [self->cache_width]
    the width it was computed for.  Marker colours are left out. *)
Record PocDatasetSplineFields (D : Type) := {
  show_markers : bool;
  self_points : option (PocPointArray D);
  cache_width : Z;
}.
Arguments show_markers {D} _.
Arguments self_points {D} _.
Arguments cache_width {D} _.
Arguments Build_PocDatasetSplineFields {D} _ _ _.

(** An instance of class PocDataset, or of its subclass PocDatasetSpline. *)
Inductive PocDataset (D : Type) :=
| Dataset (priv : PocDatasetPrivate D)
| DatasetSpline (priv : PocDatasetPrivate D) (self : PocDatasetSplineFields D).
Arguments Dataset {D} _.
Arguments DatasetSpline {D} _ _.

Section Dataset.
Context {D : Type} `{!Double D, !Libm D}.
Local Open Scope double_scope.

Definition dataset_priv (self : PocDataset D) : PocDatasetPrivate D :=
  match self with Dataset priv | DatasetSpline priv _ => priv end.

(** The resample cache of a dataset; a plain PocDataset has none. *)
Definition dataset_cache (self : PocDataset D) : option (PocPointArray D) :=
  match self with
  | Dataset _ => None
  | DatasetSpline _ self => self_points self
  end.

Definition set_priv_points (points : option (PocPointArray D))
    (self : PocDataset D) : PocDataset D :=
  let upd priv :=
    {| priv_points := points; x_axis := x_axis priv; y_axis := y_axis priv |} in
  match self with
  | Dataset priv => Dataset (upd priv)
  | DatasetSpline priv s => DatasetSpline (upd priv) s
  end.

(** The class method [invalidate] of PocDataset. *)
Definition poc_dataset_invalidate_real (self : PocDataset D) : PocDataset D := self.

(** The override of PocDatasetSpline: chain up, then drop the cache. *)
Definition poc_dataset_spline_invalidate (dataset : PocDataset D) : PocDataset D :=
  match poc_dataset_invalidate_real dataset with
  | DatasetSpline priv self =>
      match self_points self with
      | Some _ =>
          DatasetSpline priv
            {| show_markers := show_markers self; self_points := None;
               cache_width := cache_width self |}
      | None => DatasetSpline priv self
      end
  | Dataset priv => Dataset priv
  end.

(** [poc_dataset_invalidate]: dispatch on the class of the instance. *)
Definition poc_dataset_invalidate (self : PocDataset D) : PocDataset D :=
  match self with
  | Dataset _ => poc_dataset_invalidate_real self
  | DatasetSpline _ _ => poc_dataset_spline_invalidate self
  end.

(** [poc_dataset_set_points]; [points] may be NULL.  Reference counts and
    notifications are not modelled. *)
Definition poc_dataset_set_points (self : PocDataset D)
    (points : option (PocPointArray D)) : PocDataset D :=
  poc_dataset_invalidate (set_priv_points points self).

(** The loop of [poc_dataset_set_points_array], lines 586-591. *)
Fixpoint set_points_array_loop (xs ys : list D) (count : nat) (i : nat)
    (array : PocPointArray D) : PocPointArray D :=
  match count with
  | O => array
  | S count' =>
      let p := {| x := xs !!! i; y := ys !!! i |} in
      set_points_array_loop xs ys count' (S i) (array ++ [p])
  end.

(** [poc_dataset_set_points_array (self, x, y, points)]. *)
Definition poc_dataset_set_points_array (self : PocDataset D)
    (xs ys : list D) (points : Z) : PocDataset D :=
  set_priv_points
    (Some (set_points_array_loop xs ys (Z.to_nat points) 0 [])) self.

Definition poc_dataset_get_points (self : PocDataset D) : option (PocPointArray D) :=
  priv_points (dataset_priv self).

(** [poc_dataset_spline_draw], lines 317-334: bring the cache up to date
    for [width].  The cairo path drawn from the cache is not modelled.
    [poc_dataset_draw] has checked that the X axis is set.  A NULL result
    of [poc_spline_get_points] is stored as it is. *)
Definition poc_dataset_spline_draw (dataset : PocDataset D) (width : Z) : PocDataset D :=
  match dataset with
  | DatasetSpline priv self =>
      match poc_dataset_get_points dataset, x_axis priv with
      | Some spline, Some x_axis =>
          if match self_points self with None => true | Some _ => false end
             || negb (cache_width self =? width)%Z
          then
            let '(min_x, max_x) := poc_axis_get_display_range x_axis in
            DatasetSpline priv
              {| show_markers := show_markers self;
                 self_points :=
                   match poc_spline_get_points spline min_x max_x
                           (guint_add (width / 4) 1) with
                   | Returned array => Some array
                   | Critical _ => None
                   end;
                 cache_width := width |}
          else dataset
      | _, _ => dataset
      end
  | Dataset _ => dataset
  end.

(** [poc_dataset_draw]: nothing happens unless both axes are set; then the
    class method [draw] runs ([poc_dataset_draw_real] changes no state). *)
Definition poc_dataset_draw (self : PocDataset D) (width : Z) : PocDataset D :=
  match x_axis (dataset_priv self), y_axis (dataset_priv self) with
  | Some _, Some _ =>
      match self with
      | Dataset _ => self
      | DatasetSpline _ _ => poc_dataset_spline_draw self width
      end
  | _, _ => self
  end.

End Dataset.

(** ** pocaxis.c: the adjustment and the labels of the ticks *)

(** A [guint] passed where a [gint] is expected keeps its bits, and so
    does the unary minus of a [guint]. *)
Definition gint_of_guint (v : Z) : Z :=
  if (v <? 2 ^ 31)%Z then v else (v - guint_max)%Z.
Definition guint_neg (v : Z) : Z := ((- v) mod guint_max)%Z.

Inductive GtkOrientation := GTK_ORIENTATION_HORIZONTAL | GTK_ORIENTATION_VERTICAL.
Inductive GtkPackType := GTK_PACK_START | GTK_PACK_END.

(** The two fields of a [cairo_text_extents_t] that the axis reads. *)
Record cairo_text_extents_t (D : Type) := {
  extents_y_bearing : D;
  extents_width : D;
}.
Arguments extents_y_bearing {D} _.
Arguments extents_width {D} _.

Section AxisAdjustment.
Context {D : Type} `{!Double D, !Libm D}.
Implicit Type self : PocAxisPrivate D.
Local Open Scope double_scope.

(** [poc_axis_adj_value_changed], the handler of the adjustment's
    "value-changed" signal: the window in mode space follows the
    adjustment. *)
Definition poc_axis_adj_value_changed (adjustment : GtkAdjustment D) self
    : PocAxisPrivate D :=
  let value := adj_value adjustment in
  let page_size := adj_page_size adjustment in
  set_upper_mode (value + page_size) (set_lower_mode value self).

(** [poc_axis_adj_changed], the handler of its "changed" signal: the
    bounds follow the limits of the adjustment. *)
Definition poc_axis_adj_changed (adjustment : GtkAdjustment D) self
    : PocAxisPrivate D :=
  let lower := adj_lower adjustment in
  let upper := adj_upper adjustment in
  let '(lower, upper) :=
    match axis_mode self with
    | POC_AXIS_LOG_OCTAVE => (exp2 lower, exp2 upper)
    | POC_AXIS_LOG_DECADE => (exp10 lower, exp10 upper)
    | POC_AXIS_LINEAR => (lower, upper)
    end in
  poc_axis_adj_value_changed adjustment
    (set_upper_bound upper (set_lower_bound lower self)).

(** GTK is not part of this repository.  [gtk_adjustment_configure] stores
    the values it is given in the adjustment; the two handlers are
    connected only after it, so that the call leaves the axis as it is.
    What it leaves in the adjustment is a parameter. *)
Variable gtk_adjustment_configure :
  GtkAdjustment D -> D -> D -> D -> D -> D -> D -> GtkAdjustment D.

(** [poc_axis_set_adjustment]; [adjustment] may be NULL.  The handlers of
    the former adjustment are disconnected; those of the new one are
    connected at the end, and from then on its "changed" signal runs
    [poc_axis_adj_changed], its "value-changed" signal
    [poc_axis_adj_value_changed].  With NULL nothing is recomputed. *)
Definition poc_axis_set_adjustment self (adjustment : option (GtkAdjustment D))
    : PocAxisPrivate D :=
  let self := set_adjustment adjustment self in
  match adjustment with
  | Some adj =>
      let self := poc_axis_update_bounds self in
      let page_size := upper_mode self - lower_mode self in
      set_adjustment
        (Some (gtk_adjustment_configure adj (lower_mode self)
                 (lower_mode self) (upper_mode self)
                 (page_size / #10) (page_size / #2) page_size))
        self
  | None => self
  end.

(** The negation of a [gdouble]: the product with -1 is exact. *)
Definition d_opp (v : D) : D := #(-1) * v.

Definition EXTRA : D := #2.

(** [poc_axis_label_tick]: where the label of the major tick at [xy] is
    put, if it is drawn.  [width] and [height] are [guint]; [extents] is
    what cairo measures for the label, [size] the tick size. *)
Definition poc_axis_label_tick self (orientation : GtkOrientation)
    (pack : GtkPackType) (width height : Z) (extents : cairo_text_extents_t D)
    (xy size : D) : option (D * D) :=
  match orientation with
  | GTK_ORIENTATION_HORIZONTAL =>
      let x := poc_axis_linear_project self xy (gint_of_guint width) in
      if x >=? #width then None
      else
        let x := x - extents_width extents / #2 in
        let y :=
          match pack with
          | GTK_PACK_START => size - extents_y_bearing extents + EXTRA
          | GTK_PACK_END => #(guint_sub height 1) - size - EXTRA
          end in
        let x :=
          if x <? #0 then #0
          else if x >=? #width - extents_width extents
               then #(guint_sub width 1) - extents_width extents
               else x in
        Some (x, y)
  | GTK_ORIENTATION_VERTICAL =>
      let y := poc_axis_linear_project self xy (gint_of_guint (guint_neg height)) in
      if y >=? #height then None
      else
        let x :=
          match pack with
          | GTK_PACK_START =>
              #(guint_sub width 1) - (size + extents_width extents) - EXTRA
          | GTK_PACK_END => size + EXTRA
          end in
        let y := y - extents_y_bearing extents / #2 in
        let y :=
          if y <? d_opp (extents_y_bearing extents)
          then d_opp (extents_y_bearing extents)
          else if y >=? #height then #(guint_sub height 1)
               else y in
        Some (x, y)
  end.

End AxisAdjustment.

(** *** GTK, as documented

    What the documentation of GTK says of three functions the axis calls,
    for the arguments met in the examples below.  No theorem about the axis
    depends on these definitions: they build the states of examples in
    which an adjustment is attached. *)

(** GTK's [gtk_adjustment_configure] as its documentation has it, for a
    value between the limits: the values are stored. *)
Definition gtk_stores_configuration {D : Type} (adj : GtkAdjustment D)
    (value lower upper step_increment page_increment page_size : D)
    : GtkAdjustment D :=
  {| adj_value := value; adj_lower := lower; adj_upper := upper;
     adj_page_size := page_size |}.

(** GTK's [gtk_adjustment_set_lower] and [gtk_adjustment_set_upper] as
    its documentation has them, for a new limit: the limit is stored and
    "changed" is emitted, on which the handler that
    [poc_axis_set_adjustment] connected runs. *)
Definition gtk_emits_changed_lower `{!Double D, !Libm D} (adj : GtkAdjustment D)
    (lower : D) (self : PocAxisPrivate D) : PocAxisPrivate D :=
  let adj := {| adj_value := adj_value adj; adj_lower := lower;
                adj_upper := adj_upper adj;
                adj_page_size := adj_page_size adj |} in
  poc_axis_adj_changed adj (set_adjustment (Some adj) self).


(** ** pocdataset.c and pocdatasetspline.c: what is drawn *)

(** What a drawing function hands to cairo, or how it ends before. *)
Inductive drawing (A : Type) :=
| Drawn (a : A)
| NotDrawn            (* returns without drawing *)
| NullDereference     (* reads through a NULL array pointer *)
| OutOfBounds.        (* reads [data[0]] of an array of length 0 *)
Arguments Drawn {A} _.
Arguments NotDrawn {A}.
Arguments NullDereference {A}.
Arguments OutOfBounds {A}.

Section DatasetDrawing.
Context {D : Type} `{!Double D, !Libm D}.
Local Open Scope double_scope.

(** The position in the plot area of a point of the data: X grows to the
    right, Y upwards ([norm] is negative for Y). *)
Definition dataset_vertex (x_axis y_axis : PocAxisPrivate D) (width height : Z)
    (p : PocPoint D) : D * D :=
  (poc_axis_project x_axis (x p) (gint_of_guint width),
   poc_axis_project y_axis (y p) (gint_of_guint (guint_neg height))).

(** The loops over the points of [poc_dataset_draw_real], lines 668-673,
    and of [poc_dataset_spline_draw], lines 341-346. *)
Fixpoint draw_line_to_loop (x_axis y_axis : PocAxisPrivate D) (width height : Z)
    (points : PocPointArray D) (count : nat) (i : nat)
    (path : list (D * D)) : list (D * D) :=
  match count with
  | O => path
  | S count' =>
      let p := points !!! i in
      draw_line_to_loop x_axis y_axis width height points count' (S i)
        (path ++ [dataset_vertex x_axis y_axis width height p])
  end.

(** The path through the points of an array: a move to the first point,
    then a line to each of the others. *)
Definition draw_plot_line (x_axis y_axis : PocAxisPrivate D) (width height : Z)
    (points : PocPointArray D) : drawing (list (D * D)) :=
  match points with
  | [] => OutOfBounds
  | _ :: _ =>
      let p := points !!! 0%nat in
      Drawn (draw_line_to_loop x_axis y_axis width height points
               (length points - 1) 1
               [dataset_vertex x_axis y_axis width height p])
  end.

(** [poc_dataset_draw_real]: the vertices of the plot line.
    [poc_dataset_draw] has checked that both axes are set. *)
Definition poc_dataset_draw_real (priv : PocDatasetPrivate D)
    (width height : Z) : drawing (list (D * D)) :=
  match priv_points priv, x_axis priv, y_axis priv with
  | Some points, Some x_axis, Some y_axis =>
      draw_plot_line x_axis y_axis width height points
  | _, _, _ => NotDrawn
  end.

(** The loop over the control points of [poc_dataset_spline_draw], lines
    359-367: the centres of the markers. *)
Fixpoint draw_markers_loop (x_axis y_axis : PocAxisPrivate D) (width height : Z)
    (spline : PocPointArray D) (count : nat) (i : nat)
    (arcs : list (D * D)) : list (D * D) :=
  match count with
  | O => arcs
  | S count' =>
      let p := spline !!! i in
      draw_markers_loop x_axis y_axis width height spline count' (S i)
        (arcs ++ [dataset_vertex x_axis y_axis width height p])
  end.

(** [poc_dataset_spline_draw], lines 336-372: the vertices of the curve,
    read from the cache that lines 317-334 ([poc_dataset_spline_draw]
    above) leave, and the centres of the markers. *)
Definition poc_dataset_spline_draw_path (dataset : PocDataset D)
    (width height : Z) : drawing (list (D * D) * list (D * D)) :=
  match dataset with
  | DatasetSpline priv self =>
      match poc_dataset_get_points dataset, x_axis priv, y_axis priv with
      | Some spline, Some x_axis, Some y_axis =>
          match dataset_cache (poc_dataset_spline_draw dataset width) with
          | None => NullDereference
          | Some points =>
              match draw_plot_line x_axis y_axis width height points with
              | Drawn path =>
                  Drawn (path,
                         if show_markers self
                         then draw_markers_loop x_axis y_axis width height
                                spline (length spline) 0 []
                         else [])
              | NotDrawn => NotDrawn
              | NullDereference => NullDereference
              | OutOfBounds => OutOfBounds
              end
          end
      | _, _, _ => NotDrawn
      end
  | Dataset _ => NotDrawn
  end.

(** [poc_dataset_draw]: what is drawn; nothing unless both axes are set. *)
Definition poc_dataset_draw_path (self : PocDataset D) (width height : Z)
    : drawing (list (D * D) * list (D * D)) :=
  match x_axis (dataset_priv self), y_axis (dataset_priv self) with
  | Some _, Some _ =>
      match self with
      | Dataset priv =>
          match poc_dataset_draw_real priv width height with
          | Drawn path => Drawn (path, [])
          | NotDrawn => NotDrawn
          | NullDereference => NullDereference
          | OutOfBounds => OutOfBounds
          end
      | DatasetSpline _ _ => poc_dataset_spline_draw_path self width height
      end
  | _, _ => NotDrawn
  end.

End DatasetDrawing.

(** ** pocbag.c *)

(** [gint] arithmetic.  Overflow of a signed integer is undefined in C; the
    model wraps as the compiled code does, and the properties below are
    stated for counters that stay below [G_MAXINT]. *)
Definition G_MAXINT : Z := 2 ^ 31 - 1.
Definition gint_wrap (z : Z) : Z := ((z + 2 ^ 31) mod 2 ^ 32 - 2 ^ 31)%Z.

(** [struct PocBagItem].  [Obj] is the type of the addresses of objects
    ([GObject *], compared as pointers), [Data] what a [data] pointer
    refers to, [Notify] the type of destroy functions; a NULL pointer is
    [None]. *)
Record PocBagItem (Obj Data Notify : Type) := {
  item_object : Obj;
  item_count : Z;
  item_data : option Data;
  item_destroy : option Notify;
}.
Arguments item_object {Obj Data Notify} _.
Arguments item_count {Obj Data Notify} _.
Arguments item_data {Obj Data Notify} _.
Arguments item_destroy {Obj Data Notify} _.
Arguments Build_PocBagItem {Obj Data Notify} _ _ _ _.

(** What the bag does to the objects and data it holds: references taken
    and released, destroy functions called. *)
Inductive BagEffect (Obj Data Notify : Type) :=
| ObjectRef (o : Obj)
| ObjectUnref (o : Obj)
| DestroyNotify (f : Notify) (d : option Data).
Arguments ObjectRef {Obj Data Notify} _.
Arguments ObjectUnref {Obj Data Notify} _.
Arguments DestroyNotify {Obj Data Notify} _ _.

Section Bag.
Context {Obj Data Notify : Type} `{!EqDecision Obj}.

(** A [PocObjectBag] is a [GArray] of items: [data] with [len] its
    length. *)
Definition PocObjectBag : Type := list (PocBagItem Obj Data Notify).

Abbreviation Effects := (list (BagEffect Obj Data Notify)).

Definition set_count (v : Z) (item : PocBagItem Obj Data Notify)
    : PocBagItem Obj Data Notify :=
  {| item_object := item_object item; item_count := v;
     item_data := item_data item; item_destroy := item_destroy item |}.

(** [poc_bag_item_destroy], the clear function of the array: GLib calls it
    on every item it removes. *)
Definition poc_bag_item_destroy (item : PocBagItem Obj Data Notify) : Effects :=
  ObjectUnref (item_object item)
  :: match item_destroy item with
     | Some f => [DestroyNotify f (item_data item)]
     | None => []
     end.

Definition poc_object_bag_new : PocObjectBag := [].

(** The loop of [poc_object_bag_find_object]: the index of the first item
    from [i] on that holds [object]. *)
Fixpoint poc_object_bag_find_object_loop (item : PocObjectBag) (object : Obj)
    (i : nat) : option nat :=
  match item with
  | [] => None
  | it :: rest =>
      if decide (item_object it = object) then Some i
      else poc_object_bag_find_object_loop rest object (S i)
  end.

Definition poc_object_bag_find_object (bag : PocObjectBag) (object : Obj)
    : option nat :=
  poc_object_bag_find_object_loop bag object 0.

(** [poc_object_bag_add]: TRUE if the object was already in the bag. *)
Definition poc_object_bag_add (bag : PocObjectBag) (object : Obj)
    : bool * PocObjectBag * Effects :=
  match poc_object_bag_find_object bag object with
  | Some i =>
      (true,
       alter (fun item => set_count (gint_wrap (item_count item + 1)) item)
         i bag,
       [])
  | None =>
      let new_item :=
        {| item_object := object; item_count := 1; item_data := None;
           item_destroy := None |} in
      (false, bag ++ [new_item], [ObjectRef object])
  end.

(** [poc_object_bag_empty]: [g_array_set_size (array, 0)] clears every
    item. *)
Definition poc_object_bag_empty (bag : PocObjectBag) : PocObjectBag * Effects :=
  ([], bag ≫= poc_bag_item_destroy).

(** [poc_object_bag_remove]: TRUE if the object was removed from the
    bag. *)
Definition poc_object_bag_remove (bag : PocObjectBag) (object : Obj)
    : bool * PocObjectBag * Effects :=
  match poc_object_bag_find_object bag object with
  | Some i =>
      match bag !! i with
      | Some item =>
          let item := set_count (gint_wrap (item_count item - 1)) item in
          if (item_count item <=? 0)%Z
          then (true, delete i bag, poc_bag_item_destroy item)
          else (false, <[i := item]> bag, [])
      | None => (false, bag, [])
      end
  | None => (false, bag, [])
  end.

Definition poc_object_bag_set_data_full (bag : PocObjectBag) (object : Obj)
    (data : option Data) (destroy : option Notify)
    : bool * PocObjectBag * Effects :=
  match poc_object_bag_find_object bag object with
  | Some i =>
      match bag !! i with
      | Some item =>
          (true,
           <[i := {| item_object := item_object item;
                     item_count := item_count item;
                     item_data := data; item_destroy := destroy |}]> bag,
           match item_destroy item with
           | Some f => [DestroyNotify f (item_data item)]
           | None => []
           end)
      | None => (false, bag, [])
      end
  | None => (false, bag, [])
  end.

Definition poc_object_bag_get_data (bag : PocObjectBag) (object : Obj)
    : option Data :=
  match poc_object_bag_find_object bag object with
  | Some i =>
      match bag !! i with
      | Some item => item_data item
      | None => None
      end
  | None => None
  end.

Definition poc_object_bag_contains (bag : PocObjectBag) (object : Obj)
    : bool :=
  match poc_object_bag_find_object bag object with
  | Some _ => true
  | None => false
  end.

(** [poc_object_bag_find]: the first object whose item satisfies the
    predicate, NULL when none does. *)
Fixpoint poc_object_bag_find (bag : PocObjectBag)
    (predicate : Obj -> option Data -> bool) : option Obj :=
  match bag with
  | [] => None
  | item :: rest =>
      if predicate (item_object item) (item_data item)
      then Some (item_object item)
      else poc_object_bag_find rest predicate
  end.

(** [poc_object_bag_foreach]: [func] is called on each item in turn; [S]
    is the state it works on. *)
Definition poc_object_bag_foreach {S : Type} (bag : PocObjectBag)
    (func : Obj -> option Data -> S -> S) (user_data : S) : S :=
  fold_left (fun st item => func (item_object item) (item_data item) st) bag
    user_data.

End Bag.
Arguments PocObjectBag Obj Data Notify : clear implicits.

(** ** pocplot.c *)

Record GdkRectangle := {
  rect_x : Z;
  rect_y : Z;
  rect_width : Z;
  rect_height : Z;
}.

(** [struct _PocPlotAxis] and [struct _PocPlotDataset]: what the plot keeps
    for each axis and each dataset in its bags. *)
Record PocPlotAxis := {
  axis_pack : GtkPackType;
  axis_orientation : GtkOrientation;
  axis_hidden : bool;
  axis_area : GdkRectangle;
}.

Record PocPlotDataset := {
  dataset_solo : bool;
}.

(** The one destroy function the plot gives its bags. *)
Inductive GDestroyNotify := g_free.

(** [struct _PocPlot], the fields that keep the axes and the datasets.
    [Obj] is the type of the addresses of the axis and dataset objects.
    The title, colours and border, the plot area and the allocated size
    are left out: no function below reads them. *)
Record PocPlot (Obj : Type) := {
  axes : PocObjectBag Obj PocPlotAxis GDestroyNotify;
  datasets : PocObjectBag Obj PocPlotDataset GDestroyNotify;
  plot_x_axis : option Obj;
  plot_y_axis : option Obj;
  plot_solo : Z;
  relayout : bool;
}.
Arguments axes {Obj} _.
Arguments datasets {Obj} _.
Arguments plot_x_axis {Obj} _.
Arguments plot_y_axis {Obj} _.
Arguments plot_solo {Obj} _.
Arguments relayout {Obj} _.
Arguments Build_PocPlot {Obj} _ _ _ _ _ _.

Section PlotFields.
Context {Obj : Type}.
Implicit Type self : PocPlot Obj.

Definition set_axes (v : PocObjectBag Obj PocPlotAxis GDestroyNotify) self
    : PocPlot Obj :=
  {| axes := v; datasets := datasets self; plot_x_axis := plot_x_axis self;
     plot_y_axis := plot_y_axis self; plot_solo := plot_solo self;
     relayout := relayout self |}.

Definition set_datasets (v : PocObjectBag Obj PocPlotDataset GDestroyNotify)
    self : PocPlot Obj :=
  {| axes := axes self; datasets := v; plot_x_axis := plot_x_axis self;
     plot_y_axis := plot_y_axis self; plot_solo := plot_solo self;
     relayout := relayout self |}.

Definition set_plot_x_axis (v : option Obj) self : PocPlot Obj :=
  {| axes := axes self; datasets := datasets self; plot_x_axis := v;
     plot_y_axis := plot_y_axis self; plot_solo := plot_solo self;
     relayout := relayout self |}.

Definition set_plot_y_axis (v : option Obj) self : PocPlot Obj :=
  {| axes := axes self; datasets := datasets self;
     plot_x_axis := plot_x_axis self; plot_y_axis := v;
     plot_solo := plot_solo self; relayout := relayout self |}.

Definition set_plot_solo (v : Z) self : PocPlot Obj :=
  {| axes := axes self; datasets := datasets self;
     plot_x_axis := plot_x_axis self; plot_y_axis := plot_y_axis self;
     plot_solo := v; relayout := relayout self |}.

Definition set_relayout (v : bool) self : PocPlot Obj :=
  {| axes := axes self; datasets := datasets self;
     plot_x_axis := plot_x_axis self; plot_y_axis := plot_y_axis self;
     plot_solo := plot_solo self; relayout := v |}.

End PlotFields.

(** The functions of pocplot.c that manage the axes and the datasets.  They
    are given objects of the right class, so that the type checks at their
    heads pass; a failed [g_return_if_fail] returns with the plot as it
    was.  The references and destroy calls are those of the bag functions
    they call (the third component of the bag functions' results); the
    signal connections, the property notifications and the requests to
    redraw are left out.  [poc_dataset_get_x_axis] and
    [poc_dataset_get_y_axis] read the axes a dataset has when the function
    is called. *)
Section Plot.
Context {Obj : Type} `{!EqDecision Obj}.
Variable poc_dataset_get_x_axis : Obj -> option Obj.
Variable poc_dataset_get_y_axis : Obj -> option Obj.
Implicit Type self : PocPlot Obj.

Definition poc_plot_init : PocPlot Obj :=
  {| axes := poc_object_bag_new; datasets := poc_object_bag_new;
     plot_x_axis := None; plot_y_axis := None; plot_solo := 0;
     relayout := false |}.

(** [g_set_object] stores the axis; the notifications follow only if it
    differs from the one that was there. *)
Definition poc_plot_set_x_axis self (x_axis0 : Obj) : PocPlot Obj :=
  if poc_object_bag_contains (axes self) x_axis0
  then set_plot_x_axis (Some x_axis0) self
  else self.

Definition poc_plot_set_y_axis self (y_axis0 : Obj) : PocPlot Obj :=
  if poc_object_bag_contains (axes self) y_axis0
  then set_plot_y_axis (Some y_axis0) self
  else self.

Definition poc_plot_set_axis self (axis : Obj) : PocPlot Obj :=
  match poc_object_bag_get_data (axes self) axis with
  | None => self
  | Some axis_data =>
      match axis_orientation axis_data with
      | GTK_ORIENTATION_HORIZONTAL => poc_plot_set_x_axis self axis
      | GTK_ORIENTATION_VERTICAL => poc_plot_set_y_axis self axis
      end
  end.

Definition poc_plot_add_axis self (axis : Obj) (hidden : bool)
    (pack : GtkPackType) (orientation : GtkOrientation) : PocPlot Obj :=
  let '(found, bag, _) := poc_object_bag_add (axes self) axis in
  if found then set_axes bag self
  else
    let data :=
      {| axis_pack := pack; axis_orientation := orientation;
         axis_hidden := hidden;
         axis_area := {| rect_x := 0; rect_y := 0; rect_width := 0;
                         rect_height := 0 |} |} in
    let '(_, bag, _) :=
      poc_object_bag_set_data_full bag axis (Some data) (Some g_free) in
    set_relayout true (set_axes bag self).

Definition poc_plot_remove_axis self (axis : Obj) : PocPlot Obj :=
  let '(removed, bag, _) := poc_object_bag_remove (axes self) axis in
  let self := set_axes bag self in
  if removed then
    let self :=
      if decide (plot_x_axis self = Some axis)
      then set_plot_x_axis None self else self in
    let self :=
      if decide (plot_y_axis self = Some axis)
      then set_plot_y_axis None self else self in
    set_relayout true self
  else self.

Definition poc_plot_clear_axes self : PocPlot Obj :=
  let self := set_plot_x_axis None self in
  let self := set_plot_y_axis None self in
  let self := set_axes (poc_object_bag_empty (axes self)).1 self in
  set_relayout true self.

Definition poc_plot_add_dataset self (dataset : Obj)
    (x_pack y_pack : GtkPackType) : PocPlot Obj :=
  let '(found, bag, _) := poc_object_bag_add (datasets self) dataset in
  let bag :=
    if found then bag
    else
      let data := {| dataset_solo := false |} in
      (poc_object_bag_set_data_full bag dataset (Some data)
         (Some g_free)).1.2 in
  let self := set_datasets bag self in
  let self :=
    match poc_dataset_get_x_axis dataset with
    | Some axis =>
        let self :=
          poc_plot_add_axis self axis false x_pack GTK_ORIENTATION_HORIZONTAL in
        match plot_x_axis self with
        | None => poc_plot_set_x_axis self axis
        | Some _ => self
        end
    | None => self
    end in
  match poc_dataset_get_y_axis dataset with
  | Some axis =>
      let self :=
        poc_plot_add_axis self axis false y_pack GTK_ORIENTATION_VERTICAL in
      match plot_y_axis self with
      | None => poc_plot_set_y_axis self axis
      | Some _ => self
      end
  | None => self
  end.

Definition poc_plot_remove_dataset_internal self (dataset : Obj)
    : PocPlot Obj :=
  let self :=
    match poc_dataset_get_x_axis dataset with
    | Some axis => poc_plot_remove_axis self axis
    | None => self
    end in
  match poc_dataset_get_y_axis dataset with
  | Some axis => poc_plot_remove_axis self axis
  | None => self
  end.

Definition poc_plot_remove_dataset self (dataset : Obj) : PocPlot Obj :=
  let '(removed, bag, _) := poc_object_bag_remove (datasets self) dataset in
  let self := set_datasets bag self in
  if removed then poc_plot_remove_dataset_internal self dataset else self.

Definition poc_plot_clear_dataset_cb (object : Obj)
    (object_data : option PocPlotDataset) self : PocPlot Obj :=
  poc_plot_remove_dataset_internal self object.

(** The callback changes the axes, not the bag [poc_object_bag_foreach]
    walks. *)
Definition poc_plot_clear_dataset self : PocPlot Obj :=
  let self :=
    poc_object_bag_foreach (datasets self) poc_plot_clear_dataset_cb self in
  set_datasets (poc_object_bag_empty (datasets self)).1 self.

(** [poc_plot_solo_dataset]; [None] when [g_assert (self->solo >= 0)]
    fails.  The new flag is written through the pointer that
    [poc_object_bag_get_data] returned, into the data the bag keeps for the
    dataset. *)
Definition set_bag_data {Data Notify : Type}
    (bag : PocObjectBag Obj Data Notify) (object : Obj) (v : Data)
    : PocObjectBag Obj Data Notify :=
  match poc_object_bag_find_object bag object with
  | Some i =>
      alter (fun item =>
               {| item_object := item_object item;
                  item_count := item_count item; item_data := Some v;
                  item_destroy := item_destroy item |}) i bag
  | None => bag
  end.

Definition poc_plot_solo_dataset self (dataset : Obj) (solo : bool)
    : option (PocPlot Obj) :=
  match poc_object_bag_get_data (datasets self) dataset with
  | None => Some self
  | Some data =>
      let changed (v : Z) :=
        let self := set_plot_solo v self in
        let self :=
          set_datasets
            (set_bag_data (datasets self) dataset {| dataset_solo := solo |})
            self in
        if (0 <=? plot_solo self)%Z then Some self else None in
      if solo && negb (dataset_solo data)
      then changed (gint_wrap (plot_solo self + 1))
      else if negb solo && dataset_solo data
      then changed (gint_wrap (plot_solo self - 1))
      else Some self
  end.

(** [poc_plot_draw_dataset], the callback of the loop over the datasets in
    [poc_plot_draw]: the state is the list of the datasets
    [poc_dataset_draw] was called for, [None] once the callback has read
    through a NULL [dataset_data]. *)
Definition poc_plot_draw_dataset self (object : Obj)
    (object_data : option PocPlotDataset) (drawn : option (list Obj))
    : option (list Obj) :=
  match drawn with
  | None => None
  | Some l =>
      if (plot_solo self =? 0)%Z then Some (l ++ [object])
      else
        match object_data with
        | Some dataset_data =>
            Some (if dataset_solo dataset_data then l ++ [object] else l)
        | None => None
        end
  end.

Definition poc_plot_draw_datasets self : option (list Obj) :=
  poc_object_bag_foreach (datasets self) (poc_plot_draw_dataset self)
    (Some []).

(** The calls a user of a plot makes. *)
Inductive PlotCall : Type :=
| SetXAxis (axis : Obj)
| SetYAxis (axis : Obj)
| SetAxis (axis : Obj)
| AddAxis (axis : Obj) (hidden : bool) (pack : GtkPackType)
    (orientation : GtkOrientation)
| RemoveAxis (axis : Obj)
| ClearAxes
| AddDataset (dataset : Obj) (x_pack y_pack : GtkPackType)
| RemoveDataset (dataset : Obj)
| ClearDataset
| SoloDataset (dataset : Obj) (solo : bool).

Definition poc_plot_call self (c : PlotCall) : option (PocPlot Obj) :=
  match c with
  | SetXAxis axis => Some (poc_plot_set_x_axis self axis)
  | SetYAxis axis => Some (poc_plot_set_y_axis self axis)
  | SetAxis axis => Some (poc_plot_set_axis self axis)
  | AddAxis axis hidden pack orientation =>
      Some (poc_plot_add_axis self axis hidden pack orientation)
  | RemoveAxis axis => Some (poc_plot_remove_axis self axis)
  | ClearAxes => Some (poc_plot_clear_axes self)
  | AddDataset dataset x_pack y_pack =>
      Some (poc_plot_add_dataset self dataset x_pack y_pack)
  | RemoveDataset dataset => Some (poc_plot_remove_dataset self dataset)
  | ClearDataset => Some (poc_plot_clear_dataset self)
  | SoloDataset dataset solo => poc_plot_solo_dataset self dataset solo
  end.

End Plot.
Arguments PlotCall Obj : clear implicits.

(** A sequence of calls, each with the axes the datasets have when it is
    made; [None] once an assertion has failed. *)
Fixpoint poc_plot_calls {Obj : Type} `{!EqDecision Obj} (self : PocPlot Obj)
    (calls : list ((Obj -> option Obj) * (Obj -> option Obj) * PlotCall Obj))
    : option (PocPlot Obj) :=
  match calls with
  | [] => Some self
  | (get_x, get_y, c) :: rest =>
      match poc_plot_call get_x get_y self c with
      | Some self => poc_plot_calls self rest
      | None => None
      end
  end.

(** ** Vocabulary of the stated properties *)






(** An operation that ends in [poc_axis_update_bounds]: every operation
    but the two setters of the bounds on an axis with an adjustment, which
    go on to call [gtk_adjustment_set_lower] or [gtk_adjustment_set_upper]. *)
Definition ends_in_update_bounds {D : Type} (self : PocAxisPrivate D)
    (c : AxisCall D) : Prop :=
  match c with
  | SetLowerBound _ | SetUpperBound _ => adjustment self = None
  | _ => True
  end.

(** The two bounds an operation leaves in [lower_bound] and [upper_bound]
    before it calls [poc_axis_update_bounds]. *)
Definition stored_bounds {D : Type} (self : PocAxisPrivate D)
    (c : AxisCall D) : D * D :=
  match c with
  | Configure _ lower upper => (lower, upper)
  | SetLowerBound bound => (bound, upper_bound self)
  | SetUpperBound bound => (lower_bound self, bound)
  | _ => (lower_bound self, upper_bound self)
  end.

(** A binary64 value that is a NaN or an infinity, and one that is a zero
    or a NaN, read on the specification of the primitive floats. *)
Definition SF_nonfinite (s : spec_float) : bool :=
  match s with S754_nan | S754_infinity _ => true | _ => false end.

Definition SF_zero_or_nan (s : spec_float) : bool :=
  match s with S754_nan | S754_zero _ => true | _ => false end.

(** Control points with strictly increasing X: each point lies to the left
    of the next one. *)
Fixpoint increasing_x (points : list (PocPoint R)) : Prop :=
  match points with
  | p :: (q :: _) as rest => (x p < x q)%R /\ increasing_x rest
  | _ => True
  end.

(** The control points (0,0), (1,1), (2,0), (3,1) of the specification's
    examples. *)
Definition example_points : PocPointArray R :=
  [ {| x := 0%R; y := 0%R |}; {| x := 1%R; y := 1%R |};
    {| x := 2%R; y := 0%R |}; {| x := 3%R; y := 1%R |} ].

(** The abscissa of the sample number [i] of [poc_spline_get_vector] and
    [poc_spline_get_points]: [rx], which starts at [min_x], after [i]
    passes of [rx += dx]. *)
Fixpoint sample_position `{!Double D} (min_x dx : D) (i : nat) : D :=
  match i with
  | O => min_x
  | S i' => d_add (sample_position min_x dx i') dx
  end.


(** The test of [poc_dataset_spline_draw] that has the curve sampled
    again: [self->points == NULL || self->cache_width != width]. *)
Definition cache_stale {D : Type} (self : PocDatasetSplineFields D) (width : Z)
    : bool :=
  match self_points self with None => true | Some _ => false end
  || negb (cache_width self =? width)%Z.


(** Two buffers of [n] cells that agree on the cells [0..m] and on the
    last cell. *)
Definition buffers_agree {D : Type} (n m : nat) (y2 y2' : list D) : Prop :=
  length y2 = n /\ length y2' = n /\
  forall i, (i <= m \/ i = n - 1)%nat -> y2 !! i = y2' !! i.

(** The equation of the natural cubic spline at the interior knot [i]: with
    these second derivatives the first derivative of the curve is the same
    on both sides of the knot. *)
Definition spline_equation (points : PocPointArray R) (y2 : list R) (i : nat) : Prop :=
  let xm := x (points !!! (i - 1)%nat) in
  let xi := x (points !!! i) in
  let xp := x (points !!! (i + 1)%nat) in
  let ym := y (points !!! (i - 1)%nat) in
  let yi := y (points !!! i) in
  let yp := y (points !!! (i + 1)%nat) in
  ((xi - xm) / 6 * (y2 !!! (i - 1)%nat)
   + (xp - xm) / 3 * (y2 !!! i)
   + (xp - xi) / 6 * (y2 !!! (i + 1)%nat)
   = (yp - yi) / (xp - xi) - (yi - ym) / (xi - xm))%R.

(** What pass [i] of the forward elimination leaves in the cells [i] of
    [y2] and [u], in terms of the cells [i - 1]. *)
Definition forward_pass_done (point : PocPointArray R) (y2 u : list R) (i : nat) : Prop :=
  let xm := x (point !!! (i - 1)%nat) in
  let xi := x (point !!! i) in
  let xp := x (point !!! (i + 1)%nat) in
  let ym := y (point !!! (i - 1)%nat) in
  let yi := y (point !!! i) in
  let yp := y (point !!! (i + 1)%nat) in
  let sig := ((xi - xm) / (xp - xm))%R in
  let p := (sig * (y2 !!! (i - 1)%nat) + 2)%R in
  (y2 !!! i = (sig - 1) / p
   /\ u !!! i = (6 * ((yp - yi) / (xp - xi) - (yi - ym) / (xi - xm)) / (xp - xm)
                 - sig * (u !!! (i - 1)%nat)) / p
   /\ -1 < y2 !!! i <= 0)%R.

(** Control points on one straight line. *)
Definition on_line (m c : R) (points : PocPointArray R) : Prop :=
  Forall (fun p => (y p = m * x p + c)%R) points.

(** The value an axis projects, in mode space. *)
Definition mode_value (self : PocAxisPrivate R) (v : R) : R :=
  match axis_mode self with
  | POC_AXIS_LINEAR => v
  | POC_AXIS_LOG_OCTAVE => log2 v
  | POC_AXIS_LOG_DECADE => log10 v
  end.


(** *** Bags *)

Section BagVocabulary.
Context {Obj Data Notify : Type} `{!EqDecision Obj}.
Implicit Type bag : PocObjectBag Obj Data Notify.

(** The number of times an object is counted in the bag, 0 when it is not
    there. *)
Definition bag_refs bag (o : Obj) : Z :=
  match poc_object_bag_find_object bag o with
  | Some i =>
      match bag !! i with
      | Some item => item_count item
      | None => 0
      end
  | None => 0
  end.

(** The destroy function kept for an object, and the call of it on the
    object's data that releases the data. *)
Definition bag_destroy bag (o : Obj) : option Notify :=
  match poc_object_bag_find_object bag o with
  | Some i =>
      match bag !! i with
      | Some item => item_destroy item
      | None => None
      end
  | None => None
  end.

Definition destroy_notify bag (o : Obj) : list (BagEffect Obj Data Notify) :=
  match bag_destroy bag o with
  | Some f => [DestroyNotify f (poc_object_bag_get_data bag o)]
  | None => []
  end.

(** The bags the operations build: no object has two items, and every
    item is counted at least once. *)
Definition bag_wf bag : Prop :=
  NoDup (item_object <$> bag)
  /\ Forall (fun item => (1 <= item_count item <= G_MAXINT)%Z) bag.

(** The references to [o] that a sequence of effects takes, less those it
    releases. *)
Fixpoint net_refs (o : Obj) (effects : list (BagEffect Obj Data Notify)) : Z :=
  match effects with
  | [] => 0
  | ObjectRef o' :: rest =>
      ((if decide (o' = o) then 1 else 0) + net_refs o rest)%Z
  | ObjectUnref o' :: rest =>
      ((if decide (o' = o) then -1 else 0) + net_refs o rest)%Z
  | DestroyNotify _ _ :: rest => net_refs o rest
  end.

(** The calls a user of a bag makes, and what a sequence of them does to
    the bag, with the effects in the order they happen. *)
Inductive BagCall : Type :=
| CallAdd (o : Obj)
| CallRemove (o : Obj)
| CallSetData (o : Obj) (d : option Data) (f : option Notify)
| CallEmpty.

Definition bag_call bag (c : BagCall)
    : PocObjectBag Obj Data Notify * list (BagEffect Obj Data Notify) :=
  match c with
  | CallAdd o =>
      let '(_, bag', effects) := poc_object_bag_add bag o in (bag', effects)
  | CallRemove o =>
      let '(_, bag', effects) := poc_object_bag_remove bag o in (bag', effects)
  | CallSetData o d f =>
      let '(_, bag', effects) := poc_object_bag_set_data_full bag o d f in
      (bag', effects)
  | CallEmpty => poc_object_bag_empty bag
  end.

Fixpoint bag_calls bag (calls : list BagCall)
    : PocObjectBag Obj Data Notify * list (BagEffect Obj Data Notify) :=
  match calls with
  | [] => (bag, [])
  | c :: rest =>
      let '(bag1, effects1) := bag_call bag c in
      let '(bag2, effects2) := bag_calls bag1 rest in
      (bag2, effects1 ++ effects2)
  end.

End BagVocabulary.
Arguments BagCall Obj Data Notify : clear implicits.

(** *** Plots *)

Section PlotVocabulary.
Context {Obj : Type} `{!EqDecision Obj}.

(** What [poc_plot_add_axis] and [poc_plot_add_dataset] do to a bag: the
    object is added, and given data when it is new. *)
Definition bag_add_with_data {Data Notify : Type}
    (bag : PocObjectBag Obj Data Notify) (o : Obj) (d : Data)
    (f : option Notify) : PocObjectBag Obj Data Notify :=
  let '(found, bag1, _) := poc_object_bag_add bag o in
  if found then bag1
  else (poc_object_bag_set_data_full bag1 o (Some d) f).1.2.

(** Every item of the bag has data: the callbacks of the plot read
    through the data pointer. *)
Definition has_data {Data Notify : Type} (bag : PocObjectBag Obj Data Notify)
    : Prop :=
  Forall (fun item => item_data item <> None) bag.

(** The number of datasets in the bag whose solo flag is set. *)
Fixpoint solo_flags (bag : PocObjectBag Obj PocPlotDataset GDestroyNotify) : Z :=
  match bag with
  | [] => 0
  | item :: rest =>
      ((match item_data item with
        | Some d => if dataset_solo d then 1 else 0
        | None => 0
        end) + solo_flags rest)%Z
  end.

(** The axes of the grid are axes of the plot. *)
Definition grid_axes_belong (self : PocPlot Obj) : Prop :=
  (forall a, plot_x_axis self = Some a ->
             poc_object_bag_contains (axes self) a = true)
  /\ (forall a, plot_y_axis self = Some a ->
                poc_object_bag_contains (axes self) a = true).

End PlotVocabulary.

(** The datasets of the bag whose solo flag is set, in the order of the
    bag. *)
Fixpoint solo_objects {Obj : Type}
    (bag : PocObjectBag Obj PocPlotDataset GDestroyNotify) : list Obj :=
  match bag with
  | [] => []
  | item :: rest =>
      match item_data item with
      | Some d => if dataset_solo d then [item_object item] else []
      | None => []
      end ++ solo_objects rest
  end.

Section PlotAxesVocabulary.
Context {Obj : Type} `{!EqDecision Obj}.

(** The data [poc_plot_add_dataset] gives a new axis. *)
Definition dataset_axis_data (pack : GtkPackType)
    (orientation : GtkOrientation) : PocPlotAxis :=
  {| axis_pack := pack; axis_orientation := orientation;
     axis_hidden := false;
     axis_area := {| rect_x := 0; rect_y := 0; rect_width := 0;
                     rect_height := 0 |} |}.

(** What adding and removing the axis of a dataset, if it has one, does to
    the bag of axes and to an axis of the grid. *)
Definition add_axis_opt (bag : PocObjectBag Obj PocPlotAxis GDestroyNotify)
    (axis : option Obj) (d : PocPlotAxis)
    : PocObjectBag Obj PocPlotAxis GDestroyNotify :=
  match axis with
  | Some a => bag_add_with_data bag a d (Some g_free)
  | None => bag
  end.

Definition remove_axis_opt (bag : PocObjectBag Obj PocPlotAxis GDestroyNotify)
    (axis : option Obj)
    : bool * PocObjectBag Obj PocPlotAxis GDestroyNotify :=
  match axis with
  | Some a => (poc_object_bag_remove bag a).1
  | None => (false, bag)
  end.

Definition grid_after_add (current axis : option Obj) : option Obj :=
  match current with
  | None => axis
  | Some _ => current
  end.

Definition grid_after_remove (removed : bool) (axis current : option Obj)
    : option Obj :=
  if removed && bool_decide (current = axis) then None else current.

(** How many of the two axes of a dataset an object is. *)
Definition axis_uses (get_x get_y : Obj -> option Obj) (dataset o : Obj) : Z :=
  ((if decide (get_x dataset = Some o) then 1 else 0)
   + (if decide (get_y dataset = Some o) then 1 else 0))%Z.

End PlotAxesVocabulary.

Section PlotInvariants.
Context {Obj : Type} `{!EqDecision Obj}.
Implicit Type self : PocPlot Obj.

(** What a function leaves as it was. *)
Definition same_datasets self self' : Prop :=
  datasets self' = datasets self /\ plot_solo self' = plot_solo self.

Definition axes_inv self : Prop :=
  grid_axes_belong self /\ has_data (axes self).

Definition plot_inv (n : Z) self : Prop :=
  axes_inv self
  /\ has_data (datasets self)
  /\ (solo_flags (datasets self) <= plot_solo self <= n)%Z.

End PlotInvariants.

(** A bag of numbered objects, for the examples. *)
Definition example_bag : PocObjectBag nat string unit :=
  [ {| item_object := 7%nat; item_count := 2;
       item_data := Some "seven"%string; item_destroy := Some tt |};
    {| item_object := 9%nat; item_count := 1; item_data := None;
       item_destroy := None |} ].

(** A plot of numbered objects for the examples: datasets 1 and 2 with
    axes 10 and 20, 11 and 20. *)
Definition example_get_x (dataset : nat) : option nat :=
  if decide (dataset = 1%nat) then Some 10%nat
  else if decide (dataset = 2%nat) then Some 11%nat else None.

Definition example_get_y (dataset : nat) : option nat :=
  if decide (dataset = 1%nat) then Some 20%nat
  else if decide (dataset = 2%nat) then Some 20%nat else None.

Definition example_calls
    : list ((nat -> option nat) * (nat -> option nat) * PlotCall nat) :=
  (fun c => (example_get_x, example_get_y, c))
  <$> [AddDataset 1%nat GTK_PACK_START GTK_PACK_START;
       AddDataset 2%nat GTK_PACK_END GTK_PACK_START;
       SoloDataset 1%nat true].

Definition example_plot : PocPlot nat :=
  match poc_plot_calls poc_plot_init example_calls with
  | Some self => self
  | None => poc_plot_init
  end.


(** * Properties *)

(** ** Exact arithmetic *)

Local Open Scope R_scope.

Lemma Rltb_true (a b : R) : a < b -> Rltb a b = true.
Proof. intros ?; unfold Rltb; destruct (Rlt_dec a b); [reflexivity | contradiction]. Qed.

Lemma Rltb_false (a b : R) : b <= a -> Rltb a b = false.
Proof. intros ?; unfold Rltb; destruct (Rlt_dec a b); [lra | reflexivity]. Qed.

Lemma Rleb_true (a b : R) : a <= b -> Rleb a b = true.
Proof. intros ?; unfold Rleb; destruct (Rle_dec a b); [reflexivity | contradiction]. Qed.

Lemma Rleb_false (a b : R) : b < a -> Rleb a b = false.
Proof. intros ?; unfold Rleb; destruct (Rle_dec a b); [lra | reflexivity]. Qed.

(** Unfold the arithmetic of [exact_real] into operations on [R]. *)
Ltac exact_arith :=
  cbn [d_of_Z d_add d_sub d_mul d_div d_lt d_le exact_real
       log2 log10 exp2 exp10 floor ceil real_libm] in *.

(** Decide the comparisons met in a goal, by linear arithmetic. *)
Ltac decide_cmp :=
  repeat match goal with
  | |- context [Rltb ?a ?b] =>
      first [ rewrite (Rltb_true a b) by lra | rewrite (Rltb_false a b) by lra ]
  | |- context [Rleb ?a ?b] =>
      first [ rewrite (Rleb_true a b) by lra | rewrite (Rleb_false a b) by lra ]
  end.

(** Split on the comparisons met in a goal. *)
Ltac split_cmp :=
  repeat match goal with
  | |- context [Rltb ?a ?b] =>
      destruct (Rlt_le_dec a b);
      [ rewrite (Rltb_true a b) by assumption
      | rewrite (Rltb_false a b) by assumption ]
  | |- context [Rleb ?a ?b] =>
      destruct (Rlt_le_dec b a);
      [ rewrite (Rleb_false a b) by assumption
      | rewrite (Rleb_true a b) by assumption ]
  end.

(** ** The state left by [poc_axis_update_bounds] *)

(** Name the fields of [self] and walk through the branches of
    [poc_axis_update_bounds]. *)
Ltac update_bounds_cases self :=
  destruct self as [mode lb ub mi auto md adj lm um mn];
  unfold poc_axis_update_bounds;
  cbn -[auto_major_interval Z.eqb] in *; subst;
  cbn -[auto_major_interval Z.eqb] in *;
  repeat (match goal with
          | |- context [if negb ?c then _ else _] => destruct c eqn:?
          | |- context [if ?c then _ else _] => destruct c eqn:?
          | |- context [match ?m with POC_AXIS_LINEAR => _ | _ => _ end] =>
              destruct m
          end; cbn -[auto_major_interval Z.eqb] in *);
  try discriminate.

Section UpdateBounds.
Context {D : Type} `{!Double D, !Libm D}.
Implicit Type self : PocAxisPrivate D.
Local Open Scope double_scope.

Lemma update_bounds_adjustment self :
  adjustment (poc_axis_update_bounds self) = adjustment self.
Proof. update_bounds_cases self; reflexivity. Qed.

Lemma update_bounds_axis_mode self :
  axis_mode (poc_axis_update_bounds self) = axis_mode self.
Proof. update_bounds_cases self; reflexivity. Qed.

Lemma update_bounds_auto_interval self :
  auto_interval (poc_axis_update_bounds self) = auto_interval self.
Proof. update_bounds_cases self; reflexivity. Qed.

Lemma update_bounds_minor_divisions self :
  minor_divisions (poc_axis_update_bounds self) = minor_divisions self.
Proof. update_bounds_cases self; reflexivity. Qed.

(** With [auto_interval] set, the major interval is the ladder's value for
    the span in mode space; this holds in any arithmetic. *)
Lemma update_bounds_major_interval self :
  auto_interval self = true ->
  let self' := poc_axis_update_bounds self in
  major_interval self' = auto_major_interval (upper_mode self' - lower_mode self').
Proof. intros Hauto. update_bounds_cases self; reflexivity. Qed.

(** In linear mode the bounds in mode space are the bounds themselves. *)
Lemma update_bounds_linear_mode self :
  axis_mode self = POC_AXIS_LINEAR ->
  let self' := poc_axis_update_bounds self in
  lower_mode self' = lower_bound self' /\ upper_mode self' = upper_bound self'.
Proof. intros Hmode. update_bounds_cases self; split; reflexivity. Qed.

(** In decade mode they are the decimal logarithms of the bounds. *)
Lemma update_bounds_decade_mode self :
  axis_mode self = POC_AXIS_LOG_DECADE ->
  let self' := poc_axis_update_bounds self in
  lower_mode self' = log10 (lower_bound self')
  /\ upper_mode self' = log10 (upper_bound self').
Proof. intros Hmode. update_bounds_cases self; split; reflexivity. Qed.

(** Equal bounds are kept as they are. *)
Lemma update_bounds_equal_bounds self :
  lower_bound self = upper_bound self ->
  let self' := poc_axis_update_bounds self in
  lower_bound self' = lower_bound self /\ upper_bound self' = upper_bound self.
Proof. intros Heq. update_bounds_cases self; split; reflexivity. Qed.

End UpdateBounds.

(** ** The axis in exact arithmetic *)

Lemma Rltb_true_iff (a b : R) : Rltb a b = true <-> a < b.
Proof. unfold Rltb; destruct (Rlt_dec a b); split; intros; try easy. Qed.

Lemma Rltb_false_iff (a b : R) : Rltb a b = false <-> b <= a.
Proof. unfold Rltb; destruct (Rlt_dec a b); split; intros; try easy; lra. Qed.

Lemma Rleb_true_iff (a b : R) : Rleb a b = true <-> a <= b.
Proof. unfold Rleb; destruct (Rle_dec a b); split; intros; try easy. Qed.

Lemma Rleb_false_iff (a b : R) : Rleb a b = false <-> b < a.
Proof. unfold Rleb; destruct (Rle_dec a b); split; intros; try easy; lra. Qed.

(** Turn the recorded outcomes of comparisons into inequalities. *)
Ltac cmp_hyps :=
  repeat match goal with
  | H : Rltb _ _ = true |- _ => apply Rltb_true_iff in H
  | H : Rltb _ _ = false |- _ => apply Rltb_false_iff in H
  | H : Rleb _ _ = true |- _ => apply Rleb_true_iff in H
  | H : Rleb _ _ = false |- _ => apply Rleb_false_iff in H
  end.

(** [poc_axis_update_bounds] exchanges inverted bounds and keeps ordered
    ones. *)
Lemma update_bounds_swap (self : PocAxisPrivate R) :
  let self' := poc_axis_update_bounds self in
  (upper_bound self < lower_bound self ->
   lower_bound self' = upper_bound self /\ upper_bound self' = lower_bound self)
  /\ (lower_bound self <= upper_bound self ->
      lower_bound self' = lower_bound self /\ upper_bound self' = upper_bound self).
Proof.
  update_bounds_cases self; cmp_hyps;
    (split; intros; [try lra | try lra]; split; reflexivity).
Qed.

Lemma update_bounds_ordered (self : PocAxisPrivate R) :
  lower_bound (poc_axis_update_bounds self)
  <= upper_bound (poc_axis_update_bounds self).
Proof.
  destruct (update_bounds_swap self) as [Hswap Hkeep].
  destruct (Rlt_le_dec (upper_bound self) (lower_bound self)) as [Hlt | Hle].
  - destruct (Hswap Hlt) as [-> ->]. lra.
  - destruct (Hkeep Hle) as [-> ->]. exact Hle.
Qed.

(** The state of a new axis. *)
Lemma new_axis_state :
  let self : PocAxisPrivate R := poc_axis_init in
  axis_mode self = POC_AXIS_LINEAR
  /\ lower_bound self = 0 /\ upper_bound self = 1
  /\ minor_divisions self = 5%Z
  /\ auto_interval self = true
  /\ adjustment self = None.
Proof.
  cbv zeta. unfold poc_axis_init.
  match goal with |- context [poc_axis_update_bounds ?r] => set (s := r) end.
  destruct (update_bounds_swap s) as [_ Hkeep].
  destruct Hkeep as [Hlb Hub]; [unfold s; cbn; lra |].
  rewrite update_bounds_axis_mode, update_bounds_minor_divisions,
    update_bounds_auto_interval, update_bounds_adjustment, Hlb, Hub.
  repeat split; reflexivity.
Qed.

Section EndsInUpdate.
Context {D : Type} `{!Double D, !Libm D}.
Variable gtk_adjustment_set_lower :
  GtkAdjustment D -> D -> PocAxisPrivate D -> PocAxisPrivate D.
Variable gtk_adjustment_set_upper :
  GtkAdjustment D -> D -> PocAxisPrivate D -> PocAxisPrivate D.

(** Every operation but a setter of a bound on an axis with an adjustment
    ends in [poc_axis_update_bounds], called on the state in which the
    operation has stored its arguments. *)
Lemma call_ends_in_update (self : PocAxisPrivate D) (c : AxisCall D) :
  ends_in_update_bounds self c ->
  exists s,
    poc_axis_call gtk_adjustment_set_lower gtk_adjustment_set_upper self c
    = poc_axis_update_bounds s
    /\ (lower_bound s, upper_bound s) = stored_bounds self c
    /\ adjustment s = adjustment self.
Proof.
  intros Hends. destruct c; cbn [poc_axis_call ends_in_update_bounds] in *;
    unfold poc_axis_configure, poc_axis_set_axis_mode,
      poc_axis_set_lower_bound, poc_axis_set_upper_bound,
      poc_axis_set_major_interval, poc_axis_set_auto_interval,
      poc_axis_set_minor_divisions;
    cbv zeta; rewrite ?update_bounds_adjustment; cbn [adjustment
      set_axis_mode set_lower_bound set_upper_bound set_major_interval
      set_auto_interval set_minor_divisions]; rewrite ?Hends;
    eexists; (split; [reflexivity | split; [reflexivity |]]);
    cbn [adjustment set_axis_mode set_lower_bound set_upper_bound
      set_major_interval set_auto_interval set_minor_divisions];
    first [reflexivity | exact Hends].
Qed.

End EndsInUpdate.


Section AxisExact.
Variable gtk_adjustment_set_lower :
  GtkAdjustment R -> R -> PocAxisPrivate R -> PocAxisPrivate R.
Variable gtk_adjustment_set_upper :
  GtkAdjustment R -> R -> PocAxisPrivate R -> PocAxisPrivate R.

Local Abbreviation call := (poc_axis_call gtk_adjustment_set_lower gtk_adjustment_set_upper).


End AxisExact.

(** With [norm] positive the scale is [norm - 1], for [norm] and [- norm]. *)
Lemma linear_project_pos (self : PocAxisPrivate R) (value : R) (norm : Z) :
  (0 < norm)%Z ->
  poc_axis_linear_project self value norm
  = (value - lower_mode self) / (upper_mode self - lower_mode self)
    * (IZR norm - 1).
Proof.
  intros Hnorm. unfold poc_axis_linear_project.
  destruct (Z.ltb_spec norm 0) as [Hneg | _]; [lia |]. reflexivity.
Qed.



Section LinearProjection.
Variable gtk_adjustment_set_lower :
  GtkAdjustment R -> R -> PocAxisPrivate R -> PocAxisPrivate R.
Variable gtk_adjustment_set_upper :
  GtkAdjustment R -> R -> PocAxisPrivate R -> PocAxisPrivate R.

Local Abbreviation call := (poc_axis_call gtk_adjustment_set_lower gtk_adjustment_set_upper).


End LinearProjection.

(** *** Examples: axes with and without an adjustment *)

(** The state [poc_axis_update_bounds] leaves of a linear axis whose
    bounds are in order. *)
Lemma update_bounds_linear_state (s : PocAxisPrivate R) :
  axis_mode s = POC_AXIS_LINEAR ->
  lower_bound s <= upper_bound s ->
  let self := poc_axis_update_bounds s in
  axis_mode self = POC_AXIS_LINEAR
  /\ lower_bound self = lower_bound s /\ upper_bound self = upper_bound s
  /\ lower_mode self = lower_bound s /\ upper_mode self = upper_bound s
  /\ auto_interval self = auto_interval s
  /\ adjustment self = adjustment s
  /\ (auto_interval s = true ->
      major_interval self = auto_major_interval (upper_bound s - lower_bound s)).
Proof.
  intros Hmode Hle. cbv zeta.
  destruct (update_bounds_swap s) as [_ Hkeep]. destruct (Hkeep Hle) as [Hlb Hub].
  destruct (update_bounds_linear_mode s Hmode) as [Hlm Hum].
  rewrite Hlb in Hlm. rewrite Hub in Hum.
  rewrite update_bounds_axis_mode, update_bounds_auto_interval,
    update_bounds_adjustment.
  repeat (split; [assumption || reflexivity |]).
  intros Hauto. rewrite (update_bounds_major_interval s Hauto), Hlm, Hum.
  reflexivity.
Qed.

Lemma auto_major_interval_100 : auto_major_interval (100 - 0) = 100.
Proof. unfold auto_major_interval. exact_arith. decide_cmp. reflexivity. Qed.












(** ** The axis in binary64 arithmetic *)

(** *** Comparisons of binary64 numbers *)

Lemma SFcompare_antisym (a b : spec_float) (c : comparison) :
  SFcompare a b = Some c -> SFcompare b a = Some (CompOpp c).
Proof.
  destruct a as [[] | [] | | [] m1 e1], b as [[] | [] | | [] m2 e2];
    cbn; intros [= <-]; try reflexivity.
  - rewrite (Z.compare_antisym e1 e2).
    destruct (e1 ?= e2)%Z; cbn; try reflexivity.
    change (Pos.compare_cont Eq m2 m1) with (m2 ?= m1)%positive.
    rewrite (Pos.compare_antisym m1 m2). reflexivity.
  - rewrite (Z.compare_antisym e1 e2).
    destruct (e1 ?= e2)%Z; cbn; try reflexivity.
    change (Pos.compare_cont Eq m2 m1) with (m2 ?= m1)%positive.
    rewrite (Pos.compare_antisym m1 m2). reflexivity.
Qed.

(** A binary64 number that is not a NaN compares with every other one. *)
Lemma SFcompare_number (a b : spec_float) :
  SFcompare a a <> None -> SFcompare b b <> None ->
  exists c, SFcompare a b = Some c.
Proof.
  destruct a as [[] | [] | | [] m1 e1], b as [[] | [] | | [] m2 e2];
    cbn; intros Ha Hb; try contradiction; eexists; reflexivity.
Qed.

Lemma is_nan_false (v : float) :
  is_nan v = false -> SFcompare (Prim2SF v) (Prim2SF v) <> None.
Proof.
  unfold is_nan. rewrite FloatAxioms.eqb_spec. unfold SFeqb.
  destruct (SFcompare (Prim2SF v) (Prim2SF v)); [discriminate | discriminate].
Qed.

(** [a < b] implies [a <= b]. *)
Lemma float_ltb_leb (a b : float) :
  (a <? b)%float = true -> (a <=? b)%float = true.
Proof.
  rewrite FloatAxioms.ltb_spec, FloatAxioms.leb_spec. unfold SFltb, SFleb.
  destruct (SFcompare (Prim2SF a) (Prim2SF b)) as [[] |]; congruence.
Qed.

(** Of two numbers, [b < a] or [a <= b]. *)
Lemma float_not_ltb_leb (a b : float) :
  is_nan a = false -> is_nan b = false ->
  (b <? a)%float = false -> (a <=? b)%float = true.
Proof.
  intros Ha%is_nan_false Hb%is_nan_false.
  rewrite FloatAxioms.ltb_spec, FloatAxioms.leb_spec. unfold SFltb, SFleb.
  destruct (SFcompare_number _ _ Ha Hb) as [c Hc].
  rewrite (SFcompare_antisym _ _ _ Hc), Hc. destruct c; cbn; congruence.
Qed.

Section UpdateBoundsExchange.
Context {D : Type} `{!Double D, !Libm D}.

(** In any arithmetic, [poc_axis_update_bounds] exchanges the bounds
    exactly when [upper_bound < lower_bound] holds. *)
Lemma update_bounds_exchange (self : PocAxisPrivate D) :
  (lower_bound (poc_axis_update_bounds self),
   upper_bound (poc_axis_update_bounds self))
  = if d_lt (upper_bound self) (lower_bound self)
    then (upper_bound self, lower_bound self)
    else (lower_bound self, upper_bound self).
Proof.
  destruct (d_lt (upper_bound self) (lower_bound self)) eqn:Hlt;
    update_bounds_cases self; congruence.
Qed.

End UpdateBoundsExchange.

(** *** The order of the bounds *)

(** C7, as amended.  After every operation that ends in
    [poc_axis_update_bounds] (configure, the setters of the mode, of the
    major interval, of [auto_interval] and of [minor_divisions], and the two
    setters of the bounds on an axis without adjustment) the bounds the
    operation has stored are in order: exchanged when the upper one is
    below the lower one, kept otherwise.  In exact arithmetic, and in
    binary64 whatever libm computes, for bounds that are not NaN; in both,
    configuring with lower = 5 and upper = 1 leaves lower_bound = 1 and
    upper_bound = 5. *)
Theorem axis_bounds_ordered :
  (forall (gtk_adjustment_set_lower gtk_adjustment_set_upper :
             GtkAdjustment R -> R -> PocAxisPrivate R -> PocAxisPrivate R)
          (self : PocAxisPrivate R) (c : AxisCall R),
     ends_in_update_bounds self c ->
     let lower := fst (stored_bounds self c) in
     let upper := snd (stored_bounds self c) in
     let self' :=
       poc_axis_call gtk_adjustment_set_lower gtk_adjustment_set_upper self c in
     lower_bound self' <= upper_bound self'
     /\ (upper < lower -> lower_bound self' = upper /\ upper_bound self' = lower)
     /\ (lower <= upper -> lower_bound self' = lower /\ upper_bound self' = upper))
  /\ (forall (self : PocAxisPrivate R) (mode : PocAxisMode),
        let self' := poc_axis_configure self mode 5 1 in
        lower_bound self' = 1 /\ upper_bound self' = 5)
  /\ (forall (libm : Libm float)
             (gtk_adjustment_set_lower gtk_adjustment_set_upper :
                GtkAdjustment float -> float -> PocAxisPrivate float
                -> PocAxisPrivate float)
             (self : PocAxisPrivate float) (c : AxisCall float),
        ends_in_update_bounds self c ->
        let lower := fst (stored_bounds self c) in
        let upper := snd (stored_bounds self c) in
        let self' :=
          poc_axis_call gtk_adjustment_set_lower gtk_adjustment_set_upper self c in
        is_nan lower = false -> is_nan upper = false ->
        (lower_bound self' <=? upper_bound self')%float = true
        /\ ((upper <? lower)%float = true ->
            lower_bound self' = upper /\ upper_bound self' = lower)
        /\ ((upper <? lower)%float = false ->
            lower_bound self' = lower /\ upper_bound self' = upper))
  /\ (forall (libm : Libm float) (self : PocAxisPrivate float)
             (mode : PocAxisMode),
        let self' := poc_axis_configure self mode 5%float 1%float in
        lower_bound self' = 1%float /\ upper_bound self' = 5%float).
Proof.
  split; [| split; [| split]].
  - intros gtk_lower gtk_upper self c Hends. cbv zeta.
    destruct (call_ends_in_update gtk_lower gtk_upper self c Hends)
      as (s & -> & <- & _). cbn [fst snd].
    split; [apply update_bounds_ordered | apply update_bounds_swap].
  - intros self mode. cbv zeta. unfold poc_axis_configure.
    apply (update_bounds_swap
             (set_axis_mode mode (set_upper_bound 1 (set_lower_bound 5 self)))).
    cbn [lower_bound upper_bound set_axis_mode set_upper_bound set_lower_bound].
    lra.
  - intros libm gtk_lower gtk_upper self c Hends. cbv zeta.
    destruct (call_ends_in_update gtk_lower gtk_upper self c Hends)
      as (s & -> & <- & _). cbn [fst snd]. intros Hlower Hupper.
    pose proof (update_bounds_exchange s) as Hexchange.
    cbn [d_lt binary64] in Hexchange.
    destruct (upper_bound s <? lower_bound s)%float eqn:Hlt;
      injection Hexchange as -> ->.
    + split; [apply float_ltb_leb; exact Hlt |].
      split; [intros _; split; reflexivity | discriminate].
    + split; [apply float_not_ltb_leb; assumption |].
      split; [discriminate | intros _; split; reflexivity].
  - intros libm self mode. cbv zeta. unfold poc_axis_configure.
    pose proof (update_bounds_exchange
                  (set_axis_mode mode
                     (set_upper_bound 1%float (set_lower_bound 5%float self))))
      as Hexchange.
    cbn [lower_bound upper_bound set_axis_mode set_upper_bound set_lower_bound
         d_lt binary64] in Hexchange.
    change (1 <? 5)%float with true in Hexchange.
    injection Hexchange as -> ->. split; reflexivity.
Qed.

(** A new axis configured with inverted bounds, and a bound setter given a
    value beyond the other bound. *)
Lemma axis_bounds_ordered_witness :
  let gtk := fun (_ : GtkAdjustment R) (_ : R) (self : PocAxisPrivate R) => self in
  let self := poc_axis_configure poc_axis_init POC_AXIS_LINEAR 5 1 in
  lower_bound self = 1 /\ upper_bound self = 5
  /\ lower_bound (poc_axis_set_lower_bound gtk self 7) = 5
  /\ upper_bound (poc_axis_set_lower_bound gtk self 7) = 7.
Proof.
  cbv zeta.
  pose (gtk := fun (_ : GtkAdjustment R) (_ : R) (self : PocAxisPrivate R) => self).
  destruct axis_bounds_ordered as (Hcall & Hconf & _).
  destruct (Hconf poc_axis_init POC_AXIS_LINEAR) as [Hlb Hub].
  split; [exact Hlb |]. split; [exact Hub |].
  set (self := poc_axis_configure poc_axis_init POC_AXIS_LINEAR 5 1) in *.
  assert (Hadj : adjustment self = None).
  { unfold self, poc_axis_configure. rewrite update_bounds_adjustment.
    cbn [adjustment set_axis_mode set_upper_bound set_lower_bound].
    apply new_axis_state. }
  destruct (Hcall gtk gtk self (SetLowerBound 7) Hadj) as (_ & Hswap & _).
  cbn [stored_bounds fst snd poc_axis_call] in Hswap.
  rewrite Hub in Hswap. apply Hswap. lra.
Defined.

(** An axis with an adjustment attached, as [poc_axis_set_adjustment]
    leaves a new axis. *)
Lemma attached_new_axis (adj0 : GtkAdjustment R) :
  let self : PocAxisPrivate R :=
    poc_axis_set_adjustment gtk_stores_configuration poc_axis_init (Some adj0) in
  axis_mode self = POC_AXIS_LINEAR
  /\ lower_bound self = 0 /\ upper_bound self = 1
  /\ adjustment self
     = Some {| adj_value := 0; adj_lower := 0; adj_upper := 1;
               adj_page_size := 1 - 0 |}.
Proof.
  cbv zeta. destruct new_axis_state as (Hm & Hlb & Hub & _).
  unfold poc_axis_set_adjustment. cbv zeta.
  destruct (update_bounds_linear_state (set_adjustment (Some adj0) poc_axis_init))
    as (Hm' & Hlb' & Hub' & Hlm' & Hum' & _).
  { exact Hm. }
  { cbn [lower_bound upper_bound set_adjustment]. rewrite Hlb, Hub. lra. }
  cbn [lower_bound upper_bound set_adjustment] in *.
  cbn [axis_mode lower_bound upper_bound adjustment set_adjustment].
  rewrite Hm', Hlb', Hub', Hlm', Hum', Hlb, Hub.
  unfold gtk_stores_configuration. exact_arith.
  repeat (split; [reflexivity |]). reflexivity.
Qed.

(** C7, as stated, fails.  The handler of the adjustment's "changed"
    signal is an operation that updates the bounds: it stores the limits
    of the adjustment as they are, so that once the lower limit of the
    adjustment of a new axis has been set to 5 the axis has lower_bound = 5
    and upper_bound = 1.  With that adjustment attached,
    [poc_axis_set_lower_bound] with 7 leaves both bounds at 1 when GTK runs
    the handler: the values 7 and 1 are not exchanged.  And in binary64 a
    NaN is below no number: configuring a new axis with lower = NaN and
    upper = 1 leaves the NaN in [lower_bound]. *)
Lemma axis_bounds_ordered_counterexample :
  (let attached : PocAxisPrivate R :=
     poc_axis_set_adjustment gtk_stores_configuration poc_axis_init
       (Some {| adj_value := 0; adj_lower := 0; adj_upper := 0;
                adj_page_size := 0 |}) in
   let limits : GtkAdjustment R :=
     {| adj_value := 0; adj_lower := 5; adj_upper := 1; adj_page_size := 1 |} in
   let self := poc_axis_adj_changed limits (set_adjustment (Some limits) attached) in
   lower_bound self = 5 /\ upper_bound self = 1
   /\ ~ lower_bound self <= upper_bound self)
  /\ (let attached : PocAxisPrivate R :=
        poc_axis_set_adjustment gtk_stores_configuration poc_axis_init
          (Some {| adj_value := 0; adj_lower := 0; adj_upper := 0;
                   adj_page_size := 0 |}) in
      let self := poc_axis_set_lower_bound gtk_emits_changed_lower attached 7 in
      upper_bound attached = 1
      /\ lower_bound self = 1 /\ upper_bound self = 1)
  /\ (forall libm : Libm float,
        let self : PocAxisPrivate float :=
          poc_axis_configure poc_axis_init POC_AXIS_LINEAR nan 1%float in
        is_nan (lower_bound self) = true
        /\ upper_bound self = 1%float
        /\ (lower_bound self <=? upper_bound self)%float = false).
Proof.
  set (adj0 := {| adj_value := 0; adj_lower := 0; adj_upper := 0;
                  adj_page_size := 0 |} : GtkAdjustment R).
  destruct (attached_new_axis adj0) as (Hm & Hlb & Hub & Hadj).
  cbv zeta in Hm, Hlb, Hub, Hadj.
  split; [| split].
  - cbv zeta. fold adj0.
    set (attached := poc_axis_set_adjustment gtk_stores_configuration _ _) in *.
    unfold poc_axis_adj_changed, poc_axis_adj_value_changed. cbv zeta.
    cbn [axis_mode set_adjustment]. rewrite Hm.
    cbn [lower_bound upper_bound adj_lower adj_upper adj_value adj_page_size
         set_adjustment set_lower_bound set_upper_bound set_lower_mode
         set_upper_mode].
    split; [reflexivity |]. split; [reflexivity |]. lra.
  - cbv zeta. fold adj0.
    set (attached := poc_axis_set_adjustment gtk_stores_configuration _ _) in *.
    split; [exact Hub |].
    unfold poc_axis_set_lower_bound. cbv zeta.
    set (s := set_lower_bound 7 attached).
    destruct (update_bounds_swap s) as [Hswap _].
    destruct Hswap as [Hlb' Hub'].
    { unfold s. cbn [lower_bound upper_bound set_lower_bound]. rewrite Hub. lra. }
    destruct (update_bounds_linear_mode s Hm) as [Hlm' _].
    pose proof (update_bounds_adjustment s) as Hadj'.
    pose proof (update_bounds_axis_mode s) as Hm'.
    set (u := poc_axis_update_bounds s) in *.
    unfold s in Hadj', Hm', Hlb'.
    cbn [adjustment axis_mode upper_bound set_lower_bound] in Hadj', Hm', Hlb'.
    rewrite Hadj in Hadj'. rewrite Hm in Hm'. rewrite Hub in Hlb'.
    rewrite Hlb' in Hlm'. rewrite Hadj'.
    unfold gtk_emits_changed_lower, poc_axis_adj_changed,
      poc_axis_adj_value_changed. cbv zeta.
    cbn [axis_mode set_adjustment]. rewrite Hm'.
    cbn [lower_bound upper_bound adj_lower adj_upper adj_value adj_page_size
         set_adjustment set_lower_bound set_upper_bound set_lower_mode
         set_upper_mode].
    rewrite Hlm'. split; reflexivity.
  - intros libm. cbv zeta. repeat split; vm_compute; reflexivity.
Qed.

(** *** The mirrored projection *)

Local Close Scope R_scope.


Local Open Scope R_scope.

(** *** Equal bounds *)

Lemma Prim2SF_infinity : Prim2SF infinity = S754_infinity false.
Proof. reflexivity. Qed.

Lemma is_finite_false (v : float) :
  SF_nonfinite (Prim2SF v) = true -> is_finite v = false.
Proof.
  unfold is_finite, is_nan, is_infinity.
  rewrite !FloatAxioms.eqb_spec, FloatAxioms.abs_spec, Prim2SF_infinity.
  destruct (Prim2SF v) as [s | s | | s m e]; simpl; try discriminate.
  - destruct s; reflexivity.
  - reflexivity.
Qed.

(** [v - v] is a zero, or a NaN when [v] is not finite. *)
Lemma SF64sub_diag (s : spec_float) : SF_zero_or_nan (SF64sub s s) = true.
Proof.
  destruct s as [s | s | | s m e];
    [destruct s; reflexivity | destruct s; reflexivity | reflexivity |].
  unfold SF64sub, SFsub. cbv zeta.
  match goal with |- context [binary_normalize _ _ ?d _ _] =>
    replace d with 0%Z by (symmetry; apply Z.sub_diag) end.
  reflexivity.
Qed.

(** Dividing by a zero or a NaN never gives a finite number. *)
Lemma SF64div_nonfinite (a b : spec_float) :
  SF_zero_or_nan b = true -> SF_nonfinite (SF64div a b) = true.
Proof. destruct a, b; simpl; intros; try discriminate; reflexivity. Qed.

Lemma SF64mul_nonfinite (a b : spec_float) :
  SF_nonfinite a = true -> SF_nonfinite (SF64mul a b) = true.
Proof. destruct a, b; simpl; intros; try discriminate; reflexivity. Qed.

Lemma SF64sub_nonfinite (a b : spec_float) :
  SF_nonfinite b = true -> SF_nonfinite (SF64sub a b) = true.
Proof.
  destruct a as [[] | [] | |], b as [[] | [] | |]; simpl; intros;
    try discriminate; reflexivity.
Qed.

(** With [lower_mode] and [upper_mode] equal the interpolation divides by
    [upper_mode - lower_mode], a zero (a NaN for bounds that are not
    finite): no value is projected to a finite position. *)
Lemma linear_project_degenerate (self : PocAxisPrivate float)
    (value : float) (norm : Z) :
  lower_mode self = upper_mode self ->
  is_finite (poc_axis_linear_project self value norm) = false.
Proof.
  intros Heq. apply is_finite_false. unfold poc_axis_linear_project.
  cbn [d_of_Z d_sub d_div d_mul binary64]. rewrite Heq.
  assert (Ht : SF_nonfinite
                 (Prim2SF ((value - upper_mode self)
                           / (upper_mode self - upper_mode self))%float) = true).
  { rewrite FloatAxioms.div_spec. apply SF64div_nonfinite.
    rewrite FloatAxioms.sub_spec. apply SF64sub_diag. }
  destruct (norm <? 0)%Z.
  - rewrite FloatAxioms.mul_spec. apply SF64mul_nonfinite.
    rewrite FloatAxioms.sub_spec. apply SF64sub_nonfinite. exact Ht.
  - rewrite FloatAxioms.mul_spec. apply SF64mul_nonfinite. exact Ht.
Qed.

Section DegenerateAxis.
Context (libm : Libm float).
Variable gtk_adjustment_set_lower :
  GtkAdjustment float -> float -> PocAxisPrivate float -> PocAxisPrivate float.
Variable gtk_adjustment_set_upper :
  GtkAdjustment float -> float -> PocAxisPrivate float -> PocAxisPrivate float.

(** C10.  In binary64 arithmetic, whatever libm computes: configuring a new
    axis as a linear axis with both bounds equal to [bound] is accepted as
    it is (the bounds are stored unchanged, [lower_mode = upper_mode]), the
    state is reachable, and in it [poc_axis_project] and
    [poc_axis_linear_project] return a NaN or an infinity for every value
    and every [norm]. *)
Theorem project_not_finite_on_equal_bounds (bound value : float) (norm : Z) :
  let self := poc_axis_configure poc_axis_init POC_AXIS_LINEAR bound bound in
  axis_reachable gtk_adjustment_set_lower gtk_adjustment_set_upper self
  /\ lower_bound self = bound /\ upper_bound self = bound
  /\ lower_mode self = upper_mode self
  /\ is_finite (poc_axis_project self value norm) = false
  /\ is_finite (poc_axis_linear_project self value norm) = false.
Proof.
  cbv zeta.
  assert (Hreach : axis_reachable gtk_adjustment_set_lower gtk_adjustment_set_upper
            (poc_axis_configure poc_axis_init POC_AXIS_LINEAR bound bound)).
  { apply (reachable_call gtk_adjustment_set_lower gtk_adjustment_set_upper
             poc_axis_init (Configure POC_AXIS_LINEAR bound bound)).
    apply reachable_new. }
  unfold poc_axis_configure in *.
  set (s := set_axis_mode POC_AXIS_LINEAR
              (set_upper_bound bound (set_lower_bound bound poc_axis_init))) in *.
  destruct (update_bounds_equal_bounds s eq_refl) as [Hlb Hub].
  destruct (update_bounds_linear_mode s eq_refl) as [Hlm Hum].
  assert (Hmodes : lower_mode (poc_axis_update_bounds s)
                   = upper_mode (poc_axis_update_bounds s)).
  { rewrite Hlm, Hum, Hlb, Hub. reflexivity. }
  split; [exact Hreach |].
  split; [rewrite Hlb; reflexivity |].
  split; [rewrite Hub; reflexivity |].
  split; [exact Hmodes |].
  split; [| apply linear_project_degenerate; exact Hmodes].
  unfold poc_axis_project. apply linear_project_degenerate. exact Hmodes.
Qed.

End DegenerateAxis.

(** Two runs of [poc_axis_linear_project] on bounds 1 and 1, with
    [norm] = 100: the lower bound itself is projected to a NaN, the value 2
    to an infinity. *)
Example linear_project_equal_bounds_run :
  let self : PocAxisPrivate float :=
    {| axis_mode := POC_AXIS_LINEAR;
       lower_bound := 1%float; upper_bound := 1%float;
       major_interval := 1%float; auto_interval := true; minor_divisions := 0;
       adjustment := None; lower_mode := 1%float; upper_mode := 1%float;
       minor_interval := 0%float |} in
  is_nan (poc_axis_linear_project self 1%float 100) = true
  /\ poc_axis_linear_project self 2%float 100 = infinity.
Proof. cbv zeta. split; vm_compute; reflexivity. Qed.

(** ** The spline engine *)

Section SplineAnyArithmetic.
Context {D : Type} `{!Double D}.
Local Open Scope nat_scope.

(** The binary search always ends with adjacent indices: the passes it is
    given are enough. *)
Lemma spline_bisect_adjacent (point : PocPointArray D) (val : D) :
  forall passes k_lo k_hi,
    k_lo < k_hi -> k_hi - k_lo <= S passes ->
    let '(lo, hi) := spline_bisect passes point val k_lo k_hi in
    hi = S lo /\ k_lo <= lo /\ hi <= k_hi.
Proof.
  induction passes as [| passes IH]; intros k_lo k_hi Hlt Hfuel.
  - cbn. lia.
  - cbn [spline_bisect].
    destruct (Nat.ltb_spec 1 (k_hi - k_lo)) as [Hwide | Hnarrow]; [| lia].
    pose proof (Nat.div_mod_eq (k_hi + k_lo) 2) as Hdiv.
    pose proof (Nat.mod_upper_bound (k_hi + k_lo) 2 ltac:(lia)) as Hmod.
    destruct (d_lt val (x (point !!! ((k_hi + k_lo) / 2)))).
    + specialize (IH k_lo ((k_hi + k_lo) / 2) ltac:(lia) ltac:(lia)).
      destruct (spline_bisect passes point val k_lo ((k_hi + k_lo) / 2)). lia.
    + specialize (IH ((k_hi + k_lo) / 2) k_hi ltac:(lia) ltac:(lia)).
      destruct (spline_bisect passes point val ((k_hi + k_lo) / 2) k_hi). lia.
Qed.

(** C9.  In any arithmetic: an array of fewer than 2 points is rejected by
    [poc_spline_get_vector] and by [poc_spline_get_points], which log the
    failed check [n_points >= 2] and return NULL, no sample being computed;
    with 2 points or more that check passes, and a result is returned
    whenever [veclen] is not 0. *)
Theorem spline_rejects_short_arrays (points : PocPointArray D)
    (min_x max_x : D) (veclen : Z) :
  (length points < 2 ->
   poc_spline_get_vector points min_x max_x veclen = Critical "n_points >= 2"
   /\ poc_spline_get_points points min_x max_x veclen = Critical "n_points >= 2"
   /\ is_null (poc_spline_get_vector points min_x max_x veclen) = true
   /\ is_null (poc_spline_get_points points min_x max_x veclen) = true)
  /\ (2 <= length points ->
      poc_spline_get_vector points min_x max_x veclen <> Critical "n_points >= 2"
      /\ poc_spline_get_points points min_x max_x veclen <> Critical "n_points >= 2"
      /\ (veclen <> 0%Z ->
          is_null (poc_spline_get_vector points min_x max_x veclen) = false
          /\ is_null (poc_spline_get_points points min_x max_x veclen) = false)).
Proof.
  unfold poc_spline_get_vector, poc_spline_get_points. split; intros Hlen.
  - destruct (Nat.leb_spec 2 (length points)) as [Hge | _]; [lia |].
    cbn. repeat split; reflexivity.
  - destruct (Nat.leb_spec 2 (length points)) as [_ | Hlt]; [| lia].
    cbn [negb]. destruct (Z.eqb_spec veclen 0) as [-> | Hveclen].
    + split; [discriminate | split; [discriminate |]].
      intros Hne. contradiction.
    + split; [discriminate | split; [discriminate |]].
      intros _. split; reflexivity.
Qed.

End SplineAnyArithmetic.

(** *** The buffer of second derivatives *)

Section SplineBuffer.
Context {D : Type} `{!Double D}.
Local Open Scope nat_scope.
Variable point : PocPointArray D.
Variable n : nat.

Lemma spline_solve_forward_agree (m : nat) (y2 y2' u : list D) :
  S m < n ->
  buffers_agree n m y2 y2' ->
  exists y2a y2b ua,
    spline_solve_forward point (y2, u) (S m) = (y2a, ua)
    /\ spline_solve_forward point (y2', u) (S m) = (y2b, ua)
    /\ buffers_agree n (S m) y2a y2b.
Proof.
  intros Hm (Hlen & Hlen' & Hagree).
  unfold spline_solve_forward. cbv zeta.
  replace (S m - 1) with m by lia.
  assert (Hread : y2 !!! m = y2' !!! m).
  { rewrite !list_lookup_total_alt, (Hagree m) by lia. reflexivity. }
  rewrite <- Hread.
  eexists _, _, _. split; [reflexivity |]. split; [reflexivity |].
  split; [rewrite length_insert; exact Hlen |].
  split; [rewrite length_insert; exact Hlen' |].
  intros i Hi. destruct (decide (i = S m)) as [-> | Hne].
  - rewrite !list_lookup_insert_eq by lia. reflexivity.
  - rewrite !list_lookup_insert_ne by lia. apply Hagree. lia.
Qed.

Lemma spline_solve_forward_fold (k : nat) :
  forall (m : nat) (y2 y2' u : list D),
    m + k < n ->
    buffers_agree n m y2 y2' ->
    exists y2a y2b ua,
      fold_left (spline_solve_forward point) (seq (S m) k) (y2, u) = (y2a, ua)
      /\ fold_left (spline_solve_forward point) (seq (S m) k) (y2', u) = (y2b, ua)
      /\ buffers_agree n (m + k) y2a y2b.
Proof.
  induction k as [| k IH]; intros m y2 y2' u Hm Hagree.
  - cbn [seq fold_left]. rewrite Nat.add_0_r.
    eexists _, _, _. split; [reflexivity |]. split; [reflexivity |]. exact Hagree.
  - cbn [seq fold_left].
    destruct (spline_solve_forward_agree m y2 y2' u ltac:(lia) Hagree)
      as (y2a & y2b & ua & -> & -> & Hstep).
    destruct (IH (S m) y2a y2b ua ltac:(lia) Hstep) as (y2c & y2d & uc & Hc & Hd & Hfold).
    exists y2c, y2d, uc. split; [exact Hc |]. split; [exact Hd |].
    replace (m + S k) with (S m + k) by lia. exact Hfold.
Qed.

(** [spline_solve] overwrites its buffer: the result does not depend on
    what the [n] cells held. *)
Lemma spline_solve_buffer (y2 y2' : list D) :
  2 <= n -> length y2 = n -> length y2' = n ->
  spline_solve n point y2 = spline_solve n point y2'.
Proof.
  intros Hn Hlen Hlen'. unfold spline_solve. cbv zeta.
  destruct (spline_solve_forward_fold (n - 2) 0
              (<[0 := d_of_Z 0]> (<[n - 1 := d_of_Z 0]> y2))
              (<[0 := d_of_Z 0]> (<[n - 1 := d_of_Z 0]> y2'))
              (<[0 := d_of_Z 0]> (replicate (n - 1) (d_of_Z 0))))
    as (y2a & y2b & ua & -> & -> & (Hla & Hlb & Hagree)).
  { lia. }
  { split; [rewrite !length_insert; exact Hlen |].
    split; [rewrite !length_insert; exact Hlen' |].
    intros i [Hi | Hi].
    - assert (i = 0) as -> by lia.
      rewrite !list_lookup_insert_eq by (rewrite length_insert; lia). reflexivity.
    - subst i.
      assert (Hlast : forall l : list D, length l = n ->
                <[0 := d_of_Z 0]> (<[n - 1 := d_of_Z 0]> l) !! (n - 1)
                = Some (d_of_Z 0)).
      { intros l Hl. rewrite list_lookup_insert_ne by lia.
        apply list_lookup_insert_eq. lia. }
      rewrite !Hlast by assumption. reflexivity. }
  assert (y2a = y2b) as ->; [| reflexivity].
  apply list_eq. intros i. destruct (decide (i < n)) as [Hi | Hi].
  - apply Hagree. lia.
  - rewrite !lookup_ge_None_2 by lia. reflexivity.
Qed.

End SplineBuffer.

(** C9 on binary64 numbers: one point is rejected, two points are sampled. *)
Example spline_rejects_short_arrays_run :
  poc_spline_get_vector [ {| x := 0%float; y := 0%float |} ] 0%float 1%float 3
  = Critical "n_points >= 2"
  /\ poc_spline_get_vector
       [ {| x := 0%float; y := 0%float |}; {| x := 1%float; y := 2%float |} ]
       0%float 1%float 3
     = Returned [0%float; 1%float; 2%float].
Proof. split; vm_compute; reflexivity. Qed.

(** *** Sampling *)

Section Sampling.
Variables (n : nat) (point : PocPointArray R) (y2v : list R) (dx : R).

(** The points of [poc_spline_get_points], with the accumulated abscissa
    [rx] after [k] additions of [dx] written as a product. *)
Lemma get_points_loop_spec :
  forall (count : nat) (rx : R) (array : PocPointArray R),
    get_points_loop n point y2v dx count rx array
    = array ++ ((fun k : nat =>
                   {| x := rx + INR k * dx;
                      y := spline_eval n point y2v (rx + INR k * dx) |})
                <$> seq 0 count).
Proof.
  induction count as [| count IH]; intros rx array; cbn [get_points_loop].
  - cbn. rewrite app_nil_r. reflexivity.
  - cbv zeta. exact_arith. rewrite IH, <- app_assoc. f_equal.
    cbn [seq fmap list_fmap app]. rewrite <- seq_shift.
    f_equal.
    + cbn [INR]. f_equal; [lra |]. f_equal. lra.
    + rewrite <- list_fmap_compose. apply list_fmap_ext.
      intros _ k _. unfold compose. rewrite S_INR. f_equal; [lra |]. f_equal. lra.
Qed.

End Sampling.

Lemma guint_sub_1 (veclen : Z) :
  (1 <= veclen < guint_max)%Z -> IZR (guint_sub veclen 1) = IZR veclen - 1.
Proof.
  intros Hrange. unfold guint_sub.
  rewrite Z.mod_small by lia. apply minus_IZR.
Qed.

Local Close Scope R_scope.

Section SamplingAnyArithmetic.
Context {D : Type} `{!Double D}.
Variables (n : nat) (point : PocPointArray D) (y2v : list D) (dx : D).

(** Starting one step later is the same as taking one step more. *)
Lemma sample_position_shift (rx : D) (k : nat) :
  sample_position (d_add rx dx) dx k = sample_position rx dx (S k).
Proof.
  induction k as [| k IH]; [reflexivity |].
  cbn [sample_position] in *. rewrite IH. reflexivity.
Qed.

(** The loop of [poc_spline_get_vector] writes the cells [i], [i] + 1, ...
    of [data], one for each sample. *)
Lemma get_vector_loop_samples :
  forall (count i : nat) (rx : D) (data : list D),
    (i + count <= length data)%nat ->
    let r := get_vector_loop n point y2v dx count i rx data in
    length r = length data
    /\ (forall j, (j < i)%nat -> r !! j = data !! j)
    /\ (forall k, (k < count)%nat ->
          r !! (i + k)%nat
          = Some (spline_eval n point y2v (sample_position rx dx k))).
Proof.
  induction count as [| count IH]; intros i rx data Hlen; cbn [get_vector_loop].
  - split; [reflexivity |]. split; [reflexivity |]. intros k Hk. lia.
  - cbv zeta.
    destruct (IH (S i) (d_add rx dx) (<[i := spline_eval n point y2v rx]> data))
      as (Hl & Hbelow & Hat).
    { rewrite length_insert. lia. }
    rewrite length_insert in Hl.
    split; [exact Hl |]. split.
    + intros j Hj. rewrite Hbelow by lia.
      apply list_lookup_insert_ne. lia.
    + intros [| k] Hk.
      * rewrite Nat.add_0_r, Hbelow by lia.
        rewrite list_lookup_insert_eq by lia. reflexivity.
      * replace (i + S k)%nat with (S i + k)%nat by lia.
        rewrite Hat by lia. rewrite sample_position_shift. reflexivity.
Qed.

Lemma get_points_loop_samples :
  forall (count : nat) (rx : D) (array : PocPointArray D),
    get_points_loop n point y2v dx count rx array
    = array ++ ((fun k : nat =>
                   {| x := sample_position rx dx k;
                      y := spline_eval n point y2v (sample_position rx dx k) |})
                <$> seq 0 count).
Proof.
  induction count as [| count IH]; intros rx array; cbn [get_points_loop].
  - cbn. rewrite app_nil_r. reflexivity.
  - cbv zeta. rewrite IH, <- app_assoc. f_equal.
    cbn [seq fmap list_fmap app]. rewrite <- seq_shift.
    f_equal. rewrite <- list_fmap_compose. apply list_fmap_ext.
    intros _ k _. unfold compose. rewrite sample_position_shift. reflexivity.
Qed.

End SamplingAnyArithmetic.

Local Open Scope R_scope.

(** In exact arithmetic the accumulated abscissa is [min_x + i * dx]. *)
Lemma sample_position_exact (min_x dx : R) (i : nat) :
  sample_position min_x dx i = min_x + INR i * dx.
Proof.
  induction i as [| i IH]; [cbn; lra |].
  cbn [sample_position]. exact_arith. rewrite IH, S_INR. lra.
Qed.

(** C5, as amended.  For an array of at least 2 control points and
    [veclen] at least 2, in any arithmetic, [poc_spline_get_vector]
    returns exactly [veclen] samples, the i-th being the spline evaluated
    at the abscissa [min_x] after i additions of
    [dx = (max_x - min_x) / (veclen - 1)], and [poc_spline_get_points]
    returns the same samples paired with these abscissas.  In exact
    arithmetic the i-th abscissa is [min_x + i * dx]: the abscissas are
    evenly spaced, the first is [min_x] and the last is [max_x].  In
    binary64 the sums are rounded; for [min_x] = 0, [max_x] = 3 and
    [veclen] = 4 they are exactly 0, 1, 2 and 3.  (That X increases is not
    needed.) *)
Theorem spline_samples_evenly_spaced :
  (forall (D : Type) (HD : Double D) (points : PocPointArray D)
          (min_x max_x : D) (veclen : Z),
     (2 <= length points)%nat ->
     (2 <= veclen < guint_max)%Z ->
     let n := length points in
     let y2v := spline_solve n points (replicate n (d_of_Z 0)) in
     let dx := d_div (d_sub max_x min_x) (d_of_Z (veclen - 1)) in
     poc_spline_get_vector points min_x max_x veclen
     = Returned ((fun i => spline_eval n points y2v (sample_position min_x dx i))
                 <$> seq 0 (Z.to_nat veclen))
     /\ poc_spline_get_points points min_x max_x veclen
        = Returned ((fun i =>
                       {| x := sample_position min_x dx i;
                          y := spline_eval n points y2v
                                 (sample_position min_x dx i) |})
                    <$> seq 0 (Z.to_nat veclen)))
  /\ (forall (min_x max_x : R) (veclen : Z),
        (2 <= veclen)%Z ->
        let dx := (max_x - min_x) / (IZR veclen - 1) in
        (forall i : nat, sample_position min_x dx i = min_x + INR i * dx)
        /\ sample_position min_x dx 0 = min_x
        /\ sample_position min_x dx (Z.to_nat veclen - 1) = max_x)
  /\ (sample_position 0 ((3 - 0) / 3) <$> seq 0 4 = [0; 1; 2; 3])%float.
Proof.
  split; [| split].
  - intros D HD points min_x max_x veclen Hpoints Hveclen n y2v dx.
    unfold poc_spline_get_vector, poc_spline_get_points.
    destruct (Nat.leb_spec 2 (length points)) as [_ | Hlt]; [| lia].
    destruct (Z.eqb_spec veclen 0) as [-> | _]; [lia |].
    cbn [negb]. cbv zeta.
    replace (guint_sub veclen 1) with (veclen - 1)%Z
      by (unfold guint_sub; rewrite Z.mod_small by lia; reflexivity).
    fold n. fold y2v. fold dx. split.
    + f_equal. apply list_eq. intros i.
      destruct (get_vector_loop_samples n points y2v dx
                  (Z.to_nat veclen) 0 min_x (replicate (Z.to_nat veclen) (d_of_Z 0)))
        as (Hlen & _ & Hat).
      { rewrite length_replicate. lia. }
      rewrite length_replicate in Hlen.
      rewrite list_lookup_fmap.
      destruct (decide (i < Z.to_nat veclen)%nat) as [Hi | Hi].
      * specialize (Hat i Hi). cbn [Nat.add] in Hat.
        rewrite Hat, lookup_seq_lt by exact Hi. reflexivity.
      * rewrite lookup_ge_None_2 by lia.
        rewrite lookup_ge_None_2 by (rewrite length_seq; lia). reflexivity.
    + f_equal. rewrite get_points_loop_samples. reflexivity.
  - intros min_x max_x veclen Hveclen dx.
    split; [intros i; apply sample_position_exact |].
    split; [reflexivity |].
    rewrite sample_position_exact. unfold dx.
    assert (HINR : INR (Z.to_nat veclen - 1) = IZR veclen - 1).
    { rewrite minus_INR by lia. rewrite INR_IZR_INZ, Z2Nat.id by lia.
      cbn [INR]. reflexivity. }
    rewrite HINR.
    assert (Hnz : IZR veclen - 1 <> 0).
    { assert (2 <= veclen)%Z as H2%IZR_le by lia. lra. }
    field. exact Hnz.
  - vm_compute. reflexivity.
Qed.

(** The specification's example: four samples between 0 and 3 are taken
    at 0, 1, 2 and 3. *)
Lemma spline_samples_evenly_spaced_witness :
  let y2v := spline_solve 4 example_points (replicate 4 0) in
  poc_spline_get_vector example_points 0 3 4
  = Returned [ spline_eval 4 example_points y2v 0;
               spline_eval 4 example_points y2v 1;
               spline_eval 4 example_points y2v 2;
               spline_eval 4 example_points y2v 3 ]
  /\ poc_spline_get_points example_points 0 3 4
     = Returned [ {| x := 0; y := spline_eval 4 example_points y2v 0 |};
                  {| x := 1; y := spline_eval 4 example_points y2v 1 |};
                  {| x := 2; y := spline_eval 4 example_points y2v 2 |};
                  {| x := 3; y := spline_eval 4 example_points y2v 3 |} ].
Proof.
  cbv zeta.
  destruct spline_samples_evenly_spaced as (Hsamples & Hexact & _).
  destruct (Hsamples R exact_real example_points 0 3 4%Z)
    as (Hvector & Hpoints).
  { cbn. lia. }
  { unfold guint_max. lia. }
  destruct (Hexact 0 3 4%Z ltac:(lia)) as (Hposition & _).
  rewrite Hvector, Hpoints.
  change (Z.to_nat 4) with 4%nat. change (length example_points) with 4%nat.
  cbn [seq fmap list_fmap]. exact_arith. change (4 - 1)%Z with 3%Z.
  replace (3 - 0) with 3 by lra.
  replace (4 - 1) with 3 in Hposition by lra.
  replace (3 - 0) with 3 in Hposition by lra.
  rewrite !Hposition. cbn [INR].
  replace (0 + 0 * (3 / 3)) with 0 by lra.
  replace (0 + 1 * (3 / 3)) with 1 by lra.
  replace (0 + (1 + 1) * (3 / 3)) with 2 by lra.
  replace (0 + (1 + 1 + 1) * (3 / 3)) with 3 by lra.
  split; reflexivity.
Defined.

Local Close Scope R_scope.

(** C5, as stated, fails in binary64, the arithmetic of the code.  Eleven
    samples of the line through (0,0) and (1,1) between 0 and 1: the
    abscissa is accumulated by ten additions of (1 - 0) / 10 and ends at
    0.99999999999999989, below [max_x] = 1; the last sample is the curve
    there, not at 1, where it is 1; and the steps between the abscissas
    are not all equal. *)
Lemma spline_samples_evenly_spaced_counterexample :
  let p (a b : float) : PocPoint float := {| x := a; y := b |} in
  let points := [p 0 0; p 1 1]%float in
  (exists array,
     poc_spline_get_points points 0%float 1%float 11 = Returned array
     /\ length array = 11%nat
     /\ x <$> array !! 10%nat = Some 0x1.fffffffffffffp-1%float
     /\ x <$> array !! 2%nat = Some 0x1.999999999999ap-3%float
     /\ x <$> array !! 3%nat = Some 0x1.3333333333334p-2%float
     /\ x <$> array !! 4%nat = Some 0x1.999999999999ap-2%float)
  /\ (0x1.fffffffffffffp-1 <? 1)%float = true
  /\ (0x1.999999999999ap-2 - 0x1.3333333333334p-2
      <? 0x1.3333333333334p-2 - 0x1.999999999999ap-3)%float = true
  /\ (exists samples,
        poc_spline_get_vector points 0%float 1%float 11 = Returned samples
        /\ samples !! 10%nat = Some 0x1.fffffffffffffp-1%float)
  /\ spline_eval 2 points (spline_solve 2 points (replicate 2 0%float)) 1%float
     = 1%float.
Proof.
  cbv zeta. split; [| split; [| split; [| split]]].
  - eexists. split; [vm_compute; reflexivity |].
    repeat split; vm_compute; reflexivity.
  - vm_compute. reflexivity.
  - vm_compute. reflexivity.
  - eexists. split; [vm_compute; reflexivity |]. vm_compute. reflexivity.
  - vm_compute. reflexivity.
Qed.

Local Open Scope R_scope.

(** *** Interpolation, in exact arithmetic *)

Lemma increasing_x_tail (p : PocPoint R) (rest : list (PocPoint R)) :
  increasing_x (p :: rest) -> increasing_x rest.
Proof. destruct rest as [| q rest]; [intros; exact I | intros [_ H]; exact H]. Qed.

Lemma increasing_x_head (rest : list (PocPoint R)) :
  forall (p : PocPoint R) (j : nat),
    increasing_x (p :: rest) -> (j < length rest)%nat -> x p < x (rest !!! j).
Proof.
  induction rest as [| q rest IH]; intros p j Hinc Hj; [cbn in Hj; lia |].
  destruct Hinc as [Hpq Hinc]. destruct j as [| j]; [exact Hpq |].
  cbn in Hj. apply Rlt_trans with (x q); [exact Hpq |].
  apply (IH q j Hinc). lia.
Qed.

(** Strictly increasing X orders any two points as their indices. *)
Lemma increasing_x_lookup (points : list (PocPoint R)) :
  increasing_x points ->
  forall i j, (i < j < length points)%nat ->
    x (points !!! i) < x (points !!! j).
Proof.
  induction points as [| p rest IH]; intros Hinc i j Hij; [cbn in Hij; lia |].
  cbn in Hij. destruct j as [| j]; [lia |]. destruct i as [| i].
  - apply (increasing_x_head rest p j Hinc). lia.
  - apply (IH (increasing_x_tail p rest Hinc) i j). lia.
Qed.

Section Interpolation.
Variable points : PocPointArray R.
Hypothesis Hincreasing : increasing_x points.
Variable j : nat.
Hypothesis Hj : (j < length points)%nat.

(** The binary search for the abscissa of the control point [j] ends on
    the interval that starts at [j], or, for the last control point, on the
    interval that ends there. *)
Lemma spline_bisect_knot :
  forall passes k_lo k_hi,
    (k_lo < k_hi < length points)%nat ->
    (k_hi - k_lo <= S passes)%nat ->
    (k_lo <= j)%nat ->
    (j < k_hi \/ j = k_hi /\ S k_hi = length points)%nat ->
    let '(lo, hi) := spline_bisect passes points (x (points !!! j)) k_lo k_hi in
    hi = S lo /\ (lo = j \/ hi = j).
Proof.
  induction passes as [| passes IH]; intros k_lo k_hi Hk Hfuel Hlo Hhi.
  - cbn. lia.
  - cbn [spline_bisect].
    destruct (Nat.ltb_spec 1 (k_hi - k_lo)) as [Hwide | Hnarrow]; [| lia].
    pose proof (Nat.div_mod_eq (k_hi + k_lo) 2) as Hdiv.
    pose proof (Nat.mod_upper_bound (k_hi + k_lo) 2 ltac:(lia)) as Hmod.
    set (k := ((k_hi + k_lo) / 2)%nat) in *.
    exact_arith.
    destruct (Nat.lt_ge_cases j k) as [Hjk | Hkj].
    + rewrite Rltb_true by (apply increasing_x_lookup; [exact Hincreasing | lia]).
      apply IH; lia.
    + rewrite Rltb_false.
      * apply IH; lia.
      * destruct (Nat.eq_dec k j) as [-> | Hne]; [lra |].
        left. apply increasing_x_lookup; [exact Hincreasing | lia].
Qed.

End Interpolation.

(** C4.  In exact arithmetic, for an array of at least 2 control points
    with strictly increasing X and the second derivatives [spline_solve]
    computes for it (in whatever buffer), [spline_eval] at the X of any
    control point returns the Y of that point. *)
Theorem spline_interpolates_control_points (points : PocPointArray R)
    (buffer : list R) (j : nat) :
  (2 <= length points)%nat ->
  increasing_x points ->
  (j < length points)%nat ->
  let n := length points in
  spline_eval n points (spline_solve n points buffer) (x (points !!! j))
  = y (points !!! j).
Proof.
  intros Hlen Hinc Hj n. subst n. unfold spline_eval.
  pose proof (spline_bisect_knot points Hinc j Hj
                (length points - 1) 0 (length points - 1)
                ltac:(lia) ltac:(lia) ltac:(lia) ltac:(lia)) as Hsearch.
  pose proof (spline_bisect_adjacent points (x (points !!! j))
                (length points - 1) 0 (length points - 1)
                ltac:(lia) ltac:(lia)) as Hbound.
  destruct (spline_bisect (length points - 1) points (x (points !!! j)) 0
              (length points - 1)) as [lo hi].
  destruct Hsearch as [-> Hat].
  assert (Hh : x (points !!! lo) < x (points !!! S lo))
    by (apply increasing_x_lookup; [exact Hinc | lia]).
  exact_arith.
  (* the blend factors are 1 and 0 when the search ends at [j], 0 and 1
     when it ends just before the last point *)
  destruct Hat as [-> | <-]; field; lra.
Qed.

(** The specification's example: through (0,0), (1,1), (2,0), (3,1) the
    spline evaluates to 1 at x = 1 and to 0 at x = 2. *)
Lemma spline_interpolates_control_points_witness :
  let y2v := spline_solve 4 example_points (replicate 4 0) in
  (2 <= length example_points)%nat
  /\ increasing_x example_points
  /\ spline_eval 4 example_points y2v 1 = 1
  /\ spline_eval 4 example_points y2v 2 = 0.
Proof.
  cbv zeta.
  assert (Hlen : (2 <= length example_points)%nat) by (cbn; lia).
  assert (Hinc : increasing_x example_points) by (cbn; repeat split; lra).
  split; [exact Hlen |]. split; [exact Hinc |]. split.
  - apply (spline_interpolates_control_points example_points (replicate 4 0) 1
             Hlen Hinc). cbn. lia.
  - apply (spline_interpolates_control_points example_points (replicate 4 0) 2
             Hlen Hinc). cbn. lia.
Defined.

(** The same example computed in binary64: the second derivatives and the
    values at the four control points. *)
Example spline_example_binary64 :
  let points : PocPointArray float :=
    [ {| x := 0%float; y := 0%float |}; {| x := 1%float; y := 1%float |};
      {| x := 2%float; y := 0%float |}; {| x := 3%float; y := 1%float |} ] in
  let y2v := spline_solve 4 points (replicate 4 0%float) in
  y2v = [0%float; (-4)%float; 4%float; 0%float]
  /\ spline_eval 4 points y2v 1%float = 1%float
  /\ spline_eval 4 points y2v 2%float = 0%float.
Proof. cbv zeta. repeat split; vm_compute; reflexivity. Qed.

(** ** The grid *)

Local Close Scope R_scope.

Section GridAnyArithmetic.
Context {D : Type} `{!Double D, !Libm D}.



End GridAnyArithmetic.


Local Open Scope R_scope.


Section GridExact.
Context (libm : Libm R).



End GridExact.









(** ** The resample cache of a curve dataset *)

Section DatasetCache.
Context {D : Type} `{!Double D, !Libm D}.

(** X1.  [poc_dataset_set_points] stores the new control points and leaves
    no cache behind, whatever the class of the dataset and whatever the
    cache held. *)
Theorem set_points_clears_cache (self : PocDataset D)
    (points : option (PocPointArray D)) :
  dataset_cache (poc_dataset_set_points self points) = None
  /\ poc_dataset_get_points (poc_dataset_set_points self points) = points.
Proof.
  destruct self as [priv | priv [markers [cache |] width]]; split; reflexivity.
Qed.

(** C6 fails for [poc_dataset_set_points_array], which stores the new
    control points and never calls [poc_dataset_invalidate]: the cache of a
    curve dataset is what it was, and a draw at the width the cache was
    computed for keeps using it. *)
Theorem set_points_array_keeps_cache (priv : PocDatasetPrivate D)
    (self : PocDatasetSplineFields D) (xs ys : list D) (points : Z) :
  let dataset := poc_dataset_set_points_array (DatasetSpline priv self) xs ys points in
  poc_dataset_get_points dataset
  = Some (set_points_array_loop xs ys (Z.to_nat points) 0 [])
  /\ dataset_cache dataset = self_points self
  /\ (self_points self <> None ->
      dataset_cache (poc_dataset_draw dataset (cache_width self))
      = self_points self).
Proof.
  cbv zeta. split; [reflexivity |]. split; [reflexivity |].
  intros Hcache. unfold poc_dataset_draw, poc_dataset_set_points_array.
  cbn [set_priv_points dataset_priv x_axis y_axis].
  destruct (x_axis priv) as [xa |], (y_axis priv) as [ya |]; try reflexivity.
  unfold poc_dataset_spline_draw, poc_dataset_get_points.
  cbn [dataset_priv priv_points x_axis].
  destruct (self_points self) as [cache |] eqn:Hsp; [| contradiction].
  rewrite Z.eqb_refl. cbn [orb negb dataset_cache]. exact Hsp.
Qed.

End DatasetCache.

(** A curve dataset whose cache holds two resampled points; replacing its
    control points through [poc_dataset_set_points_array] leaves the cache
    in place, through [poc_dataset_set_points] clears it. *)
Example set_points_array_keeps_cache_run :
  let p (a b : float) : PocPoint float := {| x := a; y := b |} in
  let cache := [p 0 0; p 1 1]%float in
  let self : PocDataset float :=
    DatasetSpline
      {| priv_points := Some [p 0 0; p 1 1]%float; x_axis := None; y_axis := None |}
      {| show_markers := false; self_points := Some cache; cache_width := 4 |} in
  poc_dataset_get_points
    (poc_dataset_set_points_array self [0; 1]%float [5; 7]%float 2)
  = Some [p 0 5; p 1 7]%float
  /\ dataset_cache
       (poc_dataset_set_points_array self [0; 1]%float [5; 7]%float 2)
     = Some cache
  /\ dataset_cache
       (poc_dataset_set_points self (Some [p 0 5; p 1 7]%float))
     = None.
Proof. cbv zeta. repeat split; vm_compute; reflexivity. Qed.

(** ** Runs in binary64 *)

(** The specification's examples, computed as the compiled code computes
    them. *)

Section Binary64Runs.
Context (libm : Libm float).

(** A new axis configured with bounds 5 and 1 has bounds 1 and 5; one
    configured from 0 to 50 has span 50 and major interval 10, and projects
    its bounds onto the two ends of 101 pixels, mirrored for [norm]
    negative. *)
Example configure_binary64 :
  let inverted := poc_axis_configure poc_axis_init POC_AXIS_LINEAR 5%float 1%float in
  let wide := poc_axis_configure poc_axis_init POC_AXIS_LINEAR 0%float 50%float in
  (lower_bound inverted = 1%float /\ upper_bound inverted = 5%float)
  /\ (upper_mode wide - lower_mode wide = 50 /\ major_interval wide = 10)%float
  /\ (poc_axis_project wide 0%float 101 = 0
      /\ poc_axis_project wide 50%float 101 = 100
      /\ poc_axis_project wide 50%float (-101) = 0
      /\ poc_axis_project wide 0%float (-101) = 100)%float.
Proof. cbv zeta. repeat split; vm_compute; reflexivity. Qed.

End Binary64Runs.

(** Four samples between 0 and 3 through (0,0), (1,1), (2,0), (3,1) are
    the four control points. *)
Example get_points_binary64 :
  let p (a b : float) : PocPoint float := {| x := a; y := b |} in
  poc_spline_get_points [p 0 0; p 1 1; p 2 0; p 3 1]%float 0%float 3%float 4
  = Returned [p 0 0; p 1 1; p 2 0; p 3 1]%float.
Proof. vm_compute. reflexivity. Qed.

(** What is proved above over the reals holds in binary64 up to rounding
    only.  On an axis from 0 to 3 the two sides of the mirror identity differ
    in their last digits for the value 2 and [norm] = 101; and the abscissa
    accumulated by ten additions of (1 - 0) / 10 ends just below 1. *)
Example binary64_rounding :
  let self : PocAxisPrivate float :=
    {| axis_mode := POC_AXIS_LINEAR;
       lower_bound := 0%float; upper_bound := 3%float;
       major_interval := 1%float; auto_interval := true; minor_divisions := 0;
       adjustment := None; lower_mode := 0%float; upper_mode := 3%float;
       minor_interval := 0%float |} in
  let p (a b : float) : PocPoint float := {| x := a; y := b |} in
  (poc_axis_linear_project self 2 (-101) = 0x1.0aaaaaaaaaaabp+5
   /\ 100 - poc_axis_linear_project self 2 101 = 0x1.0aaaaaaaaaaacp+5)%float
  /\ (x <$> match poc_spline_get_points [p 0 0; p 1 1]%float 0%float 1%float 11 with
            | Returned array => array
            | Critical _ => []
            end) !! 10%nat
     = Some 0x1.fffffffffffffp-1%float.
Proof. cbv zeta. repeat split; vm_compute; reflexivity. Qed.

(** ** Further properties of the specification *)

Section Further.
Context {D : Type} `{!Double D, !Libm D}.

(** Mode consistency: on an axis in octave mode [poc_axis_project]
    is [poc_axis_linear_project] of the binary logarithm of the value, in
    decade mode of its decimal logarithm, in linear mode of the value
    itself; in any arithmetic. *)
Theorem project_mode_consistency (self : PocAxisPrivate D) (value : D) (norm : Z) :
  poc_axis_project self value norm
  = poc_axis_linear_project self
      match axis_mode self with
      | POC_AXIS_LINEAR => value
      | POC_AXIS_LOG_OCTAVE => log2 value
      | POC_AXIS_LOG_DECADE => log10 value
      end norm.
Proof. unfold poc_axis_project. destruct (axis_mode self); reflexivity. Qed.

(** X3.  Drawing a dataset whose X or Y axis is not set changes nothing,
    whatever its class. *)
Theorem draw_needs_both_axes (self : PocDataset D) (width : Z) :
  x_axis (dataset_priv self) = None \/ y_axis (dataset_priv self) = None ->
  poc_dataset_draw self width = self.
Proof.
  intros Haxes. unfold poc_dataset_draw.
  destruct (x_axis (dataset_priv self)), (y_axis (dataset_priv self));
    try reflexivity.
  destruct Haxes; discriminate.
Qed.

(** X4.  pocdatasetspline.c, [poc_dataset_spline_draw]: when the cache is
    there and was computed for the width of the draw, that is when the
    test [self->points == NULL || self->cache_width != width] is false,
    the draw leaves the dataset as it is, whatever the cache and the
    control points hold: the curve is not sampled again.  A draw with both
    axes and the control points set marks the cache with its width, so
    that once it has left a cache the test is false; and a second draw at
    the same width changes nothing. *)
Theorem draw_reuses_cache :
  (forall (priv : PocDatasetPrivate D) (fields : PocDatasetSplineFields D)
          (width : Z),
     cache_stale fields width = false ->
     poc_dataset_draw (DatasetSpline priv fields) width
     = DatasetSpline priv fields)
  /\ (forall (priv : PocDatasetPrivate D) (fields : PocDatasetSplineFields D)
             (width : Z),
        x_axis priv <> None -> y_axis priv <> None -> priv_points priv <> None ->
        exists fields',
          poc_dataset_draw (DatasetSpline priv fields) width
          = DatasetSpline priv fields'
          /\ cache_width fields' = width
          /\ (self_points fields' <> None -> cache_stale fields' width = false))
  /\ (forall (self : PocDataset D) (width : Z),
        dataset_cache (poc_dataset_draw self width) <> None ->
        poc_dataset_draw (poc_dataset_draw self width) width
        = poc_dataset_draw self width).
Proof.
  assert (Hfresh : forall (priv : PocDatasetPrivate D)
                     (fields : PocDatasetSplineFields D) (width : Z),
            cache_stale fields width = false ->
            poc_dataset_draw (DatasetSpline priv fields) width
            = DatasetSpline priv fields).
  { intros priv fields width Hstale. unfold poc_dataset_draw.
    cbn [dataset_priv].
    destruct (x_axis priv) as [xa |] eqn:Hx, (y_axis priv) as [ya |];
      try reflexivity.
    unfold poc_dataset_spline_draw, poc_dataset_get_points.
    cbn [dataset_priv]. rewrite Hx.
    destruct (priv_points priv) as [spline |]; [| reflexivity].
    unfold cache_stale in Hstale. rewrite Hstale. reflexivity. }
  assert (Hmarked : forall (priv : PocDatasetPrivate D)
                      (fields : PocDatasetSplineFields D) (width : Z),
            x_axis priv <> None -> y_axis priv <> None ->
            priv_points priv <> None ->
            exists fields',
              poc_dataset_draw (DatasetSpline priv fields) width
              = DatasetSpline priv fields'
              /\ cache_width fields' = width
              /\ (self_points fields' <> None ->
                  cache_stale fields' width = false)).
  { intros priv fields width Hx Hy Hpoints. unfold poc_dataset_draw.
    cbn [dataset_priv].
    destruct (x_axis priv) as [xa |] eqn:Hxa; [| contradiction].
    destruct (y_axis priv) as [ya |]; [| contradiction].
    unfold poc_dataset_spline_draw, poc_dataset_get_points.
    cbn [dataset_priv]. rewrite Hxa.
    destruct (priv_points priv) as [spline |]; [| contradiction].
    destruct (match self_points fields with None => true | Some _ => false end
              || negb (cache_width fields =? width)%Z) eqn:Hstale.
    - destruct (poc_axis_get_display_range xa) as [min_x max_x].
      eexists. split; [reflexivity |]. cbn [cache_width self_points].
      split; [reflexivity |]. intros Hcache. unfold cache_stale.
      cbn [cache_width self_points]. rewrite Z.eqb_refl.
      destruct (poc_spline_get_points spline min_x max_x
                  (guint_add (width / 4) 1)); [reflexivity | contradiction].
    - exists fields. split; [reflexivity |].
      pose proof (orb_false_elim _ _ Hstale) as [_ Hwidth].
      apply negb_false_iff, Z.eqb_eq in Hwidth.
      split; [exact Hwidth |]. intros _. exact Hstale. }
  split; [exact Hfresh |]. split; [exact Hmarked |].
  intros self width Hcache.
  destruct self as [priv | priv fields].
  - exfalso. apply Hcache. unfold poc_dataset_draw. cbn [dataset_priv].
    destruct (x_axis priv), (y_axis priv); reflexivity.
  - assert (Haxes : x_axis priv = None \/ y_axis priv = None ->
                    poc_dataset_draw (DatasetSpline priv fields) width
                    = DatasetSpline priv fields).
    { intros Hnone. unfold poc_dataset_draw. cbn [dataset_priv].
      destruct (x_axis priv), (y_axis priv); try reflexivity.
      destruct Hnone; discriminate. }
    destruct (x_axis priv) as [xa |] eqn:Hx;
      [| rewrite !Haxes by (left; reflexivity); reflexivity].
    destruct (y_axis priv) as [ya |] eqn:Hy;
      [| rewrite !Haxes by (right; reflexivity); reflexivity].
    clear Haxes.
    destruct (priv_points priv) as [spline |] eqn:Hpoints.
    + destruct (Hmarked priv fields width) as (fields' & Hdraw & _ & Hfalse);
        try congruence.
      rewrite Hdraw in *. cbn [dataset_cache] in Hcache.
      apply Hfresh. apply Hfalse. exact Hcache.
    + assert (Hsame : poc_dataset_draw (DatasetSpline priv fields) width
                      = DatasetSpline priv fields).
      { unfold poc_dataset_draw. cbn [dataset_priv]. rewrite Hx, Hy.
        unfold poc_dataset_spline_draw, poc_dataset_get_points.
        cbn [dataset_priv]. rewrite Hpoints. reflexivity. }
      rewrite !Hsame. reflexivity.
Qed.

End Further.

Lemma get_points_returns `{!Double D} (points : PocPointArray D)
    (min_x max_x : D) (veclen : Z) :
  (2 <= length points)%nat -> veclen <> 0%Z ->
  exists array, poc_spline_get_points points min_x max_x veclen = Returned array.
Proof.
  intros Hlen Hveclen. unfold poc_spline_get_points.
  destruct (Nat.leb_spec 2 (length points)) as [_ | Hlt]; [| lia].
  destruct (Z.eqb_spec veclen 0) as [Hz | _]; [contradiction |].
  eexists; reflexivity.
Qed.

Lemma draw_needs_both_axes_witness :
  let self : PocDataset R :=
    DatasetSpline
      {| priv_points := Some example_points; x_axis := Some poc_axis_init;
         y_axis := None |}
      {| show_markers := false; self_points := None; cache_width := 0 |} in
  poc_dataset_draw self 400 = self.
Proof.
  cbv zeta. apply draw_needs_both_axes. right. reflexivity.
Defined.

Lemma draw_reuses_cache_witness :
  let self : PocDataset R :=
    DatasetSpline
      {| priv_points := Some example_points; x_axis := Some poc_axis_init;
         y_axis := Some poc_axis_init |}
      {| show_markers := false; self_points := None; cache_width := 0 |} in
  dataset_cache (poc_dataset_draw self 400) <> None
  /\ poc_dataset_draw (poc_dataset_draw self 400) 400 = poc_dataset_draw self 400.
Proof.
  cbv zeta.
  assert (Hcache : dataset_cache
            (poc_dataset_draw (D := R)
               (DatasetSpline
                  {| priv_points := Some example_points;
                     x_axis := Some poc_axis_init; y_axis := Some poc_axis_init |}
                  {| show_markers := false; self_points := None;
                     cache_width := 0 |}) 400) <> None).
  { unfold poc_dataset_draw, poc_dataset_spline_draw, poc_dataset_get_points.
    cbn [dataset_priv x_axis y_axis priv_points self_points orb].
    destruct (poc_axis_get_display_range (D := R) poc_axis_init) as [min_x max_x].
    destruct (get_points_returns example_points min_x max_x
                (guint_add (400 / 4) 1)) as [array ->].
    - cbn. lia.
    - vm_compute. discriminate.
    - cbn. discriminate. }
  split; [exact Hcache |].
  destruct (draw_reuses_cache (D := R)) as (_ & _ & Hagain).
  apply Hagain. exact Hcache.
Defined.

(** ** Further properties of the code *)

(** *** The spline as the solution of its equations *)

Local Close Scope R_scope.
Unset Default Proof Using.

Section SplineFrame.
Context {D : Type} `{!Double D}.
Local Open Scope nat_scope.
Variable point : PocPointArray D.

(** A pass of the forward elimination writes the cells [i] only. *)
Lemma spline_solve_forward_frame (y2 u : list D) (i : nat) :
  exists y2' u',
    spline_solve_forward point (y2, u) i = (y2', u')
    /\ length y2' = length y2 /\ length u' = length u
    /\ (forall j, j <> i -> y2' !! j = y2 !! j)
    /\ (forall j, j <> i -> u' !! j = u !! j).
Proof.
  unfold spline_solve_forward. eexists _, _. split; [reflexivity |].
  rewrite !length_insert. split; [reflexivity |]. split; [reflexivity |].
  split; intros j Hj; rewrite ?list_lookup_insert_ne by lia; reflexivity.
Qed.

Lemma spline_solve_forward_fold_frame (k : nat) :
  forall (m : nat) (y2 u : list D),
    exists y2' u',
      fold_left (spline_solve_forward point) (seq m k) (y2, u) = (y2', u')
      /\ length y2' = length y2 /\ length u' = length u
      /\ (forall j, (j < m \/ m + k <= j) -> y2' !! j = y2 !! j)
      /\ (forall j, (j < m \/ m + k <= j) -> u' !! j = u !! j).
Proof.
  induction k as [| k IH]; intros m y2 u.
  - cbn [seq fold_left]. eexists _, _. repeat split; reflexivity.
  - cbn [seq fold_left].
    destruct (spline_solve_forward_frame y2 u m)
      as (y2a & ua & -> & Hl & Hlu & Hy & Hu).
    destruct (IH (S m) y2a ua) as (y2b & ub & -> & Hl' & Hlu' & Hy' & Hu').
    exists y2b, ub. split; [reflexivity |].
    split; [congruence |]. split; [congruence |].
    split; intros j Hj.
    + rewrite Hy' by lia. apply Hy. lia.
    + rewrite Hu' by lia. apply Hu. lia.
Qed.

(** The back-substitution over the cells [len], ..., 1 leaves the other
    cells as they are. *)
Lemma spline_solve_backward_fold_frame (u : list D) (len : nat) :
  forall (y2 : list D),
    let y2' := fold_left (spline_solve_backward u) (rev (seq 1 len)) y2 in
    length y2' = length y2
    /\ (forall j, (j = 0 \/ len < j) -> y2' !! j = y2 !! j).
Proof.
  induction len as [| len IH]; intros y2.
  - cbn. split; reflexivity.
  - rewrite seq_S, rev_app_distr. cbn [rev app fold_left].
    destruct (IH (spline_solve_backward u y2 (1 + len))) as [Hl Hframe].
    cbv zeta. split.
    + rewrite Hl. unfold spline_solve_backward. apply length_insert.
    + intros j Hj. rewrite Hframe by lia.
      unfold spline_solve_backward. apply list_lookup_insert_ne. lia.
Qed.

End SplineFrame.

Section SplineBoundary.
Context {D : Type} `{!Double D}.

(** X5.  pocspline.c, [spline_solve], in any arithmetic: for at least two
    control points and a buffer of as many cells the result has as many
    cells, and its first and its last cell hold 0: the second derivative of
    the curve is 0 at both ends, the spline is a natural one. *)
Theorem spline_natural_boundary (points : PocPointArray D)
    (buffer : list D) :
  (2 <= length points)%nat ->
  length buffer = length points ->
  let n := length points in
  let y2 := spline_solve n points buffer in
  length y2 = n
  /\ y2 !! 0%nat = Some (d_of_Z 0)
  /\ y2 !! (n - 1)%nat = Some (d_of_Z 0).
Proof.
  intros Hn Hlen n y2. subst y2. unfold spline_solve. cbv zeta.
  destruct (spline_solve_forward_fold_frame points (n - 2) 1
              (<[0%nat := d_of_Z 0]> (<[(n - 1)%nat := d_of_Z 0]> buffer))
              (<[0%nat := d_of_Z 0]> (replicate (n - 1) (d_of_Z 0))))
    as (y2a & ua & -> & Hl & _ & Hy & _).
  rewrite !length_insert in Hl.
  destruct (spline_solve_backward_fold_frame ua (n - 2) y2a) as [Hlb Hframe].
  cbv zeta in Hlb, Hframe. fold n in Hlen.
  split; [congruence |]. split.
  - rewrite Hframe by lia. rewrite Hy by lia.
    apply list_lookup_insert_eq. rewrite length_insert. lia.
  - rewrite Hframe by lia. rewrite Hy by lia.
    destruct (decide (n - 1 = 0)%nat) as [Hz | Hnz].
    + rewrite Hz. apply list_lookup_insert_eq. rewrite length_insert. lia.
    + rewrite list_lookup_insert_ne by lia.
      apply list_lookup_insert_eq. lia.
Qed.

End SplineBoundary.

Lemma spline_natural_boundary_witness :
  (2 <= length example_points)%nat
  /\ length [0; 0; 0; 0]%R = length example_points
  /\ spline_solve 4 example_points [0; 0; 0; 0]%R !! 0%nat = Some 0%R.
Proof.
  split; [cbn; lia | split; [reflexivity |]].
  exact (proj1 (proj2 (spline_natural_boundary example_points [0; 0; 0; 0]%R
                         ltac:(cbn; lia) eq_refl))).
Defined.

Local Open Scope R_scope.

Section SplineSystem.
Variable point : PocPointArray R.
Hypothesis Hinc : increasing_x point.

(** The state of the forward elimination is as [forward_pass_done] says
    for a pass once the cells it reads and writes are not written again. *)
Lemma forward_pass_done_frame (y2 u y2' u' : list R) (i : nat) :
  (forall j, (j <= i)%nat -> y2' !!! j = y2 !!! j) ->
  (forall j, (j <= i)%nat -> u' !!! j = u !!! j) ->
  forward_pass_done point y2 u i -> forward_pass_done point y2' u' i.
Proof.
  intros Hy Hu. unfold forward_pass_done. cbv zeta.
  rewrite !Hy, !Hu by lia. tauto.
Qed.

Lemma spline_solve_forward_spec (y2 u : list R) (m : nat) :
  (S (S m) < length point)%nat ->
  (S m < length y2)%nat -> (S m < length u)%nat ->
  -1 < y2 !!! m <= 0 ->
  exists y2' u',
    spline_solve_forward point (y2, u) (S m) = (y2', u')
    /\ forward_pass_done point y2' u' (S m).
Proof.
  intros Hm Hly Hlu Hprev.
  unfold spline_solve_forward. eexists _, _. split; [reflexivity |].
  unfold forward_pass_done. cbv zeta. exact_arith.
  replace (S m - 1)%nat with m by lia. replace (S m + 1)%nat with (S (S m)) by lia.
  repeat first
    [ rewrite list_lookup_total_insert_eq by (rewrite ?length_insert; lia)
    | rewrite list_lookup_total_insert_ne by lia ].
  assert (H1 : x (point !!! m) < x (point !!! S m))
    by (apply increasing_x_lookup; [exact Hinc | lia]).
  assert (H2 : x (point !!! S m) < x (point !!! S (S m)))
    by (apply increasing_x_lookup; [exact Hinc | lia]).
  set (xm := x (point !!! m)) in *. set (xi := x (point !!! S m)) in *.
  set (xp := x (point !!! S (S m))) in *.
  set (sig := (xi - xm) / (xp - xm)).
  assert (Hsig : 0 < sig < 1).
  { unfold sig. split.
    - apply Rdiv_lt_0_compat; lra.
    - apply (Rmult_lt_reg_r (xp - xm)); [lra |].
      unfold Rdiv. rewrite Rmult_assoc, Rinv_l by lra. lra. }
  set (d := y2 !!! m) in *.
  assert (Hp : 1 < sig * d + 2 <= 2) by nra.
  split; [reflexivity |]. split; [reflexivity |].
  split.
  - apply (Rmult_lt_reg_r (sig * d + 2)); [lra |].
    unfold Rdiv. rewrite Rmult_assoc, Rinv_l by lra. nra.
  - apply (Rmult_le_reg_r (sig * d + 2)); [lra |].
    unfold Rdiv. rewrite Rmult_assoc, Rinv_l by lra. nra.
Qed.

Lemma spline_solve_forward_fold_spec (k : nat) :
  forall (m : nat) (y2 u : list R),
    (S (m + k) < length point)%nat ->
    (m + k < length y2)%nat -> (m + k < length u)%nat ->
    y2 !!! 0%nat = 0 -> u !!! 0%nat = 0 ->
    (forall i, (1 <= i <= m)%nat -> forward_pass_done point y2 u i) ->
    exists y2' u',
      fold_left (spline_solve_forward point) (seq (S m) k) (y2, u) = (y2', u')
      /\ (forall i, (1 <= i <= m + k)%nat -> forward_pass_done point y2' u' i).
Proof.
  induction k as [| k IH]; intros m y2 u Hm Hly Hlu Hy0 Hu0 Hdone.
  - cbn [seq fold_left]. exists y2, u. split; [reflexivity |].
    intros i Hi. apply Hdone. lia.
  - cbn [seq fold_left].
    assert (Hprev : -1 < y2 !!! m <= 0).
    { destruct m as [| m]; [rewrite Hy0; lra |]. apply (Hdone (S m)). lia. }
    destruct (spline_solve_forward_spec y2 u m) as (y2a & ua & Hstep & Hnew);
      [lia | lia | lia | exact Hprev |].
    destruct (spline_solve_forward_frame point y2 u (S m))
      as (y2a' & ua' & Hstep' & Hla & Hlua & Hfy & Hfu).
    rewrite Hstep in Hstep'. injection Hstep' as <- <-. rewrite Hstep.
    assert (Hty : forall j, j <> S m -> y2a !!! j = y2 !!! j).
    { intros j Hj. rewrite !list_lookup_total_alt, Hfy by exact Hj. reflexivity. }
    assert (Htu : forall j, j <> S m -> ua !!! j = u !!! j).
    { intros j Hj. rewrite !list_lookup_total_alt, Hfu by exact Hj. reflexivity. }
    destruct (IH (S m) y2a ua) as (y2b & ub & Hfold & Hall).
    + lia.
    + rewrite Hla. lia.
    + rewrite Hlua. lia.
    + rewrite Hty by lia. exact Hy0.
    + rewrite Htu by lia. exact Hu0.
    + intros i Hi. destruct (decide (i = S m)) as [-> | Hne]; [exact Hnew |].
      apply (forward_pass_done_frame y2 u).
      * intros j Hj. apply Hty. lia.
      * intros j Hj. apply Htu. lia.
      * apply Hdone. lia.
    + exists y2b, ub. split; [exact Hfold |].
      intros i Hi. apply Hall. lia.
Qed.

(** The back-substitution: each cell from [len] down to 1 becomes its
    own value times the final value of the next cell, plus [u]. *)
Lemma spline_solve_backward_fold_spec (u : list R) (len : nat) :
  forall (y2 : list R),
    (len < length y2)%nat ->
    let y2' := fold_left (spline_solve_backward u) (rev (seq 1 len)) y2 in
    forall k, (1 <= k <= len)%nat ->
      y2' !!! k = y2 !!! k * y2' !!! (k + 1)%nat + u !!! k.
Proof.
  induction len as [| len IH]; intros y2 Hl; cbv zeta; intros k Hk; [lia |].
  rewrite seq_S, rev_app_distr. cbn [rev app fold_left].
  set (y2a := spline_solve_backward u y2 (1 + len)).
  assert (Hla : length y2a = length y2) by apply length_insert.
  destruct (spline_solve_backward_fold_frame u len y2a) as [_ Hframe].
  cbv zeta in Hframe.
  assert (Htot : forall j, (len < j)%nat ->
            fold_left (spline_solve_backward u) (rev (seq 1 len)) y2a !!! j
            = y2a !!! j).
  { intros j Hj. rewrite !list_lookup_total_alt, Hframe by lia. reflexivity. }
  destruct (decide (k = S len)) as [-> | Hne].
  - rewrite !Htot by lia. unfold y2a, spline_solve_backward. exact_arith.
    rewrite list_lookup_total_insert_eq by lia.
    rewrite list_lookup_total_insert_ne by lia. reflexivity.
  - specialize (IH y2a ltac:(lia)). cbv zeta in IH. rewrite IH by lia.
    unfold y2a at 1, spline_solve_backward.
    rewrite list_lookup_total_insert_ne by lia. reflexivity.
Qed.

End SplineSystem.

(** X6.  pocspline.c, [spline_solve], in exact arithmetic: for control
    points with strictly increasing X the second derivatives it computes
    satisfy the equation of the cubic spline at every interior knot, which
    says that the first derivative of the curve is the same on both sides
    of the knot. *)
Theorem spline_solves_tridiagonal_system (points : PocPointArray R)
    (buffer : list R) (i : nat) :
  increasing_x points ->
  length buffer = length points ->
  (1 <= i)%nat -> (i + 1 < length points)%nat ->
  let n := length points in
  spline_equation points (spline_solve n points buffer) i.
Proof.
  intros Hinc Hlen Hi1 Hi2 n. unfold spline_solve. cbv zeta. exact_arith.
  set (y0 := <[0%nat := 0]> (<[(n - 1)%nat := 0]> buffer)).
  set (u0 := <[0%nat := 0]> (replicate (n - 1) 0)).
  assert (Hly0 : length y0 = n) by (unfold y0; rewrite !length_insert; exact Hlen).
  assert (Hlu0 : length u0 = (n - 1)%nat)
    by (unfold u0; rewrite length_insert, length_replicate; reflexivity).
  destruct (spline_solve_forward_fold_spec points Hinc (n - 2) 0 y0 u0)
    as (d & u & Hfold & Hdone).
  { fold n. lia. }
  { lia. }
  { lia. }
  { unfold y0. apply list_lookup_total_insert_eq. rewrite length_insert. lia. }
  { unfold u0. apply list_lookup_total_insert_eq. rewrite length_replicate. fold n. lia. }
  { intros j Hj. lia. }
  rewrite Hfold.
  destruct (spline_solve_forward_fold_frame points (n - 2) 1 y0 u0)
    as (d' & u' & Hfold' & Hld & Hlu & Hfy & Hfu).
  rewrite Hfold in Hfold'. injection Hfold' as <- <-.
  pose proof (spline_solve_backward_fold_spec u (n - 2) d ltac:(lia)) as Hback.
  destruct (spline_solve_backward_fold_frame u (n - 2) d) as [Hlf Hframe].
  cbv zeta in Hback, Hframe, Hlf.
  set (y2 := fold_left (spline_solve_backward u) (rev (seq 1 (n - 2))) d) in *.
  assert (Hd0 : d !!! 0%nat = 0).
  { rewrite list_lookup_total_alt, Hfy by lia. unfold y0.
    rewrite list_lookup_insert_eq by (rewrite length_insert; lia). reflexivity. }
  assert (Hu0 : u !!! 0%nat = 0).
  { rewrite list_lookup_total_alt, Hfu by lia. unfold u0.
    rewrite list_lookup_insert_eq by (rewrite length_replicate; fold n; lia).
    reflexivity. }
  assert (Hy0 : y2 !!! 0%nat = 0).
  { rewrite list_lookup_total_alt, Hframe by lia.
    rewrite <- list_lookup_total_alt. exact Hd0. }
  (* the cell before [i] obeys the recurrence too *)
  assert (Hprev : y2 !!! (i - 1)%nat
                  = d !!! (i - 1)%nat * y2 !!! i + u !!! (i - 1)%nat).
  { destruct (decide (i = 1)%nat) as [-> | Hne].
    - cbn [Nat.sub]. rewrite Hy0, Hd0, Hu0. ring.
    - rewrite (Hback (i - 1)%nat) by (fold n; lia).
      replace (i - 1 + 1)%nat with i by lia. reflexivity. }
  pose proof (Hback i ltac:(fold n; lia)) as Hhere.
  destruct (Hdone i ltac:(fold n; lia)) as (Hdi & Hui & _).
  assert (Hbound : -1 < d !!! (i - 1)%nat <= 0).
  { destruct (decide (i = 1)%nat) as [-> | Hne].
    - cbn [Nat.sub]. rewrite Hd0. lra.
    - apply (Hdone (i - 1)%nat). fold n. lia. }
  assert (H1 : x (points !!! (i - 1)%nat) < x (points !!! i))
    by (apply increasing_x_lookup; [exact Hinc | lia]).
  assert (H2 : x (points !!! i) < x (points !!! (i + 1)%nat))
    by (apply increasing_x_lookup; [exact Hinc | lia]).
  unfold spline_equation. cbv zeta.
  rewrite Hprev, Hhere, Hdi, Hui.
  set (xm := x (points !!! (i - 1)%nat)) in *. set (xi := x (points !!! i)) in *.
  set (xp := x (points !!! (i + 1)%nat)) in *.
  set (dm := d !!! (i - 1)%nat) in *.
  assert (Hsig : 0 < (xi - xm) / (xp - xm) < 1).
  { split.
    - apply Rdiv_lt_0_compat; lra.
    - apply (Rmult_lt_reg_r (xp - xm)); [lra |].
      unfold Rdiv. rewrite Rmult_assoc, Rinv_l by lra. lra. }
  assert (Hp : (xi - xm) / (xp - xm) * dm + 2 <> 0) by nra.
  field. repeat split; try lra.
  assert (0 < (xi - xm) * dm + 2 * (xp - xm)) by nra. lra.
Qed.

Lemma spline_solves_tridiagonal_system_witness :
  increasing_x example_points
  /\ spline_equation example_points
       (spline_solve 4 example_points (replicate 4 0)) 1
  /\ spline_equation example_points
       (spline_solve 4 example_points (replicate 4 0)) 2.
Proof.
  assert (Hinc : increasing_x example_points) by (cbn; repeat split; lra).
  split; [exact Hinc |]. split.
  - apply (spline_solves_tridiagonal_system example_points (replicate 4 0) 1 Hinc);
      cbn; lia.
  - apply (spline_solves_tridiagonal_system example_points (replicate 4 0) 2 Hinc);
      cbn; lia.
Defined.

Lemma on_line_lookup (m c : R) (points : PocPointArray R) (j : nat) :
  on_line m c points -> (j < length points)%nat ->
  y (points !!! j) = m * x (points !!! j) + c.
Proof.
  intros Hline Hj. unfold on_line in Hline. rewrite Forall_lookup in Hline.
  destruct (lookup_lt_is_Some_2 points j Hj) as [p Hp].
  rewrite (list_lookup_total_correct _ _ _ Hp). exact (Hline j p Hp).
Qed.

(** For control points on a straight line every second derivative is 0. *)
Lemma spline_solve_on_line (points : PocPointArray R) (buffer : list R) (m c : R) :
  (2 <= length points)%nat ->
  increasing_x points ->
  length buffer = length points ->
  on_line m c points ->
  let n := length points in
  forall k, (k < n)%nat -> spline_solve n points buffer !!! k = 0.
Proof.
  intros Hn Hinc Hlen Hline n. unfold spline_solve. cbv zeta. exact_arith.
  set (y0 := <[0%nat := 0]> (<[(n - 1)%nat := 0]> buffer)).
  set (u0 := <[0%nat := 0]> (replicate (n - 1) 0)).
  assert (Hly0 : length y0 = n) by (unfold y0; rewrite !length_insert; exact Hlen).
  assert (Hlu0 : length u0 = (n - 1)%nat)
    by (unfold u0; rewrite length_insert, length_replicate; reflexivity).
  destruct (spline_solve_forward_fold_spec points Hinc (n - 2) 0 y0 u0)
    as (d & u & Hfold & Hdone).
  { fold n. lia. }
  { lia. }
  { lia. }
  { unfold y0. apply list_lookup_total_insert_eq. rewrite length_insert. lia. }
  { unfold u0. apply list_lookup_total_insert_eq. rewrite length_replicate. fold n. lia. }
  { intros j Hj. lia. }
  rewrite Hfold.
  destruct (spline_solve_forward_fold_frame points (n - 2) 1 y0 u0)
    as (d' & u' & Hfold' & Hld & Hlu & Hfy & Hfu).
  rewrite Hfold in Hfold'. injection Hfold' as <- <-.
  pose proof (spline_solve_backward_fold_spec u (n - 2) d ltac:(lia)) as Hback.
  destruct (spline_solve_backward_fold_frame u (n - 2) d) as [Hlf Hframe].
  cbv zeta in Hback, Hframe, Hlf.
  set (y2 := fold_left (spline_solve_backward u) (rev (seq 1 (n - 2))) d) in *.
  assert (Hu0 : u !!! 0%nat = 0).
  { rewrite list_lookup_total_alt, Hfu by lia. unfold u0.
    rewrite list_lookup_insert_eq by (rewrite length_replicate; fold n; lia).
    reflexivity. }
  (* the right-hand sides vanish *)
  assert (Hu : forall i, (i <= n - 2)%nat -> u !!! i = 0).
  { induction i as [| i IH]; intros Hi; [exact Hu0 |].
    destruct (Hdone (S i) ltac:(fold n; lia)) as (_ & -> & _).
    replace (S i - 1)%nat with i by lia. rewrite IH by lia.
    rewrite !(on_line_lookup m c points) by (exact Hline || lia).
    assert (H1 : x (points !!! i) < x (points !!! S i))
      by (apply increasing_x_lookup; [exact Hinc | lia]).
    assert (H2 : x (points !!! S i) < x (points !!! (S i + 1)%nat))
      by (apply increasing_x_lookup; [exact Hinc | lia]).
    replace ((m * x (points !!! (S i + 1)%nat) + c - (m * x (points !!! S i) + c))
             / (x (points !!! (S i + 1)%nat) - x (points !!! S i))
             - (m * x (points !!! S i) + c - (m * x (points !!! i) + c))
               / (x (points !!! S i) - x (points !!! i))) with 0 by (field; lra).
    unfold Rdiv. ring. }
  (* and so do the second derivatives, from the last cell down *)
  assert (Hlast : y2 !!! (n - 1)%nat = 0).
  { rewrite list_lookup_total_alt, Hframe, Hfy by lia. unfold y0.
    rewrite list_lookup_insert_ne by lia.
    rewrite list_lookup_insert_eq by lia. reflexivity. }
  assert (Hfirst : y2 !!! 0%nat = 0).
  { rewrite list_lookup_total_alt, Hframe, Hfy by lia. unfold y0.
    rewrite list_lookup_insert_eq by (rewrite length_insert; lia). reflexivity. }
  assert (Hdown : forall j, (j <= n - 1)%nat -> y2 !!! (n - 1 - j)%nat = 0).
  { induction j as [| j IH]; intros Hj.
    - rewrite Nat.sub_0_r. exact Hlast.
    - destruct (decide (n - 1 - S j = 0)%nat) as [-> | Hnz]; [exact Hfirst |].
      rewrite Hback by lia.
      replace (n - 1 - S j + 1)%nat with (n - 1 - j)%nat by lia.
      rewrite IH, Hu by lia. ring. }
  intros k Hk. replace k with (n - 1 - (n - 1 - k))%nat by lia.
  apply Hdown. lia.
Qed.

(** X7.  pocspline.c, [spline_solve] and [spline_eval], in exact
    arithmetic: for at least two control points with strictly increasing X
    that lie on one straight line, the curve is that line: the value at
    any abscissa, between the control points or beyond them, is the value
    of the line. *)
Theorem spline_reproduces_lines (points : PocPointArray R) (buffer : list R)
    (m c val : R) :
  (2 <= length points)%nat ->
  increasing_x points ->
  length buffer = length points ->
  on_line m c points ->
  let n := length points in
  spline_eval n points (spline_solve n points buffer) val = m * val + c.
Proof.
  intros Hn Hinc Hlen Hline n. unfold spline_eval.
  pose proof (spline_bisect_adjacent points val (n - 1) 0 (n - 1)
                ltac:(lia) ltac:(lia)) as Hbound.
  destruct (spline_bisect (n - 1) points val 0 (n - 1)) as [lo hi].
  destruct Hbound as (-> & _ & Hhi).
  rewrite !(spline_solve_on_line points buffer m c Hn Hinc Hlen Hline) by (fold n; lia).
  rewrite !(on_line_lookup m c points) by (exact Hline || lia).
  assert (Hh : x (points !!! lo) < x (points !!! S lo))
    by (apply increasing_x_lookup; [exact Hinc | lia]).
  exact_arith. field. lra.
Qed.

Lemma spline_reproduces_lines_witness :
  let points : PocPointArray R :=
    [ {| x := 0; y := 1 |}; {| x := 1; y := 3 |}; {| x := 4; y := 9 |} ] in
  spline_eval 3 points (spline_solve 3 points (replicate 3 0)) (5 / 2) = 6.
Proof.
  cbv zeta.
  replace 6 with (2 * (5 / 2) + 1) by lra.
  apply (spline_reproduces_lines
           [ {| x := 0; y := 1 |}; {| x := 1; y := 3 |}; {| x := 4; y := 9 |} ]
           (replicate 3 0) 2 1 (5 / 2)).
  - cbn. lia.
  - cbn. repeat split; lra.
  - reflexivity.
  - unfold on_line. repeat (apply Forall_cons; split; [cbn; lra |]). apply Forall_nil_2.
Defined.

(** *** The grid: loops that never end *)

Section ForDouble.
Context {A : Type}.
Variables (cond : R -> bool) (step : R) (g : R -> list A).

(** A loop whose condition never fails is still running after any number
    of steps. *)
Lemma for_double_diverges :
  forall (fuel : nat) (v : R),
    (forall k : nat, cond (v + INR k * step) = true) ->
    for_double fuel cond step (fun v => Some (g v)) v = None.
Proof.
  induction fuel as [| fuel IH]; intros v Htrue; [reflexivity |].
  cbn [for_double]. exact_arith.
  assert (Hv : cond v = true).
  { specialize (Htrue 0%nat). cbn [INR] in Htrue.
    replace (v + 0 * step) with v in Htrue by lra. exact Htrue. }
  rewrite Hv, IH; [reflexivity |].
  intros k. specialize (Htrue (S k)). rewrite S_INR in Htrue.
  replace (v + step + INR k * step) with (v + (INR k + 1) * step) by lra.
  exact Htrue.
Qed.

End ForDouble.

Section UpdateBoundsMore.
Context {D : Type} `{!Double D, !Libm D}.
Implicit Type self : PocAxisPrivate D.

(** With [auto_interval] off the major interval is kept. *)
Lemma update_bounds_manual_interval self :
  auto_interval self = false ->
  major_interval (poc_axis_update_bounds self) = major_interval self.
Proof. intros Hauto. update_bounds_cases self; reflexivity. Qed.

End UpdateBoundsMore.

(** *** A negative major interval *)

(** With a negative major interval and a window at least as wide as the
    interval is long, the counter of the loop of the major grid lines
    moves away from its bound. *)
Lemma draw_grid_major_diverges (self : PocAxisPrivate R) :
  major_interval self < 0 ->
  lower_mode self - major_interval self <= upper_mode self ->
  forall fuel : nat, poc_axis_draw_grid_major fuel self = None.
Proof.
  intros Hneg Hspan fuel.
  unfold poc_axis_draw_grid_major, poc_axis_draw_grid_line.
  apply (for_double_diverges _ _ (fun xy => [xy])). intros k. exact_arith.
  apply Rleb_true.
  pose proof (Zfloor_bound (lower_mode self / major_interval self)) as [_ Hhi].
  pose proof (Zceil_bound (upper_mode self)) as [_ Hceil].
  assert (Hfloor : lower_floor self < lower_mode self - major_interval self).
  { unfold lower_floor. exact_arith.
    set (q := lower_mode self / major_interval self) in *.
    assert (Hq : q * major_interval self = lower_mode self)
      by (unfold q; field; lra).
    nra. }
  assert (Hk : 0 <= INR k) by apply pos_INR.
  nra.
Qed.

(** X10.  pocaxis.c, [poc_axis_draw_grid], in exact arithmetic: with a
    negative major interval, which [poc_axis_set_major_interval] accepts,
    and a window at least as wide as the interval is long, the counter of
    the loop of the major grid lines moves away from its bound: after any
    number of passes the loop is still running, and the function does not
    return. *)
Theorem negative_interval_never_ends (self : PocAxisPrivate R) :
  major_interval self < 0 ->
  lower_mode self - major_interval self <= upper_mode self ->
  forall fuel : nat,
    poc_axis_draw_grid_major fuel self = None
    /\ poc_axis_draw_grid fuel self = None.
Proof.
  intros Hneg Hspan fuel.
  pose proof (draw_grid_major_diverges self Hneg Hspan fuel) as Hmajor.
  split; [exact Hmajor |]. unfold poc_axis_draw_grid. rewrite Hmajor. reflexivity.
Qed.

(** *** Examples of the grid *)

Lemma negative_interval_never_ends_witness :
  let self : PocAxisPrivate R := poc_axis_set_major_interval poc_axis_init (-1) in
  major_interval self = -1
  /\ lower_mode self = 0 /\ upper_mode self = 1
  /\ forall fuel : nat, poc_axis_draw_grid fuel self = None.
Proof.
  cbv zeta. unfold poc_axis_set_major_interval.
  set (s := set_auto_interval false (set_major_interval (-1) poc_axis_init)).
  destruct new_axis_state as (Hmode & Hlb & Hub & _).
  assert (Hmajor : major_interval (poc_axis_update_bounds s) = -1)
    by (rewrite update_bounds_manual_interval; reflexivity).
  destruct (update_bounds_swap s) as [_ Hkeep].
  destruct Hkeep as [Hlb' Hub'].
  { unfold s. cbn [lower_bound upper_bound set_auto_interval set_major_interval].
    rewrite Hlb, Hub. lra. }
  destruct (update_bounds_linear_mode s Hmode) as [Hlm Hum].
  assert (Hlower : lower_mode (poc_axis_update_bounds s) = 0).
  { rewrite Hlm, Hlb'. exact Hlb. }
  assert (Hupper : upper_mode (poc_axis_update_bounds s) = 1).
  { rewrite Hum, Hub'. exact Hub. }
  split; [exact Hmajor |]. split; [exact Hlower |]. split; [exact Hupper |].
  intros fuel.
  apply (negative_interval_never_ends (poc_axis_update_bounds s)).
  - rewrite Hmajor. lra.
  - rewrite Hmajor, Hlower, Hupper. lra.
Defined.


Local Close Scope R_scope.



Local Open Scope R_scope.


(** *** Logarithmic axes, the adjustment and the labels *)

Section UpdateBoundsOctave.
Context {D : Type} `{!Double D, !Libm D}.

Lemma update_bounds_octave_mode (self : PocAxisPrivate D) :
  axis_mode self = POC_AXIS_LOG_OCTAVE ->
  let self' := poc_axis_update_bounds self in
  lower_mode self' = log2 (lower_bound self')
  /\ upper_mode self' = log2 (upper_bound self').
Proof. intros Hmode. update_bounds_cases self; split; reflexivity. Qed.

End UpdateBoundsOctave.

(** Logarithms to a base above 1 increase, and turn products into sums. *)
Lemma log_base_increasing (b v1 v2 : R) :
  1 < b -> 0 < v1 -> v1 <= v2 -> ln v1 / ln b <= ln v2 / ln b.
Proof.
  intros Hb Hv1 Hle.
  assert (Hlnb : 0 < ln b) by (rewrite <- ln_1; apply ln_increasing; lra).
  assert (Hln : ln v1 <= ln v2).
  { destruct Hle as [Hlt | ->]; [left; apply ln_increasing; lra | lra]. }
  unfold Rdiv. apply Rmult_le_compat_r; [| exact Hln].
  left. apply Rinv_0_lt_compat. exact Hlnb.
Qed.

Lemma log_base_strict (b v1 v2 : R) :
  1 < b -> 0 < v1 -> v1 < v2 -> ln v1 / ln b < ln v2 / ln b.
Proof.
  intros Hb Hv1 Hlt.
  assert (Hlnb : 0 < ln b) by (rewrite <- ln_1; apply ln_increasing; lra).
  unfold Rdiv. apply Rmult_lt_compat_r; [apply Rinv_0_lt_compat; exact Hlnb |].
  apply ln_increasing; lra.
Qed.

Lemma project_mode_value (self : PocAxisPrivate R) (v : R) (norm : Z) :
  poc_axis_project self v norm
  = poc_axis_linear_project self (mode_value self v) norm.
Proof. unfold poc_axis_project, mode_value. destruct (axis_mode self); reflexivity. Qed.

(** After [poc_axis_update_bounds] the window of an axis is the range of
    its bounds in mode space. *)
Lemma update_bounds_window (s : PocAxisPrivate R) :
  let self := poc_axis_update_bounds s in
  lower_mode self = mode_value self (lower_bound self)
  /\ upper_mode self = mode_value self (upper_bound self).
Proof.
  cbv zeta. unfold mode_value. rewrite update_bounds_axis_mode.
  destruct (axis_mode s) eqn:Hmode.
  - apply update_bounds_linear_mode. exact Hmode.
  - apply update_bounds_octave_mode. exact Hmode.
  - apply update_bounds_decade_mode. exact Hmode.
Qed.

(** X2.  pocaxis.c, [poc_axis_update_bounds] and [poc_axis_project], in
    exact arithmetic: on an axis in octave or decade mode whose window in
    mode space is the range of its bounds ([lower_mode] and [upper_mode]
    are the logarithms of [lower_bound] and [upper_bound]), with bounds
    0 < lower < upper and [norm] > 0, the lower bound is projected to 0 and
    the upper bound to [norm] - 1, the projection increases with the value
    on the positive values, and equal ratios of values are equal
    distances: the distance between the projections of k * v and v does not
    depend on v.  [poc_axis_update_bounds] leaves the window at the range
    of the bounds. *)
Theorem log_axis_projection :
  (forall (self : PocAxisPrivate R) (norm : Z),
     axis_mode self <> POC_AXIS_LINEAR ->
     lower_mode self = mode_value self (lower_bound self) ->
     upper_mode self = mode_value self (upper_bound self) ->
     0 < lower_bound self < upper_bound self ->
     (0 < norm)%Z ->
     poc_axis_project self (lower_bound self) norm = 0
     /\ poc_axis_project self (upper_bound self) norm = IZR norm - 1
     /\ (forall v1 v2, 0 < v1 <= v2 ->
           poc_axis_project self v1 norm <= poc_axis_project self v2 norm)
     /\ (forall v k, 0 < v -> 0 < k ->
           poc_axis_project self (k * v) norm - poc_axis_project self v norm
           = poc_axis_project self (k * lower_bound self) norm))
  /\ (forall s : PocAxisPrivate R,
        let self := poc_axis_update_bounds s in
        lower_mode self = mode_value self (lower_bound self)
        /\ upper_mode self = mode_value self (upper_bound self)).
Proof.
  split; [| exact update_bounds_window].
  intros self norm Hmode Hlower Hupper Hbounds Hnorm.
  assert (Hmodes : exists b, 1 < b
            /\ lower_mode self = ln (lower_bound self) / ln b
            /\ upper_mode self = ln (upper_bound self) / ln b
            /\ forall v, mode_value self v = ln v / ln b).
  { unfold mode_value in *. destruct (axis_mode self) eqn:Hm; [contradiction | |].
    - exists 2. split; [lra |]. split; [exact Hlower |]. split; [exact Hupper |].
      intros v. reflexivity.
    - exists 10. split; [lra |]. split; [exact Hlower |]. split; [exact Hupper |].
      intros v. reflexivity. }
  destruct Hmodes as (b & Hb & Hlm & Hum & Hval).
  assert (Hlnb : 0 < ln b) by (rewrite <- ln_1; apply ln_increasing; lra).
  assert (Hspan : lower_mode self < upper_mode self).
  { rewrite Hlm, Hum. apply log_base_strict; lra. }
  assert (Hscale : 0 <= IZR norm - 1).
  { assert (1 <= norm)%Z as H1%IZR_le by lia. lra. }
  assert (Hw : 0 < / (upper_mode self - lower_mode self))
    by (apply Rinv_0_lt_compat; lra).
  rewrite !project_mode_value, !Hval.
  split; [| split; [| split]].
  - rewrite linear_project_pos by exact Hnorm. rewrite <- Hlm.
    unfold Rdiv. rewrite Rminus_diag. ring.
  - rewrite linear_project_pos by exact Hnorm. rewrite <- Hum.
    unfold Rdiv. rewrite Rinv_r by lra. ring.
  - intros v1 v2 [Hv1 Hle]. rewrite !project_mode_value, !Hval.
    rewrite !linear_project_pos by exact Hnorm.
    apply Rmult_le_compat_r; [exact Hscale |].
    pose proof (log_base_increasing b v1 v2 Hb Hv1 Hle) as Hlog.
    set (t1 := ln v1 / ln b) in *. set (t2 := ln v2 / ln b) in *.
    unfold Rdiv. apply Rmult_le_compat_r.
    + left. exact Hw.
    + lra.
  - intros v k Hv Hk. rewrite !project_mode_value, !Hval.
    rewrite !linear_project_pos by exact Hnorm.
    rewrite !ln_mult by lra.
    replace ((ln k + ln v) / ln b) with (ln k / ln b + ln v / ln b) by (field; lra).
    replace ((ln k + ln (lower_bound self)) / ln b)
      with (ln k / ln b + lower_mode self) by (rewrite Hlm; field; lra).
    field. lra.
Qed.

Lemma log_project_witness_state :
  let self : PocAxisPrivate R :=
    poc_axis_configure poc_axis_init POC_AXIS_LOG_OCTAVE 1 8 in
  axis_mode self = POC_AXIS_LOG_OCTAVE
  /\ lower_bound self = 1 /\ upper_bound self = 8.
Proof.
  cbv zeta. unfold poc_axis_configure.
  set (s := set_axis_mode POC_AXIS_LOG_OCTAVE
              (set_upper_bound 8 (set_lower_bound 1 poc_axis_init))).
  destruct (update_bounds_swap s) as [_ Hkeep].
  destruct Hkeep as [Hlb Hub]; [unfold s; cbn; lra |].
  rewrite update_bounds_axis_mode, Hlb, Hub. repeat split; reflexivity.
Qed.

Lemma log_axis_projection_witness :
  let self : PocAxisPrivate R :=
    poc_axis_configure poc_axis_init POC_AXIS_LOG_OCTAVE 1 8 in
  axis_mode self <> POC_AXIS_LINEAR
  /\ lower_mode self = mode_value self (lower_bound self)
  /\ upper_mode self = mode_value self (upper_bound self)
  /\ poc_axis_project self 1 100 = 0
  /\ poc_axis_project self 8 100 = 99
  /\ poc_axis_project self 4 100 - poc_axis_project self 2 100
     = poc_axis_project self 2 100.
Proof.
  intros self. destruct log_project_witness_state as (Hmode & Hlb & Hub).
  fold self in Hmode, Hlb, Hub.
  destruct log_axis_projection as [Hproject Hwindow].
  destruct (Hwindow (set_axis_mode POC_AXIS_LOG_OCTAVE
                       (set_upper_bound 8 (set_lower_bound 1 poc_axis_init))))
    as [Hlower Hupper].
  fold (poc_axis_configure (D := R) poc_axis_init POC_AXIS_LOG_OCTAVE 1 8)
    in Hlower, Hupper.
  fold self in Hlower, Hupper.
  assert (Hlog : axis_mode self <> POC_AXIS_LINEAR) by (rewrite Hmode; discriminate).
  split; [exact Hlog |]. split; [exact Hlower |]. split; [exact Hupper |].
  destruct (Hproject self 100%Z Hlog Hlower Hupper) as (Hlow & Hup & _ & Hratio).
  - rewrite Hlb, Hub. lra.
  - lia.
  - rewrite Hlb in Hlow, Hratio. rewrite Hub in Hup.
    split; [exact Hlow |]. split; [rewrite Hup; lra |].
    specialize (Hratio 2 2 ltac:(lra) ltac:(lra)).
    replace (2 * 2) with 4 in Hratio by lra.
    replace (2 * 1) with 2 in Hratio by lra. exact Hratio.
Defined.

(** *** The adjustment *)

Lemma log2_exp2 (v : R) : log2 (exp2 v) = v.
Proof.
  cbn [log2 exp2 real_libm]. unfold Rpower. rewrite ln_exp.
  assert (H2 : 0 < ln 2) by (rewrite <- ln_1; apply ln_increasing; lra).
  field. lra.
Qed.

Lemma log10_exp10 (v : R) : log10 (exp10 v) = v.
Proof.
  cbn [log10 exp10 real_libm]. unfold Rpower. rewrite ln_exp.
  assert (H10 : 0 < ln 10) by (rewrite <- ln_1; apply ln_increasing; lra).
  field. lra.
Qed.

(** X11.  pocaxis.c, [poc_axis_adj_value_changed] and
    [poc_axis_adj_changed], in exact arithmetic: after either handler has
    run for the adjustment of the axis, whose page size is not 0, the
    window of the axis in mode space starts at the value of the adjustment
    and is one page long, and for [norm] > 0 the two ends of the displayed
    range are projected to 0 and to [norm] - 1, in every mode of the
    axis. *)
Theorem scroll_window_projection (self : PocAxisPrivate R) (adj : GtkAdjustment R)
    (norm : Z) :
  adjustment self = Some adj ->
  adj_page_size adj <> 0 ->
  (0 < norm)%Z ->
  forall self',
    self' = poc_axis_adj_value_changed adj self
    \/ self' = poc_axis_adj_changed adj self ->
    lower_mode self' = adj_value adj
    /\ upper_mode self' = adj_value adj + adj_page_size adj
    /\ poc_axis_project self' (fst (poc_axis_get_display_range self')) norm = 0
    /\ poc_axis_project self' (snd (poc_axis_get_display_range self')) norm
       = IZR norm - 1.
Proof.
  intros Hadj Hpage Hnorm self' Hself'.
  assert (Hstate : lower_mode self' = adj_value adj
                   /\ upper_mode self' = adj_value adj + adj_page_size adj
                   /\ adjustment self' = Some adj
                   /\ axis_mode self' = axis_mode self).
  { destruct Hself' as [-> | ->].
    - repeat split; try reflexivity. exact Hadj.
    - unfold poc_axis_adj_changed.
      destruct (axis_mode self) eqn:Hm; cbn; rewrite ?Hm; repeat split;
        try reflexivity; exact Hadj. }
  destruct Hstate as (Hlm & Hum & Hadj' & _).
  split; [exact Hlm |]. split; [exact Hum |].
  unfold poc_axis_get_display_range. rewrite Hadj'.
  rewrite !project_mode_value. unfold mode_value.
  destruct (axis_mode self'); cbn [fst snd];
    rewrite ?log2_exp2, ?log10_exp10, !linear_project_pos by exact Hnorm;
    exact_arith; rewrite Hlm, Hum; split; field; lra.
Qed.

Lemma scroll_window_projection_witness :
  let adj : GtkAdjustment R :=
    {| adj_value := 2; adj_lower := 0; adj_upper := 10; adj_page_size := 4 |} in
  let self : PocAxisPrivate R :=
    {| axis_mode := POC_AXIS_LOG_DECADE;
       lower_bound := 1; upper_bound := 100;
       major_interval := 1; auto_interval := true; minor_divisions := 5;
       adjustment := Some adj; lower_mode := 0; upper_mode := 2;
       minor_interval := 1 / 5 |} in
  let self' := poc_axis_adj_changed adj self in
  lower_mode self' = 2 /\ upper_mode self' = 2 + 4
  /\ poc_axis_project self' (fst (poc_axis_get_display_range self')) 100 = 0.
Proof.
  intros adj self self'.
  destruct (scroll_window_projection self adj 100) with (self' := self')
    as (Hlm & Hum & Hlow & _).
  - reflexivity.
  - cbn. lra.
  - lia.
  - right. reflexivity.
  - split; [exact Hlm |]. split; [exact Hum |]. exact Hlow.
Defined.

(** *** Tick labels *)

Lemma gint_of_guint_small (v : Z) : (0 <= v < 2 ^ 31)%Z -> gint_of_guint v = v.
Proof.
  intros Hv. unfold gint_of_guint.
  destruct (Z.ltb_spec v (2 ^ 31)); [reflexivity | lia].
Qed.

Lemma gint_of_guint_neg (v : Z) :
  (1 <= v < 2 ^ 31)%Z -> gint_of_guint (guint_neg v) = (- v)%Z.
Proof.
  intros Hv. unfold gint_of_guint, guint_neg, guint_max.
  replace ((- v) mod 2 ^ 32)%Z with (2 ^ 32 - v)%Z.
  - destruct (Z.ltb_spec (2 ^ 32 - v) (2 ^ 31)); lia.
  - apply Z.mod_unique with (q := (-1)%Z); lia.
Qed.

(** X12.  pocaxis.c, [poc_axis_label_tick], in exact arithmetic: the label
    of a tick is left out exactly when the tick is projected at or beyond
    the far edge.  When it is drawn on a horizontal axis, a label at least
    one pixel narrower than the axis ([extents.width <= width - 1]) lies
    between the left and the right edge; on a vertical axis a label whose
    height [- extents.y_bearing] is at most [height - 1] lies between the
    top and the bottom edge. *)
Theorem tick_labels_stay_inside (self : PocAxisPrivate R) (pack : GtkPackType)
    (width height : Z) (extents : cairo_text_extents_t R) (xy size : R) :
  (1 <= width < 2 ^ 31)%Z ->
  (1 <= height < 2 ^ 31)%Z ->
  let horizontal :=
    poc_axis_label_tick self GTK_ORIENTATION_HORIZONTAL pack
      width height extents xy size in
  let vertical :=
    poc_axis_label_tick self GTK_ORIENTATION_VERTICAL pack
      width height extents xy size in
  (horizontal = None <-> IZR width <= poc_axis_linear_project self xy width)
  /\ (0 <= extents_width extents <= IZR width - 1 ->
      forall px py, horizontal = Some (px, py) ->
        0 <= px /\ px + extents_width extents < IZR width)
  /\ (vertical = None <-> IZR height <= poc_axis_linear_project self xy (- height))
  /\ (0 <= - extents_y_bearing extents <= IZR height - 1 ->
      forall px py, vertical = Some (px, py) ->
        0 <= py + extents_y_bearing extents /\ py < IZR height).
Proof.
  intros Hwidth Hheight. cbv zeta. unfold poc_axis_label_tick, d_opp.
  rewrite gint_of_guint_small by lia. rewrite gint_of_guint_neg by lia.
  exact_arith. rewrite ?guint_sub_1 by (unfold guint_max; lia).
  generalize (poc_axis_linear_project self xy width). intros pos.
  generalize (poc_axis_linear_project self xy (- height)). intros vpos.
  split; [| split; [| split]].
  - destruct (Rlt_le_dec pos (IZR width)) as [Hin | Hout].
    + rewrite (Rleb_false (IZR width) pos) by exact Hin.
      split; [discriminate | lra].
    + rewrite (Rleb_true (IZR width) pos) by exact Hout.
      split; [intros _; exact Hout | reflexivity].
  - intros Hfit px py. split_cmp; intros [= <- <-] || discriminate; lra.
  - destruct (Rlt_le_dec vpos (IZR height)) as [Hin | Hout].
    + rewrite (Rleb_false (IZR height) vpos) by exact Hin.
      split; [discriminate | lra].
    + rewrite (Rleb_true (IZR height) vpos) by exact Hout.
      split; [intros _; exact Hout | reflexivity].
  - intros Hfit px py. split_cmp; intros [= <- <-] || discriminate; lra.
Qed.

Lemma tick_labels_stay_inside_witness :
  let self : PocAxisPrivate R :=
    poc_axis_configure poc_axis_init POC_AXIS_LINEAR 0 50 in
  let extents : cairo_text_extents_t R :=
    {| extents_y_bearing := -8; extents_width := 30 |} in
  match poc_axis_label_tick self GTK_ORIENTATION_HORIZONTAL GTK_PACK_START
          101 20 extents 0 10 with
  | Some (px, _) => 0 <= px /\ px + 30 < 101
  | None => 101 <= poc_axis_linear_project self 0 101
  end.
Proof.
  intros self extents.
  destruct (tick_labels_stay_inside self GTK_PACK_START 101 20 extents 0 10)
    as (Hnone & Hhorizontal & _); [lia | lia |].
  destruct (poc_axis_label_tick self GTK_ORIENTATION_HORIZONTAL GTK_PACK_START
              101 20 extents 0 10) as [[px py] |].
  - apply (Hhorizontal ltac:(cbn; lra) px py eq_refl).
  - apply Hnone. reflexivity.
Defined.


(** *** What a dataset draws *)

Local Close Scope R_scope.

Section DrawingLoops.
Context {D : Type} `{!Double D, !Libm D}.
Variables (x_axis y_axis : PocAxisPrivate D) (width height : Z).

Lemma draw_line_to_loop_spec (points : PocPointArray D) :
  forall (count i : nat) (path : list (D * D)),
    (i + count <= length points)%nat ->
    draw_line_to_loop x_axis y_axis width height points count i path
    = path ++ (dataset_vertex x_axis y_axis width height
               <$> take count (drop i points)).
Proof.
  induction count as [| count IH]; intros i path Hlen; cbn [draw_line_to_loop].
  - rewrite take_0. cbn. rewrite app_nil_r. reflexivity.
  - cbv zeta. rewrite IH by lia. rewrite <- app_assoc. f_equal.
    destruct (lookup_lt_is_Some_2 points i ltac:(lia)) as [p Hp].
    rewrite (list_lookup_total_correct _ _ _ Hp).
    rewrite (drop_S _ _ _ Hp). reflexivity.
Qed.

Lemma draw_markers_loop_spec (spline : PocPointArray D) :
  forall (count i : nat) (arcs : list (D * D)),
    (i + count <= length spline)%nat ->
    draw_markers_loop x_axis y_axis width height spline count i arcs
    = arcs ++ (dataset_vertex x_axis y_axis width height
               <$> take count (drop i spline)).
Proof.
  induction count as [| count IH]; intros i arcs Hlen; cbn [draw_markers_loop].
  - rewrite take_0. cbn. rewrite app_nil_r. reflexivity.
  - cbv zeta. rewrite IH by lia. rewrite <- app_assoc. f_equal.
    destruct (lookup_lt_is_Some_2 spline i ltac:(lia)) as [p Hp].
    rewrite (list_lookup_total_correct _ _ _ Hp).
    rewrite (drop_S _ _ _ Hp). reflexivity.
Qed.

(** The plot line has one vertex for each point of a non-empty array, in
    the order of the array. *)
Lemma draw_plot_line_spec (points : PocPointArray D) :
  points <> [] ->
  draw_plot_line x_axis y_axis width height points
  = Drawn (dataset_vertex x_axis y_axis width height <$> points).
Proof.
  destruct points as [| p rest]; [contradiction |]. intros _.
  unfold draw_plot_line. cbv zeta. f_equal.
  rewrite draw_line_to_loop_spec by (cbn; lia).
  cbn [length Nat.sub drop]. change (drop 0 rest) with rest.
  rewrite Nat.sub_0_r, take_ge by lia. reflexivity.
Qed.

End DrawingLoops.

Local Open Scope R_scope.




(** The samples [poc_spline_get_points] returns. *)
Lemma get_points_samples (points : PocPointArray R) (min_x max_x : R) (veclen : Z) :
  (2 <= length points)%nat ->
  (2 <= veclen < guint_max)%Z ->
  let n := length points in
  let y2v := spline_solve n points (replicate n 0) in
  let position (i : nat) :=
    min_x + INR i * ((max_x - min_x) / (IZR veclen - 1)) in
  poc_spline_get_points points min_x max_x veclen
  = Returned ((fun i => {| x := position i;
                           y := spline_eval n points y2v (position i) |})
              <$> seq 0 (Z.to_nat veclen)).
Proof.
  intros Hpoints Hveclen n y2v position. unfold poc_spline_get_points.
  destruct (Nat.leb_spec 2 (length points)) as [_ | Hlt]; [| lia].
  destruct (Z.eqb_spec veclen 0) as [-> | _]; [lia |].
  cbn [negb]. cbv zeta. exact_arith.
  rewrite guint_sub_1 by lia. rewrite get_points_loop_spec. reflexivity.
Qed.

(** X14.  pocdatasetspline.c, [poc_dataset_spline_draw], in exact
    arithmetic: a curve dataset of at least two control points drawn at a
    width of at least 4 pixels, with no cache for that width, is
    resampled at [width / 4 + 1] abscissas that divide the displayed range
    of the X axis evenly, from its lower end to its upper end; the samples
    are kept as the cache and are the vertices of the curve, and the
    control points are the markers when markers are shown. *)
Theorem curve_resampled_every_four_pixels (priv : PocDatasetPrivate R)
    (fields : PocDatasetSplineFields R) (x_axis' y_axis' : PocAxisPrivate R)
    (points : PocPointArray R) (width height : Z) :
  priv_points priv = Some points ->
  x_axis priv = Some x_axis' ->
  y_axis priv = Some y_axis' ->
  (2 <= length points)%nat ->
  (4 <= width < guint_max)%Z ->
  self_points fields = None \/ cache_width fields <> width ->
  let dataset := DatasetSpline priv fields in
  let min_x := fst (poc_axis_get_display_range x_axis') in
  let max_x := snd (poc_axis_get_display_range x_axis') in
  let count := Z.to_nat (width / 4 + 1) in
  let position (i : nat) := min_x + INR i * ((max_x - min_x) / IZR (width / 4)) in
  let n := length points in
  let y2v := spline_solve n points (replicate n 0) in
  let cache := (fun i => {| x := position i;
                            y := spline_eval n points y2v (position i) |})
               <$> seq 0 count in
  let vertex := dataset_vertex x_axis' y_axis' width height in
  dataset_cache (poc_dataset_draw dataset width) = Some cache
  /\ position 0%nat = min_x
  /\ position (count - 1)%nat = max_x
  /\ poc_dataset_draw_path dataset width height
     = Drawn (vertex <$> cache,
              if show_markers fields then vertex <$> points else []).
Proof.
  intros Hpoints Hx Hy Hlen Hwidth Hstale dataset min_x max_x count position
    n y2v cache vertex.
  assert (Hquot : (1 <= width / 4 < guint_max - 1)%Z).
  { unfold guint_max in *. split.
    - apply Z.div_le_lower_bound; lia.
    - apply Z.div_lt_upper_bound; lia. }
  assert (Hveclen : guint_add (width / 4) 1 = (width / 4 + 1)%Z).
  { unfold guint_add. apply Z.mod_small. lia. }
  assert (Hrefresh : match self_points fields with None => true | Some _ => false end
                     || negb (cache_width fields =? width)%Z = true).
  { destruct Hstale as [-> | Hne]; [reflexivity |].
    destruct (Z.eqb_spec (cache_width fields) width); [contradiction |].
    apply orb_true_r. }
  assert (Hcache : dataset_cache (poc_dataset_spline_draw dataset width) = Some cache).
  { unfold dataset, poc_dataset_spline_draw, poc_dataset_get_points.
    cbn [dataset_priv]. rewrite Hpoints, Hx, Hrefresh.
    destruct (poc_axis_get_display_range x_axis') as [lo hi] eqn:Hrange.
    rewrite Hveclen.
    rewrite get_points_samples by lia.
    cbn [dataset_cache self_points]. f_equal. unfold cache, count.
    apply list_fmap_ext. intros _ i _. unfold position, min_x, max_x.
    cbn [fst snd]. fold n. fold y2v.
    replace (IZR (width / 4 + 1) - 1) with (IZR (width / 4))
      by (rewrite plus_IZR; lra).
    reflexivity. }
  split; [| split; [| split]].
  - unfold poc_dataset_draw, dataset. cbn [dataset_priv]. rewrite Hx, Hy.
    exact Hcache.
  - unfold position. cbn [INR]. lra.
  - unfold position, count.
    assert (HINR : INR (Z.to_nat (width / 4 + 1) - 1) = IZR (width / 4)).
    { replace (Z.to_nat (width / 4 + 1) - 1)%nat with (Z.to_nat (width / 4)) by lia.
      rewrite INR_IZR_INZ, Z2Nat.id by lia. reflexivity. }
    rewrite HINR.
    assert (Hnz : IZR (width / 4) <> 0).
    { assert (1 <= width / 4)%Z as H1%IZR_le by lia. lra. }
    field. exact Hnz.
  - unfold poc_dataset_draw_path, dataset. cbn [dataset_priv]. rewrite Hx, Hy.
    unfold poc_dataset_spline_draw_path.
    fold dataset. rewrite Hcache.
    unfold dataset at 1. unfold poc_dataset_get_points. cbn [dataset_priv].
    rewrite Hpoints, Hx, Hy.
    rewrite draw_plot_line_spec.
    + rewrite draw_markers_loop_spec by (cbn; lia).
      cbn [app]. change (drop 0 points) with points.
      rewrite take_ge by lia. reflexivity.
    + unfold cache, count.
      replace (Z.to_nat (width / 4 + 1)) with (S (Z.to_nat (width / 4))) by lia.
      discriminate.
Qed.

Lemma curve_resampled_every_four_pixels_witness :
  let axis : PocAxisPrivate R :=
    {| axis_mode := POC_AXIS_LINEAR;
       lower_bound := 0; upper_bound := 3;
       major_interval := 1; auto_interval := true; minor_divisions := 5;
       adjustment := None; lower_mode := 0; upper_mode := 3;
       minor_interval := 1 / 5 |} in
  let dataset : PocDataset R :=
    DatasetSpline
      {| priv_points := Some example_points;
         x_axis := Some axis; y_axis := Some axis |}
      {| show_markers := true; self_points := None; cache_width := 0 |} in
  exists cache,
    dataset_cache (poc_dataset_draw dataset 400) = Some cache
    /\ length cache = 101%nat
    /\ exists path,
         poc_dataset_draw_path dataset 400 200
         = Drawn (path, dataset_vertex axis axis 400 200 <$> example_points).
Proof.
  intros axis dataset.
  destruct (curve_resampled_every_four_pixels
              {| priv_points := Some example_points;
                 x_axis := Some axis; y_axis := Some axis |}
              {| show_markers := true; self_points := None; cache_width := 0 |}
              axis axis example_points 400 200
              eq_refl eq_refl eq_refl ltac:(cbn; lia)
              ltac:(unfold guint_max; lia) (or_introl eq_refl))
    as (Hcache & _ & _ & Hpath).
  fold dataset in Hcache, Hpath.
  eexists. split; [exact Hcache |].
  split; [rewrite length_fmap, length_seq; reflexivity |].
  eexists. exact Hpath.
Defined.

(** *** Too few points *)

Section TooFewPoints.
Context {D : Type} `{!Double D, !Libm D}.

(** X15.  pocdatasetspline.c and pocdataset.c, the draw methods of a
    dataset with both axes set, in any arithmetic.  A curve dataset given
    fewer than two control points has no cache after
    [poc_spline_get_points] has refused them, and its draw method reads
    through that NULL pointer.  A plain dataset given an empty array moves
    to the first point of an array that has none; one without points draws
    nothing. *)
Theorem drawing_needs_enough_points (priv : PocDatasetPrivate D)
    (fields : PocDatasetSplineFields D) (x_axis' y_axis' : PocAxisPrivate D)
    (points : PocPointArray D) (width height : Z) :
  x_axis priv = Some x_axis' ->
  y_axis priv = Some y_axis' ->
  (length points < 2)%nat ->
  poc_dataset_draw_path
    (poc_dataset_set_points (DatasetSpline priv fields) (Some points))
    width height = NullDereference
  /\ poc_dataset_draw_path
       (poc_dataset_set_points (Dataset priv) (Some []))
       width height = OutOfBounds
  /\ poc_dataset_draw_path
       (poc_dataset_set_points (Dataset priv) None)
       width height = NotDrawn.
Proof.
  intros Hx Hy Hlen. split; [| split].
  - assert (Hnull : forall min_x max_x veclen,
              poc_spline_get_points points min_x max_x veclen
              = Critical "n_points >= 2").
    { intros. unfold poc_spline_get_points.
      destruct (Nat.leb_spec 2 (length points)) as [Hge | _]; [lia | reflexivity]. }
    assert (Hset : exists fields',
              poc_dataset_set_points (DatasetSpline priv fields) (Some points)
              = DatasetSpline
                  {| priv_points := Some points;
                     x_axis := x_axis priv; y_axis := y_axis priv |} fields'
              /\ self_points fields' = None).
    { unfold poc_dataset_set_points, poc_dataset_invalidate, set_priv_points,
        poc_dataset_spline_invalidate, poc_dataset_invalidate_real.
      destruct (self_points fields) as [cache |] eqn:Hsp;
        eexists; (split; [reflexivity |]); [reflexivity | exact Hsp]. }
    destruct Hset as (fields' & -> & Hsp).
    unfold poc_dataset_draw_path, poc_dataset_spline_draw_path,
      poc_dataset_spline_draw, poc_dataset_get_points.
    cbn [dataset_priv priv_points x_axis y_axis]. rewrite Hx, Hy, Hsp.
    cbn [orb]. destruct (poc_axis_get_display_range x_axis') as [lo hi].
    rewrite Hnull. reflexivity.
  - unfold poc_dataset_draw_path, poc_dataset_draw_real. cbn. rewrite Hx, Hy.
    reflexivity.
  - unfold poc_dataset_draw_path, poc_dataset_draw_real. cbn. rewrite Hx, Hy.
    reflexivity.
Qed.

(** The loop of [poc_dataset_set_points_array] appends the points
    ([x[i]], [y[i]]) in order. *)
Lemma set_points_array_loop_spec (xs ys : list D) :
  forall (count i : nat) (array : PocPointArray D),
    (i + count <= length xs)%nat -> (i + count <= length ys)%nat ->
    set_points_array_loop xs ys count i array
    = array ++ zip_with Build_PocPoint (take count (drop i xs))
                 (take count (drop i ys)).
Proof.
  induction count as [| count IH]; intros i array Hxs Hys;
    cbn [set_points_array_loop].
  - rewrite !take_0. cbn. rewrite app_nil_r. reflexivity.
  - cbv zeta. rewrite IH by lia. rewrite <- app_assoc. f_equal.
    destruct (lookup_lt_is_Some_2 xs i ltac:(lia)) as [a Ha].
    destruct (lookup_lt_is_Some_2 ys i ltac:(lia)) as [b Hb].
    rewrite (list_lookup_total_correct _ _ _ Ha).
    rewrite (list_lookup_total_correct _ _ _ Hb).
    rewrite (drop_S _ _ _ Ha), (drop_S _ _ _ Hb). reflexivity.
Qed.

(** X16.  pocdataset.c, [poc_dataset_set_points_array], in any arithmetic:
    given two arrays of at least [points] values each, the dataset holds
    [points] control points afterwards, whose X coordinates are the first
    [points] values of the one array and whose Y coordinates are those of
    the other, in order. *)
Theorem set_points_array_stores_pairs (self : PocDataset D) (xs ys : list D)
    (points : Z) :
  (0 <= points)%Z ->
  (Z.to_nat points <= length xs)%nat ->
  (Z.to_nat points <= length ys)%nat ->
  let array := zip_with Build_PocPoint (take (Z.to_nat points) xs)
                 (take (Z.to_nat points) ys) in
  poc_dataset_get_points (poc_dataset_set_points_array self xs ys points)
  = Some array
  /\ length array = Z.to_nat points
  /\ x <$> array = take (Z.to_nat points) xs
  /\ y <$> array = take (Z.to_nat points) ys.
Proof.
  intros Hpoints Hxs Hys array. split.
  - unfold poc_dataset_set_points_array, poc_dataset_get_points.
    rewrite set_points_array_loop_spec by (cbn; lia).
    destruct self; reflexivity.
  - assert (Hlx : length (take (Z.to_nat points) xs) = Z.to_nat points)
      by (rewrite length_take; lia).
    assert (Hly : length (take (Z.to_nat points) ys) = Z.to_nat points)
      by (rewrite length_take; lia).
    unfold array. split; [rewrite length_zip_with; lia |].
    split.
    + rewrite fmap_zip_with_l; [reflexivity | reflexivity | lia].
    + rewrite fmap_zip_with_r; [reflexivity | reflexivity | lia].
Qed.

End TooFewPoints.

Lemma drawing_needs_enough_points_witness :
  let axis : PocAxisPrivate R := poc_axis_init in
  let priv : PocDatasetPrivate R :=
    {| priv_points := None; x_axis := Some axis; y_axis := Some axis |} in
  let fields : PocDatasetSplineFields R :=
    {| show_markers := false; self_points := None; cache_width := 0 |} in
  poc_dataset_draw_path
    (poc_dataset_set_points (DatasetSpline priv fields)
       (Some [ {| x := 0%R; y := 0%R |} ]))
    400 200 = NullDereference.
Proof.
  intros axis priv fields.
  apply (drawing_needs_enough_points priv fields axis axis
           [ {| x := 0%R; y := 0%R |} ] 400 200 eq_refl eq_refl).
  cbn. lia.
Defined.

Lemma set_points_array_stores_pairs_witness :
  poc_dataset_get_points
    (poc_dataset_set_points_array
       (Dataset {| priv_points := None; x_axis := None; y_axis := None |})
       [0%R; 1%R; 2%R] [5%R; 7%R; 9%R] 2)
  = Some [ {| x := 0%R; y := 5%R |}; {| x := 1%R; y := 7%R |} ].
Proof.
  destruct (set_points_array_stores_pairs
              (Dataset {| priv_points := None; x_axis := None; y_axis := None |})
              [0%R; 1%R; 2%R] [5%R; 7%R; 9%R] 2)
    as (-> & _); [lia | cbn; lia | cbn; lia |].
  reflexivity.
Defined.


(** *** The bag of objects *)

Local Close Scope R_scope.

Section BagProperties.
Context {Obj Data Notify : Type} `{!EqDecision Obj}.
Implicit Type bag : PocObjectBag Obj Data Notify.
Implicit Type item : PocBagItem Obj Data Notify.
Local Open Scope Z_scope.

Lemma gint_wrap_small (z : Z) : - 2 ^ 31 <= z < 2 ^ 31 -> gint_wrap z = z.
Proof. intros Hz. unfold gint_wrap. rewrite Z.mod_small by lia. lia. Qed.

Lemma find_object_loop_shift bag (o : Obj) (i : nat) :
  poc_object_bag_find_object_loop bag o (S i)
  = S <$> poc_object_bag_find_object_loop bag o i.
Proof.
  revert i. induction bag as [| item rest IH]; intros i; [reflexivity |].
  cbn [poc_object_bag_find_object_loop].
  destruct (decide (item_object item = o)); [reflexivity | apply IH].
Qed.

(** The operations on a bag with one more item in front. *)
Lemma find_object_cons item bag (o : Obj) :
  poc_object_bag_find_object (item :: bag) o
  = if decide (item_object item = o) then Some 0%nat
    else S <$> poc_object_bag_find_object bag o.
Proof.
  unfold poc_object_bag_find_object. cbn [poc_object_bag_find_object_loop].
  destruct (decide (item_object item = o)); [reflexivity |].
  apply find_object_loop_shift.
Qed.

Lemma bag_refs_cons item bag (o : Obj) :
  bag_refs (item :: bag) o
  = if decide (item_object item = o) then item_count item else bag_refs bag o.
Proof.
  unfold bag_refs. rewrite find_object_cons.
  destruct (decide (item_object item = o)); [reflexivity |].
  destruct (poc_object_bag_find_object bag o); reflexivity.
Qed.

Lemma contains_cons item bag (o : Obj) :
  poc_object_bag_contains (item :: bag) o
  = if decide (item_object item = o) then true else poc_object_bag_contains bag o.
Proof.
  unfold poc_object_bag_contains. rewrite find_object_cons.
  destruct (decide (item_object item = o)); [reflexivity |].
  destruct (poc_object_bag_find_object bag o); reflexivity.
Qed.

Lemma get_data_cons item bag (o : Obj) :
  poc_object_bag_get_data (item :: bag) o
  = if decide (item_object item = o) then item_data item
    else poc_object_bag_get_data bag o.
Proof.
  unfold poc_object_bag_get_data. rewrite find_object_cons.
  destruct (decide (item_object item = o)); [reflexivity |].
  destruct (poc_object_bag_find_object bag o); reflexivity.
Qed.

Lemma bag_destroy_cons item bag (o : Obj) :
  bag_destroy (item :: bag) o
  = if decide (item_object item = o) then item_destroy item else bag_destroy bag o.
Proof.
  unfold bag_destroy. rewrite find_object_cons.
  destruct (decide (item_object item = o)); [reflexivity |].
  destruct (poc_object_bag_find_object bag o); reflexivity.
Qed.

Lemma destroy_notify_cons item bag (o : Obj) :
  destroy_notify (item :: bag) o
  = if decide (item_object item = o)
    then match item_destroy item with
         | Some f => [DestroyNotify f (item_data item)]
         | None => []
         end
    else destroy_notify bag o.
Proof.
  unfold destroy_notify. rewrite bag_destroy_cons, get_data_cons.
  destruct (decide (item_object item = o)); reflexivity.
Qed.

Lemma add_cons item bag (o : Obj) :
  poc_object_bag_add (item :: bag) o
  = if decide (item_object item = o)
    then (true, set_count (gint_wrap (item_count item + 1)) item :: bag, [])
    else let '(r, bag', effects) := poc_object_bag_add bag o in
         (r, item :: bag', effects).
Proof.
  unfold poc_object_bag_add. rewrite find_object_cons.
  destruct (decide (item_object item = o)); [reflexivity |].
  destruct (poc_object_bag_find_object bag o); reflexivity.
Qed.

Lemma remove_cons item bag (o : Obj) :
  poc_object_bag_remove (item :: bag) o
  = if decide (item_object item = o)
    then
      if (gint_wrap (item_count item - 1) <=? 0)
      then (true, bag,
            poc_bag_item_destroy (set_count (gint_wrap (item_count item - 1)) item))
      else (false, set_count (gint_wrap (item_count item - 1)) item :: bag, [])
    else let '(r, bag', effects) := poc_object_bag_remove bag o in
         (r, item :: bag', effects).
Proof.
  unfold poc_object_bag_remove. rewrite find_object_cons.
  destruct (decide (item_object item = o)); [reflexivity |].
  destruct (poc_object_bag_find_object bag o) as [i |]; [| reflexivity].
  cbn [fmap option_fmap option_map].
  change ((item :: bag) !! S i) with (bag !! i).
  destruct (bag !! i) as [item' |]; [| reflexivity].
  cbv zeta. destruct (item_count _ <=? 0); reflexivity.
Qed.

Lemma set_data_full_cons item bag (o : Obj) (d : option Data) (f : option Notify) :
  poc_object_bag_set_data_full (item :: bag) o d f
  = if decide (item_object item = o)
    then (true,
          {| item_object := item_object item; item_count := item_count item; item_data := d;
             item_destroy := f |} :: bag,
          match item_destroy item with
          | Some g => [DestroyNotify g (item_data item)]
          | None => []
          end)
    else let '(r, bag', effects) := poc_object_bag_set_data_full bag o d f in
         (r, item :: bag', effects).
Proof.
  unfold poc_object_bag_set_data_full. rewrite find_object_cons.
  destruct (decide (item_object item = o)); [reflexivity |].
  destruct (poc_object_bag_find_object bag o) as [i |]; [| reflexivity].
  cbn [fmap option_fmap option_map].
  change ((item :: bag) !! S i) with (bag !! i).
  destruct (bag !! i) as [item' |]; reflexivity.
Qed.

(** An object is found exactly when one of the items holds it. *)
Lemma contains_elem_of bag (o : Obj) :
  poc_object_bag_contains bag o = true <-> o ∈ item_object <$> bag.
Proof.
  induction bag as [| item rest IH].
  - cbn. split; [discriminate | intros H; inversion H].
  - rewrite contains_cons, fmap_cons, elem_of_cons.
    destruct (decide (item_object item = o)) as [-> | Hne].
    + split; [left; reflexivity | reflexivity].
    + rewrite IH. split; [right; assumption | intros [Heq | Hin]; congruence].
Qed.

Lemma contains_false_refs bag (o : Obj) :
  poc_object_bag_contains bag o = false -> bag_refs bag o = 0.
Proof.
  unfold poc_object_bag_contains, bag_refs.
  destruct (poc_object_bag_find_object bag o); [discriminate | reflexivity].
Qed.

Lemma wf_cons item bag :
  bag_wf (item :: bag) <->
  poc_object_bag_contains bag (item_object item) = false
  /\ 1 <= item_count item <= G_MAXINT /\ bag_wf bag.
Proof.
  unfold bag_wf. rewrite fmap_cons, NoDup_cons, Forall_cons.
  rewrite <- contains_elem_of.
  rewrite not_true_iff_false. tauto.
Qed.

(** In a well-formed bag the objects it holds are those counted at least
    once. *)
Lemma wf_contains_refs bag (o : Obj) :
  bag_wf bag ->
  (poc_object_bag_contains bag o = true <-> 1 <= bag_refs bag o)
  /\ 0 <= bag_refs bag o <= G_MAXINT.
Proof.
  induction bag as [| item rest IH]; intros Hwf.
  - cbn. unfold G_MAXINT. split; [split; [discriminate | lia] | lia].
  - apply wf_cons in Hwf as (_ & Hcount & Hwf).
    rewrite contains_cons, bag_refs_cons.
    destruct (decide (item_object item = o)); [| apply IH; exact Hwf].
    split; [split; [lia | reflexivity] | lia].
Qed.


(** *** [poc_object_bag_add] *)

Lemma add_result bag (o : Obj) :
  (poc_object_bag_add bag o).1.1 = poc_object_bag_contains bag o.
Proof.
  unfold poc_object_bag_add, poc_object_bag_contains.
  destruct (poc_object_bag_find_object bag o); reflexivity.
Qed.

Lemma add_effects bag (o : Obj) :
  (poc_object_bag_add bag o).2
  = if poc_object_bag_contains bag o then [] else [ObjectRef o].
Proof.
  unfold poc_object_bag_add, poc_object_bag_contains.
  destruct (poc_object_bag_find_object bag o); reflexivity.
Qed.

Lemma add_contains bag (o o' : Obj) :
  poc_object_bag_contains (poc_object_bag_add bag o).1.2 o'
  = poc_object_bag_contains bag o' || bool_decide (o' = o).
Proof.
  induction bag as [| item rest IH].
  - cbn. unfold poc_object_bag_contains, poc_object_bag_find_object. cbn.
    destruct (decide (o = o')) as [-> | Hne].
    + rewrite bool_decide_eq_true_2; reflexivity.
    + rewrite bool_decide_eq_false_2; [reflexivity | congruence].
  - rewrite add_cons.
    destruct (decide (item_object item = o)) as [Ho | Ho].
    + cbn [fst snd]. rewrite !contains_cons. cbn [item_object set_count].
      destruct (decide (item_object item = o')) as [Ho' | Ho']; [reflexivity |].
      rewrite bool_decide_eq_false_2; [| congruence].
      rewrite orb_false_r. reflexivity.
    + destruct (poc_object_bag_add rest o) as [[r bag'] effects].
      cbn [fst snd] in *. rewrite !contains_cons.
      destruct (decide (item_object item = o')); [reflexivity | exact IH].
Qed.

Lemma add_get_data bag (o o' : Obj) :
  poc_object_bag_get_data (poc_object_bag_add bag o).1.2 o'
  = poc_object_bag_get_data bag o'.
Proof.
  induction bag as [| item rest IH].
  - cbn. unfold poc_object_bag_get_data, poc_object_bag_find_object. cbn.
    destruct (decide (o = o')); reflexivity.
  - rewrite add_cons.
    destruct (decide (item_object item = o)) as [Ho | Ho].
    + cbn [fst snd]. rewrite !get_data_cons. reflexivity.
    + destruct (poc_object_bag_add rest o) as [[r bag'] effects].
      cbn [fst snd] in *. rewrite !get_data_cons.
      destruct (decide (item_object item = o')); [reflexivity | exact IH].
Qed.

Lemma add_refs bag (o o' : Obj) :
  bag_refs (poc_object_bag_add bag o).1.2 o'
  = if decide (o' = o)
    then if poc_object_bag_contains bag o
         then gint_wrap (bag_refs bag o + 1) else 1
    else bag_refs bag o'.
Proof.
  induction bag as [| item rest IH].
  - cbn. unfold bag_refs, poc_object_bag_find_object. cbn.
    destruct (decide (o = o')) as [-> | Hne].
    + rewrite decide_True by reflexivity. reflexivity.
    + rewrite decide_False by congruence. reflexivity.
  - rewrite add_cons, contains_cons.
    destruct (decide (item_object item = o)) as [Ho | Ho].
    + cbn [fst snd]. rewrite !bag_refs_cons. cbn [item_object item_count set_count].
      rewrite (decide_True (P := item_object item = o)) by exact Ho.
      destruct (decide (o' = o)) as [-> | Hne].
      * rewrite !decide_True by exact Ho. reflexivity.
      * rewrite !decide_False by congruence. reflexivity.
    + destruct (poc_object_bag_add rest o) as [[r bag'] effects].
      cbn [fst snd] in *. rewrite !bag_refs_cons.
      rewrite (decide_False (P := item_object item = o)) by exact Ho.
      destruct (decide (item_object item = o')) as [Ho' | Ho'].
      * rewrite decide_False by congruence. reflexivity.
      * exact IH.
Qed.

Lemma add_wf bag (o : Obj) :
  bag_wf bag -> bag_refs bag o < G_MAXINT ->
  bag_wf (poc_object_bag_add bag o).1.2.
Proof.
  induction bag as [| item rest IH]; intros Hwf Hlt.
  - cbn. apply wf_cons. cbn. unfold G_MAXINT.
    split; [reflexivity | split; [lia |]].
    split; [constructor | constructor].
  - pose proof (add_contains rest o (item_object item)) as Hc.
    rewrite add_cons. rewrite bag_refs_cons in Hlt.
    apply wf_cons in Hwf as (Hnew & Hcount & Hwf).
    destruct (decide (item_object item = o)) as [Ho | Ho].
    + cbn [fst snd]. apply wf_cons. cbn [item_object item_count set_count].
      rewrite gint_wrap_small by (unfold G_MAXINT in *; lia).
      split; [exact Hnew | split; [lia | exact Hwf]].
    + specialize (IH Hwf Hlt).
      destruct (poc_object_bag_add rest o) as [[r bag'] effects].
      cbn [fst snd] in *. apply wf_cons.
      rewrite Hc, Hnew, bool_decide_eq_false_2 by exact Ho.
      split; [reflexivity | split; [exact Hcount | exact IH]].
Qed.

(** *** [poc_object_bag_remove] *)

Lemma remove_result bag (o : Obj) :
  (poc_object_bag_remove bag o).1.1
  = poc_object_bag_contains bag o && (gint_wrap (bag_refs bag o - 1) <=? 0).
Proof.
  induction bag as [| item rest IH]; [reflexivity |].
  rewrite remove_cons, contains_cons, bag_refs_cons.
  destruct (decide (item_object item = o)).
  - destruct (gint_wrap (item_count item - 1) <=? 0); reflexivity.
  - destruct (poc_object_bag_remove rest o) as [[r bag'] effects]. exact IH.
Qed.

Lemma remove_absent bag (o : Obj) :
  poc_object_bag_contains bag o = false ->
  poc_object_bag_remove bag o = (false, bag, []).
Proof.
  unfold poc_object_bag_contains, poc_object_bag_remove.
  destruct (poc_object_bag_find_object bag o); [discriminate | reflexivity].
Qed.

Lemma remove_contains_other bag (o o' : Obj) :
  o' <> o ->
  poc_object_bag_contains (poc_object_bag_remove bag o).1.2 o'
  = poc_object_bag_contains bag o'.
Proof.
  intros Hne. induction bag as [| item rest IH]; [reflexivity |].
  rewrite remove_cons.
  destruct (decide (item_object item = o)) as [Ho | Ho].
  - rewrite contains_cons.
    rewrite (decide_False (P := item_object item = o')) by congruence.
    destruct (gint_wrap (item_count item - 1) <=? 0); cbn [fst snd];
      [reflexivity |].
    rewrite contains_cons. cbn [item_object set_count].
    rewrite decide_False by congruence. reflexivity.
  - destruct (poc_object_bag_remove rest o) as [[r bag'] effects].
    cbn [fst snd] in *. rewrite !contains_cons.
    destruct (decide (item_object item = o')); [reflexivity | exact IH].
Qed.

Lemma remove_get_data_other bag (o o' : Obj) :
  o' <> o ->
  poc_object_bag_get_data (poc_object_bag_remove bag o).1.2 o'
  = poc_object_bag_get_data bag o'.
Proof.
  intros Hne. induction bag as [| item rest IH]; [reflexivity |].
  rewrite remove_cons.
  destruct (decide (item_object item = o)) as [Ho | Ho].
  - rewrite get_data_cons.
    rewrite (decide_False (P := item_object item = o')) by congruence.
    destruct (gint_wrap (item_count item - 1) <=? 0); cbn [fst snd];
      [reflexivity |].
    rewrite get_data_cons. cbn [item_object set_count].
    rewrite decide_False by congruence. reflexivity.
  - destruct (poc_object_bag_remove rest o) as [[r bag'] effects].
    cbn [fst snd] in *. rewrite !get_data_cons.
    destruct (decide (item_object item = o')); [reflexivity | exact IH].
Qed.

Lemma remove_refs_other bag (o o' : Obj) :
  o' <> o ->
  bag_refs (poc_object_bag_remove bag o).1.2 o' = bag_refs bag o'.
Proof.
  intros Hne. induction bag as [| item rest IH]; [reflexivity |].
  rewrite remove_cons.
  destruct (decide (item_object item = o)) as [Ho | Ho].
  - rewrite bag_refs_cons.
    rewrite (decide_False (P := item_object item = o')) by congruence.
    destruct (gint_wrap (item_count item - 1) <=? 0); cbn [fst snd];
      [reflexivity |].
    rewrite bag_refs_cons. cbn [item_object set_count].
    rewrite decide_False by congruence. reflexivity.
  - destruct (poc_object_bag_remove rest o) as [[r bag'] effects].
    cbn [fst snd] in *. rewrite !bag_refs_cons.
    destruct (decide (item_object item = o')); [reflexivity | exact IH].
Qed.

(** What is left of the object that [poc_object_bag_remove] was called
    for, in a well-formed bag. *)
Lemma remove_same bag (o : Obj) :
  bag_wf bag ->
  let bag' := (poc_object_bag_remove bag o).1.2 in
  bag_refs bag' o = Z.max 0 (bag_refs bag o - 1)
  /\ poc_object_bag_contains bag' o = (2 <=? bag_refs bag o)
  /\ poc_object_bag_get_data bag' o
     = (if 2 <=? bag_refs bag o then poc_object_bag_get_data bag o else None).
Proof.
  induction bag as [| item rest IH]; intros Hwf; [cbn; auto |].
  apply wf_cons in Hwf as (Hnew & Hcount & Hwf).
  cbv zeta. rewrite remove_cons, bag_refs_cons, get_data_cons.
  destruct (decide (item_object item = o)) as [Ho | Ho].
  - rewrite gint_wrap_small by (unfold G_MAXINT in *; lia).
    destruct (Z.leb_spec (item_count item - 1) 0) as [Hle | Hgt]; cbn [fst snd].
    + rewrite Ho in Hnew. rewrite (contains_false_refs _ _ Hnew), Hnew.
      unfold poc_object_bag_get_data, poc_object_bag_contains in *.
      destruct (poc_object_bag_find_object rest o); [discriminate |].
      rewrite (proj2 (Z.leb_gt _ _)) by lia.
      split; [lia | split; reflexivity].
    + rewrite bag_refs_cons, contains_cons, get_data_cons.
      cbn [item_object item_count item_data set_count]. rewrite !decide_True by exact Ho.
      rewrite (proj2 (Z.leb_le _ _)) by lia.
      split; [lia | split; reflexivity].
  - specialize (IH Hwf). cbv zeta in IH.
    destruct (poc_object_bag_remove rest o) as [[r bag'] effects].
    cbn [fst snd] in *. rewrite bag_refs_cons, contains_cons, get_data_cons.
    rewrite !decide_False by exact Ho. exact IH.
Qed.

Lemma remove_effects bag (o : Obj) :
  (poc_object_bag_remove bag o).2
  = if (poc_object_bag_remove bag o).1.1
    then ObjectUnref o :: destroy_notify bag o
    else [].
Proof.
  induction bag as [| item rest IH]; [reflexivity |].
  rewrite remove_cons, destroy_notify_cons.
  destruct (decide (item_object item = o)) as [Ho | Ho].
  - destruct (gint_wrap (item_count item - 1) <=? 0); cbn [fst snd];
      [| reflexivity].
    unfold poc_bag_item_destroy. cbn [item_object item_data item_destroy set_count].
    rewrite Ho. reflexivity.
  - destruct (poc_object_bag_remove rest o) as [[r bag'] effects].
    cbn [fst snd] in *. exact IH.
Qed.

Lemma remove_wf bag (o : Obj) :
  bag_wf bag -> bag_wf (poc_object_bag_remove bag o).1.2.
Proof.
  induction bag as [| item rest IH]; intros Hwf; [exact Hwf |].
  pose proof (fun Hne => remove_contains_other rest o (item_object item) Hne) as Hc.
  rewrite remove_cons.
  apply wf_cons in Hwf as (Hnew & Hcount & Hwf).
  destruct (decide (item_object item = o)) as [Ho | Ho].
  - rewrite gint_wrap_small by (unfold G_MAXINT in *; lia).
    destruct (Z.leb_spec (item_count item - 1) 0) as [Hle | Hgt]; cbn [fst snd];
      [exact Hwf |].
    apply wf_cons. cbn [item_object item_count set_count].
    split; [exact Hnew | split; [lia | exact Hwf]].
  - specialize (IH Hwf).
    destruct (poc_object_bag_remove rest o) as [[r bag'] effects].
    cbn [fst snd] in *. apply wf_cons.
    rewrite Hc, Hnew by exact Ho.
    split; [reflexivity | split; [exact Hcount | exact IH]].
Qed.


(** *** [poc_object_bag_set_data_full] *)

Lemma set_data_full_result bag (o : Obj) (d : option Data) (f : option Notify) :
  (poc_object_bag_set_data_full bag o d f).1.1 = poc_object_bag_contains bag o.
Proof.
  induction bag as [| item rest IH]; [reflexivity |].
  rewrite set_data_full_cons, contains_cons.
  destruct (decide (item_object item = o)); [reflexivity |].
  destruct (poc_object_bag_set_data_full rest o d f) as [[r bag'] effects].
  exact IH.
Qed.

Lemma set_data_full_absent bag (o : Obj) (d : option Data) (f : option Notify) :
  poc_object_bag_contains bag o = false ->
  poc_object_bag_set_data_full bag o d f = (false, bag, []).
Proof.
  unfold poc_object_bag_contains, poc_object_bag_set_data_full.
  destruct (poc_object_bag_find_object bag o); [discriminate | reflexivity].
Qed.

Lemma set_data_full_contains bag (o o' : Obj) (d : option Data)
    (f : option Notify) :
  poc_object_bag_contains (poc_object_bag_set_data_full bag o d f).1.2 o'
  = poc_object_bag_contains bag o'.
Proof.
  induction bag as [| item rest IH]; [reflexivity |].
  rewrite set_data_full_cons.
  destruct (decide (item_object item = o)) as [Ho | Ho].
  - cbn [fst snd]. rewrite !contains_cons. reflexivity.
  - destruct (poc_object_bag_set_data_full rest o d f) as [[r bag'] effects].
    cbn [fst snd] in *. rewrite !contains_cons.
    destruct (decide (item_object item = o')); [reflexivity | exact IH].
Qed.

Lemma set_data_full_refs bag (o o' : Obj) (d : option Data)
    (f : option Notify) :
  bag_refs (poc_object_bag_set_data_full bag o d f).1.2 o' = bag_refs bag o'.
Proof.
  induction bag as [| item rest IH]; [reflexivity |].
  rewrite set_data_full_cons.
  destruct (decide (item_object item = o)) as [Ho | Ho].
  - cbn [fst snd]. rewrite !bag_refs_cons. reflexivity.
  - destruct (poc_object_bag_set_data_full rest o d f) as [[r bag'] effects].
    cbn [fst snd] in *. rewrite !bag_refs_cons.
    destruct (decide (item_object item = o')); [reflexivity | exact IH].
Qed.

Lemma set_data_full_get_data bag (o o' : Obj) (d : option Data)
    (f : option Notify) :
  poc_object_bag_get_data (poc_object_bag_set_data_full bag o d f).1.2 o'
  = if decide (o' = o)
    then if poc_object_bag_contains bag o then d else None
    else poc_object_bag_get_data bag o'.
Proof.
  induction bag as [| item rest IH].
  - cbn. destruct (decide (o' = o)); reflexivity.
  - rewrite set_data_full_cons, contains_cons.
    destruct (decide (item_object item = o)) as [Ho | Ho].
    + cbn [fst snd]. rewrite !get_data_cons. cbn [item_object item_data].
      destruct (decide (o' = o)) as [-> | Hne].
      * rewrite decide_True by exact Ho. reflexivity.
      * rewrite !decide_False by congruence. reflexivity.
    + destruct (poc_object_bag_set_data_full rest o d f) as [[r bag'] effects].
      cbn [fst snd] in *. rewrite !get_data_cons.
      destruct (decide (item_object item = o')) as [Ho' | Ho'].
      * rewrite decide_False by congruence. reflexivity.
      * exact IH.
Qed.

Lemma set_data_full_effects bag (o : Obj) (d : option Data) (f : option Notify) :
  (poc_object_bag_set_data_full bag o d f).2 = destroy_notify bag o.
Proof.
  induction bag as [| item rest IH]; [reflexivity |].
  rewrite set_data_full_cons, destroy_notify_cons.
  destruct (decide (item_object item = o)) as [Ho | Ho]; [reflexivity |].
  destruct (poc_object_bag_set_data_full rest o d f) as [[r bag'] effects].
  cbn [fst snd] in *. exact IH.
Qed.

Lemma set_data_full_destroy bag (o o' : Obj) (d : option Data)
    (f : option Notify) :
  bag_destroy (poc_object_bag_set_data_full bag o d f).1.2 o'
  = if decide (o' = o)
    then if poc_object_bag_contains bag o then f else None
    else bag_destroy bag o'.
Proof.
  induction bag as [| item rest IH].
  - cbn. destruct (decide (o' = o)); reflexivity.
  - rewrite set_data_full_cons, contains_cons.
    destruct (decide (item_object item = o)) as [Ho | Ho].
    + cbn [fst snd]. rewrite !bag_destroy_cons. cbn [item_object item_destroy].
      destruct (decide (o' = o)) as [-> | Hne].
      * rewrite decide_True by exact Ho. reflexivity.
      * rewrite !decide_False by congruence. reflexivity.
    + destruct (poc_object_bag_set_data_full rest o d f) as [[r bag'] effects].
      cbn [fst snd] in *. rewrite !bag_destroy_cons.
      destruct (decide (item_object item = o')) as [Ho' | Ho'].
      * rewrite decide_False by congruence. reflexivity.
      * exact IH.
Qed.

Lemma net_refs_destroy_notify bag (o o' : Obj) :
  net_refs o' (destroy_notify bag o) = 0.
Proof. unfold destroy_notify. destruct (bag_destroy bag o); reflexivity. Qed.

Lemma set_data_full_wf bag (o : Obj) (d : option Data) (f : option Notify) :
  bag_wf bag -> bag_wf (poc_object_bag_set_data_full bag o d f).1.2.
Proof.
  induction bag as [| item rest IH]; intros Hwf; [exact Hwf |].
  pose proof (set_data_full_contains rest o (item_object item) d f) as Hc.
  rewrite set_data_full_cons.
  apply wf_cons in Hwf as (Hnew & Hcount & Hwf).
  destruct (decide (item_object item = o)) as [Ho | Ho].
  - cbn [fst snd]. apply wf_cons. cbn [item_object item_count].
    split; [exact Hnew | split; [exact Hcount | exact Hwf]].
  - specialize (IH Hwf).
    destruct (poc_object_bag_set_data_full rest o d f) as [[r bag'] effects].
    cbn [fst snd] in *. apply wf_cons. rewrite Hc, Hnew.
    split; [reflexivity | split; [exact Hcount | exact IH]].
Qed.

(** *** The two together *)

Lemma add_remove bag (o : Obj) :
  bag_wf bag -> bag_refs bag o < G_MAXINT ->
  (poc_object_bag_remove (poc_object_bag_add bag o).1.2 o).1.2 = bag.
Proof.
  induction bag as [| item rest IH]; intros Hwf Hlt.
  - cbn. unfold poc_object_bag_remove, poc_object_bag_find_object. cbn.
    rewrite decide_True by reflexivity. reflexivity.
  - rewrite add_cons. rewrite bag_refs_cons in Hlt.
    apply wf_cons in Hwf as (Hnew & Hcount & Hwf).
    destruct (decide (item_object item = o)) as [Ho | Ho].
    + cbn [fst snd]. rewrite remove_cons. cbn [item_object item_count set_count].
      rewrite decide_True by exact Ho.
      rewrite (gint_wrap_small (item_count item + 1))
        by (unfold G_MAXINT in *; lia).
      replace (item_count item + 1 - 1) with (item_count item) by lia.
      rewrite gint_wrap_small by (unfold G_MAXINT in *; lia).
      rewrite (proj2 (Z.leb_gt _ _)) by lia.
      destruct item; reflexivity.
    + specialize (IH Hwf Hlt).
      destruct (poc_object_bag_add rest o) as [[r bag'] effects].
      cbn [fst snd] in *. rewrite remove_cons.
      rewrite decide_False by exact Ho.
      destruct (poc_object_bag_remove bag' o) as [[r' bag''] effects'].
      cbn [fst snd] in *. rewrite IH. reflexivity.
Qed.

(** *** References *)

Lemma net_refs_app (o : Obj) (e1 e2 : list (BagEffect Obj Data Notify)) :
  net_refs o (e1 ++ e2) = net_refs o e1 + net_refs o e2.
Proof.
  induction e1 as [| [o' | o' | f d] rest IH]; cbn [app net_refs];
    try rewrite IH; lia.
Qed.

Lemma net_refs_destroy (o : Obj) item :
  net_refs o (poc_bag_item_destroy item)
  = if decide (item_object item = o) then -1 else 0.
Proof.
  unfold poc_bag_item_destroy.
  destruct (item_destroy item); cbn [net_refs];
    destruct (decide (item_object item = o)); reflexivity.
Qed.

Lemma add_net_refs bag (o o' : Obj) :
  net_refs o' (poc_object_bag_add bag o).2
  = Z.b2z (poc_object_bag_contains (poc_object_bag_add bag o).1.2 o')
    - Z.b2z (poc_object_bag_contains bag o').
Proof.
  rewrite add_contains, add_effects.
  destruct (decide (o' = o)) as [-> | Hne].
  - rewrite bool_decide_eq_true_2 by reflexivity. rewrite orb_true_r.
    destruct (poc_object_bag_contains bag o); cbn [net_refs Z.b2z];
      [reflexivity |].
    rewrite decide_True by reflexivity. reflexivity.
  - rewrite bool_decide_eq_false_2 by exact Hne. rewrite orb_false_r.
    destruct (poc_object_bag_contains bag o); cbn [net_refs];
      [lia |].
    rewrite decide_False by congruence. lia.
Qed.

Lemma remove_net_refs bag (o o' : Obj) :
  bag_wf bag ->
  net_refs o' (poc_object_bag_remove bag o).2
  = Z.b2z (poc_object_bag_contains (poc_object_bag_remove bag o).1.2 o')
    - Z.b2z (poc_object_bag_contains bag o').
Proof.
  intros Hwf. rewrite remove_effects, remove_result.
  destruct (wf_contains_refs bag o Hwf) as [Hc Hrange].
  destruct (decide (o' = o)) as [-> | Hne].
  - destruct (remove_same bag o Hwf) as (_ & -> & _).
    destruct (poc_object_bag_contains bag o) eqn:Hcont.
    + assert (1 <= bag_refs bag o) by (apply Hc; reflexivity).
      rewrite gint_wrap_small by (unfold G_MAXINT in *; lia).
      destruct (Z.leb_spec (bag_refs bag o - 1) 0).
      * rewrite (proj2 (Z.leb_gt _ _)) by lia.
        cbn [andb net_refs Z.b2z]. rewrite decide_True by reflexivity.
        rewrite net_refs_destroy_notify. reflexivity.
      * rewrite (proj2 (Z.leb_le _ _)) by lia. reflexivity.
    + rewrite (contains_false_refs _ _ Hcont). reflexivity.
  - rewrite remove_contains_other by exact Hne.
    destruct (_ && _); cbn [net_refs]; [| lia].
    rewrite decide_False by congruence.
    rewrite net_refs_destroy_notify. lia.
Qed.

Lemma set_data_full_net_refs bag (o o' : Obj) (d : option Data)
    (f : option Notify) :
  net_refs o' (poc_object_bag_set_data_full bag o d f).2 = 0.
Proof.
  rewrite set_data_full_effects. apply net_refs_destroy_notify.
Qed.

Lemma empty_net_refs bag (o' : Obj) :
  bag_wf bag ->
  net_refs o' (poc_object_bag_empty bag).2
  = - Z.b2z (poc_object_bag_contains bag o').
Proof.
  unfold poc_object_bag_empty. cbn [snd].
  induction bag as [| item rest IH]; intros Hwf; [reflexivity |].
  apply wf_cons in Hwf as (Hnew & _ & Hwf).
  cbn [mbind list_bind]. rewrite net_refs_app, net_refs_destroy, contains_cons.
  rewrite (IH Hwf).
  destruct (decide (item_object item = o')) as [<- | Hne]; [| lia].
  rewrite Hnew. reflexivity.
Qed.

Lemma bag_call_balance bag (c : BagCall Obj Data Notify) (n : Z) :
  bag_wf bag -> (forall o, bag_refs bag o <= n) -> 0 <= n < G_MAXINT ->
  bag_wf (bag_call bag c).1
  /\ (forall o, bag_refs (bag_call bag c).1 o <= n + 1)
  /\ forall o,
       net_refs o (bag_call bag c).2
       = Z.b2z (poc_object_bag_contains (bag_call bag c).1 o)
         - Z.b2z (poc_object_bag_contains bag o).
Proof.
  intros Hwf Hle Hn.
  destruct c as [o | o | o d f |]; cbn [bag_call].
  - pose proof (add_wf bag o Hwf ltac:(specialize (Hle o); lia)) as Hwf'.
    pose proof (add_refs bag o) as Hrefs.
    pose proof (add_net_refs bag o) as Hnet.
    destruct (wf_contains_refs bag o Hwf) as [Hc Hrange].
    destruct (poc_object_bag_add bag o) as [[r bag'] effects].
    cbn [fst snd] in *. split; [exact Hwf' | split; [| exact Hnet]].
    intros o'. rewrite Hrefs.
    destruct (decide (o' = o)); [| specialize (Hle o'); lia].
    destruct (poc_object_bag_contains bag o).
    + specialize (Hle o).
      rewrite gint_wrap_small by (unfold G_MAXINT in *; lia). lia.
    + specialize (Hle o). lia.
  - pose proof (remove_wf bag o Hwf) as Hwf'.
    pose proof (remove_refs_other bag o) as Hother.
    pose proof (remove_same bag o Hwf) as (Hsame & _).
    pose proof (fun o' => remove_net_refs bag o o' Hwf) as Hnet.
    destruct (poc_object_bag_remove bag o) as [[r bag'] effects].
    cbn [fst snd] in *. split; [exact Hwf' | split; [| exact Hnet]].
    intros o'. destruct (decide (o' = o)) as [-> | Hne].
    + rewrite Hsame. specialize (Hle o).
      destruct (wf_contains_refs bag o Hwf) as [_ Hrange]. lia.
    + rewrite Hother by exact Hne. specialize (Hle o'). lia.
  - pose proof (set_data_full_wf bag o d f Hwf) as Hwf'.
    pose proof (fun o' => set_data_full_refs bag o o' d f) as Hrefs.
    pose proof (fun o' => set_data_full_contains bag o o' d f) as Hc.
    pose proof (fun o' => set_data_full_net_refs bag o o' d f) as Hnet.
    destruct (poc_object_bag_set_data_full bag o d f) as [[r bag'] effects].
    cbn [fst snd] in *. split; [exact Hwf' | split].
    + intros o'. rewrite Hrefs. specialize (Hle o'). lia.
    + intros o'. rewrite Hnet, Hc. lia.
  - split; [| split].
    + split; [constructor | constructor].
    + intros o. cbn. lia.
    + intros o. rewrite (empty_net_refs bag o Hwf). cbn. lia.
Qed.

Lemma bag_calls_balance (calls : list (BagCall Obj Data Notify)) bag (n : Z) :
  bag_wf bag -> (forall o, bag_refs bag o <= n) -> 0 <= n ->
  n + Z.of_nat (length calls) <= G_MAXINT ->
  bag_wf (bag_calls bag calls).1
  /\ forall o,
       net_refs o (bag_calls bag calls).2
       = Z.b2z (poc_object_bag_contains (bag_calls bag calls).1 o)
         - Z.b2z (poc_object_bag_contains bag o).
Proof.
  revert bag n. induction calls as [| c rest IH]; intros bag n Hwf Hle H0 Hn.
  - cbn. split; [exact Hwf | intros o; lia].
  - cbn [bag_calls]. cbn [length] in Hn.
    destruct (bag_call_balance bag c n Hwf Hle ltac:(lia))
      as (Hwf1 & Hle1 & Hnet1).
    destruct (bag_call bag c) as [bag1 effects1]. cbn [fst snd] in *.
    destruct (IH bag1 (n + 1) Hwf1 Hle1 ltac:(lia) ltac:(lia))
      as (Hwf2 & Hnet2).
    destruct (bag_calls bag1 rest) as [bag2 effects2]. cbn [fst snd] in *.
    split; [exact Hwf2 |].
    intros o. rewrite net_refs_app, Hnet1, Hnet2. lia.
Qed.

End BagProperties.

Section BagTheorems.
Context {Obj Data Notify : Type} `{!EqDecision Obj}.
Implicit Type bag : PocObjectBag Obj Data Notify.
Local Open Scope Z_scope.

(** X17.  pocbag.c, [poc_object_bag_add]: in a bag that holds each object
    once, with counts that the addition does not overflow, adding an
    object counts it once more and leaves every other count and all the
    data as they were; the result is TRUE exactly when the object was
    already there, and only the first addition takes a reference to the
    object. *)
Theorem bag_add_counts bag (o : Obj) :
  bag_wf bag -> bag_refs bag o < G_MAXINT ->
  let '(r, bag', effects) := poc_object_bag_add bag o in
  r = poc_object_bag_contains bag o
  /\ effects = (if r then [] else [ObjectRef o])
  /\ bag_wf bag'
  /\ bag_refs bag' o = bag_refs bag o + 1
  /\ (forall o', o' <> o -> bag_refs bag' o' = bag_refs bag o')
  /\ (forall o',
        poc_object_bag_get_data bag' o' = poc_object_bag_get_data bag o').
Proof.
  intros Hwf Hlt.
  pose proof (add_result bag o) as Hr.
  pose proof (add_effects bag o) as He.
  pose proof (add_wf bag o Hwf Hlt) as Hwf'.
  pose proof (add_refs bag o) as Hrefs.
  pose proof (add_get_data bag o) as Hdata.
  destruct (wf_contains_refs bag o Hwf) as [Hc Hrange].
  destruct (poc_object_bag_add bag o) as [[r bag'] effects].
  cbn [fst snd] in *. subst r.
  split; [reflexivity | split; [exact He | split; [exact Hwf' |]]].
  split; [| split; [| exact Hdata]].
  - rewrite Hrefs, decide_True by reflexivity.
    destruct (poc_object_bag_contains bag o) eqn:Hcont.
    + assert (1 <= bag_refs bag o) by (apply Hc; reflexivity).
      apply gint_wrap_small. unfold G_MAXINT in *. lia.
    + rewrite (contains_false_refs _ _ Hcont). reflexivity.
  - intros o' Hne. rewrite Hrefs, decide_False by exact Hne. reflexivity.
Qed.

(** X18.  pocbag.c, [poc_object_bag_remove]: in a bag that holds each
    object once, removing an object counts it once less; the object leaves
    the bag, and the result is TRUE, exactly when it was counted once, and
    then its reference is released and its destroy function is called on
    its data.  Removing an object that is not in the bag changes nothing,
    and no other object is touched. *)
Theorem bag_remove_counts bag (o : Obj) :
  bag_wf bag ->
  let '(r, bag', effects) := poc_object_bag_remove bag o in
  (r = true <-> bag_refs bag o = 1)
  /\ effects = (if r then ObjectUnref o :: destroy_notify bag o else [])
  /\ bag_wf bag'
  /\ bag_refs bag' o = Z.max 0 (bag_refs bag o - 1)
  /\ poc_object_bag_get_data bag' o
     = (if 2 <=? bag_refs bag o then poc_object_bag_get_data bag o else None)
  /\ (poc_object_bag_contains bag o = false -> bag' = bag)
  /\ forall o', o' <> o ->
       bag_refs bag' o' = bag_refs bag o'
       /\ poc_object_bag_get_data bag' o' = poc_object_bag_get_data bag o'.
Proof.
  intros Hwf.
  pose proof (remove_result bag o) as Hr.
  pose proof (remove_effects bag o) as He.
  pose proof (remove_wf bag o Hwf) as Hwf'.
  pose proof (remove_same bag o Hwf) as (Hsame & _ & Hdata).
  pose proof (remove_absent bag o) as Habsent.
  pose proof (remove_refs_other bag o) as Hrefs.
  pose proof (remove_get_data_other bag o) as Hother.
  destruct (wf_contains_refs bag o Hwf) as [Hc Hrange].
  destruct (poc_object_bag_remove bag o) as [[r bag'] effects].
  cbn [fst snd] in *.
  split; [| split; [exact He | split; [exact Hwf' | split; [exact Hsame |]]]].
  - rewrite Hr. destruct (poc_object_bag_contains bag o) eqn:Hcont.
    + assert (1 <= bag_refs bag o) by (apply Hc; reflexivity).
      rewrite gint_wrap_small by (unfold G_MAXINT in *; lia).
      cbn [andb]. rewrite Z.leb_le. lia.
    + rewrite (contains_false_refs _ _ Hcont). cbn. split; [discriminate | lia].
  - split; [exact Hdata | split].
    + intros Hcont. specialize (Habsent Hcont). congruence.
    + intros o' Hne. split; [apply Hrefs | apply Hother]; exact Hne.
Qed.

(** X19.  pocbag.c, [poc_object_bag_add] then [poc_object_bag_remove]: in a
    bag that holds each object once, adding an object and removing it
    again gives back the bag as it was, item for item; the removal returns
    TRUE exactly when the addition returned FALSE, and the two calls
    together release every reference they take. *)
Theorem bag_add_remove_round_trip bag (o : Obj) :
  bag_wf bag -> bag_refs bag o < G_MAXINT ->
  let '(r1, bag1, effects1) := poc_object_bag_add bag o in
  let '(r2, bag2, effects2) := poc_object_bag_remove bag1 o in
  bag2 = bag
  /\ r2 = negb r1
  /\ forall o', net_refs o' (effects1 ++ effects2) = 0.
Proof.
  intros Hwf Hlt.
  pose proof (add_remove bag o Hwf Hlt) as Hround.
  pose proof (add_result bag o) as Hr1.
  pose proof (add_wf bag o Hwf Hlt) as Hwf1.
  pose proof (add_refs bag o o) as Hrefs.
  pose proof (add_contains bag o o) as Hcont1.
  pose proof (fun o' => add_net_refs bag o o') as Hnet1.
  destruct (wf_contains_refs bag o Hwf) as [Hc Hrange].
  destruct (poc_object_bag_add bag o) as [[r1 bag1] effects1].
  cbn [fst snd] in *.
  pose proof (remove_result bag1 o) as Hr2.
  pose proof (fun o' => remove_net_refs bag1 o o' Hwf1) as Hnet2.
  destruct (poc_object_bag_remove bag1 o) as [[r2 bag2] effects2].
  cbn [fst snd] in *. subst bag2 r1.
  split; [reflexivity | split].
  - rewrite Hr2, Hcont1, Hrefs, decide_True by reflexivity.
    rewrite bool_decide_eq_true_2 by reflexivity. rewrite orb_true_r.
    destruct (poc_object_bag_contains bag o) eqn:Hcont.
    + assert (1 <= bag_refs bag o) by (apply Hc; reflexivity).
      rewrite (gint_wrap_small (bag_refs bag o + 1))
        by (unfold G_MAXINT in *; lia).
      replace (bag_refs bag o + 1 - 1) with (bag_refs bag o) by lia.
      rewrite gint_wrap_small by (unfold G_MAXINT in *; lia).
      cbn. apply Z.leb_gt. lia.
    + reflexivity.
  - intros o'. rewrite net_refs_app, Hnet1, Hnet2. lia.
Qed.

(** X20.  pocbag.c, [poc_object_bag_set_data_full] and
    [poc_object_bag_get_data]: data set for an object of the bag is what
    is got for it afterwards, also after the object is added once more;
    the destroy function that was kept is called on the data that was
    kept, and the new one is called on the new data when the object leaves
    the bag.  Nothing else changes.  Data set for an object that is not in
    the bag is not kept, and no destroy function is called. *)
Theorem bag_data_round_trip bag (o : Obj) (d : option Data)
    (f : option Notify) :
  let '(r, bag', effects) := poc_object_bag_set_data_full bag o d f in
  r = poc_object_bag_contains bag o
  /\ poc_object_bag_get_data bag' o = (if r then d else None)
  /\ poc_object_bag_get_data (poc_object_bag_add bag' o).1.2 o
     = poc_object_bag_get_data bag' o
  /\ effects = destroy_notify bag o
  /\ (r = true ->
      destroy_notify bag' o
      = match f with Some g => [DestroyNotify g d] | None => [] end)
  /\ (r = false -> bag' = bag /\ effects = [])
  /\ forall o',
       bag_refs bag' o' = bag_refs bag o'
       /\ (o' <> o ->
           poc_object_bag_get_data bag' o' = poc_object_bag_get_data bag o').
Proof.
  pose proof (set_data_full_result bag o d f) as Hr.
  pose proof (set_data_full_get_data bag o o d f) as Hget.
  pose proof (fun o' => set_data_full_get_data bag o o' d f) as Hother.
  pose proof (set_data_full_destroy bag o o d f) as Hdestroy.
  pose proof (set_data_full_effects bag o d f) as He.
  pose proof (set_data_full_absent bag o d f) as Habsent.
  pose proof (fun o' => set_data_full_refs bag o o' d f) as Hrefs.
  destruct (poc_object_bag_set_data_full bag o d f) as [[r bag'] effects]
    eqn:Hcall.
  cbn [fst snd] in *.
  rewrite decide_True in Hget by reflexivity.
  rewrite decide_True in Hdestroy by reflexivity.
  rewrite <- Hr in *.
  split; [reflexivity | split; [exact Hget | split; [apply add_get_data |]]].
  split; [exact He | split; [| split]].
  - intros ->. unfold destroy_notify. rewrite Hdestroy, Hget. reflexivity.
  - intros ->. specialize (Habsent eq_refl). split; congruence.
  - intros o'. split; [apply Hrefs |].
    intros Hne. rewrite Hother, decide_False by exact Hne. reflexivity.
Qed.

(** X21.  pocbag.c, all the operations: after any sequence of fewer than
    2^31 calls of [poc_object_bag_add], [poc_object_bag_remove],
    [poc_object_bag_set_data_full] and [poc_object_bag_empty] on a new
    bag, the bag holds each object once with a count of at least one, and
    the references taken less those released are exactly one for each
    object in the bag and none for any other. *)
Theorem bag_reference_balance (calls : list (BagCall Obj Data Notify)) :
  Z.of_nat (length calls) < 2 ^ 31 ->
  let '(bag, effects) := bag_calls poc_object_bag_new calls in
  bag_wf bag
  /\ forall o,
       net_refs o effects = if poc_object_bag_contains bag o then 1 else 0.
Proof.
  intros Hlen.
  assert (Hwf0 : bag_wf (poc_object_bag_new (Obj := Obj) (Data := Data)
                           (Notify := Notify)))
    by (split; constructor).
  destruct (bag_calls_balance calls poc_object_bag_new 0 Hwf0
              ltac:(intros o; cbn; lia) ltac:(lia)
              ltac:(unfold G_MAXINT; lia)) as [Hwf Hnet].
  destruct (bag_calls poc_object_bag_new calls) as [bag effects].
  cbn [fst snd] in *. split; [exact Hwf |].
  intros o. rewrite Hnet. cbn.
  destruct (poc_object_bag_contains bag o); reflexivity.
Qed.

End BagTheorems.

Lemma example_bag_wf : bag_wf example_bag.
Proof.
  unfold example_bag.
  repeat (apply wf_cons; split;
            [reflexivity | split; [unfold G_MAXINT; cbn; lia |]]).
  split; constructor.
Qed.

Lemma bag_add_counts_witness :
  bag_wf example_bag /\ (bag_refs example_bag 7%nat < G_MAXINT)%Z
  /\ bag_refs (poc_object_bag_add example_bag 7%nat).1.2 7%nat = 3%Z.
Proof.
  split; [exact example_bag_wf | split; [reflexivity |]].
  pose proof (bag_add_counts example_bag 7%nat example_bag_wf eq_refl) as H.
  destruct (poc_object_bag_add example_bag 7%nat) as [[r bag'] effects].
  destruct H as (_ & _ & _ & H & _). exact H.
Defined.

Lemma bag_remove_counts_witness :
  bag_wf example_bag
  /\ (poc_object_bag_remove example_bag 9%nat).1.1 = true.
Proof.
  split; [exact example_bag_wf |].
  pose proof (bag_remove_counts example_bag 9%nat example_bag_wf) as H.
  destruct (poc_object_bag_remove example_bag 9%nat) as [[r bag'] effects].
  destruct H as (H & _). apply H. reflexivity.
Defined.

Lemma bag_add_remove_round_trip_witness :
  bag_wf example_bag /\ (bag_refs example_bag 5%nat < G_MAXINT)%Z
  /\ (poc_object_bag_remove (poc_object_bag_add example_bag 5%nat).1.2
        5%nat).1.2 = example_bag.
Proof.
  split; [exact example_bag_wf | split; [reflexivity |]].
  pose proof (bag_add_remove_round_trip example_bag 5%nat example_bag_wf
                eq_refl) as H.
  destruct (poc_object_bag_add example_bag 5%nat) as [[r1 bag1] effects1].
  cbn [fst snd].
  destruct (poc_object_bag_remove bag1 5%nat) as [[r2 bag2] effects2].
  destruct H as (H & _). exact H.
Defined.

Lemma bag_reference_balance_witness :
  (Z.of_nat (length [CallAdd 7%nat; CallAdd 7%nat; CallRemove 7%nat;
                     CallSetData 7%nat (Some "seven"%string) (Some tt);
                     CallAdd 9%nat; CallRemove 7%nat]) < 2 ^ 31)%Z
  /\ bag_wf (bag_calls (poc_object_bag_new (Obj := nat) (Data := string)
                          (Notify := unit))
               [CallAdd 7%nat; CallAdd 7%nat; CallRemove 7%nat;
                CallSetData 7%nat (Some "seven"%string) (Some tt);
                CallAdd 9%nat; CallRemove 7%nat]).1.
Proof.
  split; [reflexivity |].
  pose proof (bag_reference_balance
                (Obj := nat) (Data := string) (Notify := unit)
                [CallAdd 7%nat; CallAdd 7%nat; CallRemove 7%nat;
                 CallSetData 7%nat (Some "seven"%string) (Some tt);
                 CallAdd 9%nat; CallRemove 7%nat] eq_refl) as H.
  destruct (bag_calls _ _) as [bag effects]. destruct H as [H _]. exact H.
Defined.

(** *** The axes and datasets of a plot *)

Section BagWithData.
Context {Obj Data Notify : Type} `{!EqDecision Obj}.
Implicit Type bag : PocObjectBag Obj Data Notify.
Implicit Type item : PocBagItem Obj Data Notify.
Local Open Scope Z_scope.

Lemma bag_add_with_data_nil (o : Obj) (d : Data) (f : option Notify) :
  bag_add_with_data (Notify := Notify) [] o d f
  = [ {| item_object := o; item_count := 1; item_data := Some d; item_destroy := f |} ].
Proof.
  unfold bag_add_with_data, poc_object_bag_add, poc_object_bag_set_data_full,
    poc_object_bag_find_object.
  cbn. rewrite decide_True by reflexivity. reflexivity.
Qed.

Lemma bag_add_with_data_cons item bag (o : Obj) (d : Data) (f : option Notify) :
  bag_add_with_data (item :: bag) o d f
  = if decide (item_object item = o)
    then set_count (gint_wrap (item_count item + 1)) item :: bag
    else item :: bag_add_with_data bag o d f.
Proof.
  unfold bag_add_with_data. rewrite add_cons.
  destruct (decide (item_object item = o)) as [Ho | Ho]; [reflexivity |].
  destruct (poc_object_bag_add bag o) as [[found bag1] effects].
  destruct found; [reflexivity |].
  rewrite set_data_full_cons, decide_False by exact Ho.
  destruct (poc_object_bag_set_data_full bag1 o (Some d) f) as [[r bag2] e].
  reflexivity.
Qed.

Lemma bag_add_with_data_contains bag (o o' : Obj) (d : Data)
    (f : option Notify) :
  poc_object_bag_contains (bag_add_with_data bag o d f) o'
  = poc_object_bag_contains bag o' || bool_decide (o' = o).
Proof.
  pose proof (add_contains bag o o') as Hadd.
  unfold bag_add_with_data.
  destruct (poc_object_bag_add bag o) as [[found bag1] effects].
  cbn [fst snd] in Hadd.
  destruct found; [exact Hadd |].
  rewrite set_data_full_contains. exact Hadd.
Qed.

Lemma bag_add_with_data_refs bag (o o' : Obj) (d : Data) (f : option Notify) :
  bag_wf bag -> bag_refs bag o < G_MAXINT ->
  bag_refs (bag_add_with_data bag o d f) o'
  = bag_refs bag o' + (if decide (o' = o) then 1 else 0).
Proof.
  intros Hwf Hlt.
  pose proof (add_refs bag o o') as Hadd.
  destruct (wf_contains_refs bag o Hwf) as [Hc Hrange].
  assert (Hrefs : bag_refs (poc_object_bag_add bag o).1.2 o'
                  = bag_refs bag o' + (if decide (o' = o) then 1 else 0)).
  { rewrite Hadd. destruct (decide (o' = o)) as [-> | Hne]; [| lia].
    destruct (poc_object_bag_contains bag o) eqn:Hcont.
    - assert (1 <= bag_refs bag o) by (apply Hc; reflexivity).
      apply gint_wrap_small. unfold G_MAXINT in *. lia.
    - rewrite (contains_false_refs _ _ Hcont). reflexivity. }
  unfold bag_add_with_data.
  destruct (poc_object_bag_add bag o) as [[found bag1] effects].
  cbn [fst snd] in Hrefs.
  destruct found; [exact Hrefs |].
  rewrite set_data_full_refs. exact Hrefs.
Qed.

Lemma bag_add_with_data_wf bag (o : Obj) (d : Data) (f : option Notify) :
  bag_wf bag -> bag_refs bag o < G_MAXINT ->
  bag_wf (bag_add_with_data bag o d f).
Proof.
  intros Hwf Hlt.
  pose proof (add_wf bag o Hwf Hlt) as Hadd.
  unfold bag_add_with_data.
  destruct (poc_object_bag_add bag o) as [[found bag1] effects].
  cbn [fst snd] in Hadd.
  destruct found; [exact Hadd |].
  apply set_data_full_wf. exact Hadd.
Qed.

Lemma bag_add_with_data_has_data bag (o : Obj) (d : Data) (f : option Notify) :
  has_data bag -> has_data (bag_add_with_data bag o d f).
Proof.
  unfold has_data. induction bag as [| item rest IH]; intros Hdata.
  - rewrite bag_add_with_data_nil. repeat constructor. discriminate.
  - rewrite bag_add_with_data_cons. apply Forall_cons in Hdata as [Hd Hdata].
    destruct (decide (item_object item = o)).
    + constructor; [exact Hd | exact Hdata].
    + constructor; [exact Hd | apply IH; exact Hdata].
Qed.

(** Adding an object with its data and removing it again gives back the
    bag; the removal says whether the object was new. *)
Lemma bag_add_with_data_remove bag (o : Obj) (d : Data) (f : option Notify) :
  bag_wf bag -> bag_refs bag o < G_MAXINT ->
  (poc_object_bag_remove (bag_add_with_data bag o d f) o).1
  = (negb (poc_object_bag_contains bag o), bag).
Proof.
  induction bag as [| item rest IH]; intros Hwf Hlt.
  - rewrite bag_add_with_data_nil.
    unfold poc_object_bag_remove, poc_object_bag_find_object. cbn.
    rewrite decide_True by reflexivity. reflexivity.
  - rewrite bag_add_with_data_cons, contains_cons.
    rewrite bag_refs_cons in Hlt.
    apply wf_cons in Hwf as (Hnew & Hcount & Hwf).
    destruct (decide (item_object item = o)) as [Ho | Ho].
    + rewrite remove_cons. cbn [item_object item_count set_count].
      rewrite decide_True by exact Ho.
      rewrite (gint_wrap_small (item_count item + 1))
        by (unfold G_MAXINT in *; lia).
      replace (item_count item + 1 - 1) with (item_count item) by lia.
      rewrite gint_wrap_small by (unfold G_MAXINT in *; lia).
      rewrite (proj2 (Z.leb_gt _ _)) by lia.
      destruct item; reflexivity.
    + specialize (IH Hwf Hlt). rewrite remove_cons.
      rewrite decide_False by exact Ho.
      destruct (poc_object_bag_remove (bag_add_with_data rest o d f) o)
        as [[r bag'] effects].
      cbn [fst snd] in *. injection IH as -> ->. reflexivity.
Qed.

(** Removing one object and adding another can be done in either order. *)
Lemma bag_add_with_data_remove_other bag (a b : Obj) (d : Data)
    (f : option Notify) :
  a <> b ->
  (poc_object_bag_remove (bag_add_with_data bag b d f) a).1
  = ((poc_object_bag_remove bag a).1.1,
     bag_add_with_data (poc_object_bag_remove bag a).1.2 b d f).
Proof.
  intros Hne. induction bag as [| item rest IH].
  - rewrite bag_add_with_data_nil, remove_cons. cbn [item_object].
    rewrite decide_False by congruence.
    rewrite (remove_absent [] a eq_refl). cbn [fst snd].
    rewrite bag_add_with_data_nil. reflexivity.
  - rewrite bag_add_with_data_cons.
    destruct (decide (item_object item = b)) as [Hb | Hb].
    + rewrite !remove_cons. cbn [item_object set_count].
      rewrite !decide_False by congruence.
      destruct (poc_object_bag_remove rest a) as [[r bag'] effects].
      cbn [fst snd]. rewrite bag_add_with_data_cons.
      rewrite decide_True by exact Hb. reflexivity.
    + rewrite !remove_cons.
      destruct (decide (item_object item = a)) as [Ha | Ha].
      * destruct (gint_wrap (item_count item - 1) <=? 0); cbn [fst snd];
          [reflexivity |].
        rewrite bag_add_with_data_cons. cbn [item_object set_count].
        rewrite decide_False by exact Hb. reflexivity.
      * destruct (poc_object_bag_remove (bag_add_with_data rest b d f) a)
          as [[r bag'] effects].
        destruct (poc_object_bag_remove rest a) as [[r0 bag0] effects0].
        cbn [fst snd] in *. rewrite bag_add_with_data_cons.
        rewrite decide_False by exact Hb. injection IH as -> ->.
        reflexivity.
Qed.

Lemma remove_has_data bag (o : Obj) :
  has_data bag -> has_data (poc_object_bag_remove bag o).1.2.
Proof.
  unfold has_data. induction bag as [| item rest IH]; intros Hdata;
    [exact Hdata |].
  rewrite remove_cons. apply Forall_cons in Hdata as [Hd Hdata].
  destruct (decide (item_object item = o)).
  - destruct (gint_wrap (item_count item - 1) <=? 0); cbn [fst snd];
      [exact Hdata | constructor; [exact Hd | exact Hdata]].
  - specialize (IH Hdata).
    destruct (poc_object_bag_remove rest o) as [[r bag'] effects].
    cbn [fst snd] in *. constructor; [exact Hd | exact IH].
Qed.

(** A removal that returns FALSE leaves every object in the bag. *)
Lemma remove_kept_contains bag (o o' : Obj) :
  (poc_object_bag_remove bag o).1.1 = false ->
  poc_object_bag_contains (poc_object_bag_remove bag o).1.2 o'
  = poc_object_bag_contains bag o'.
Proof.
  induction bag as [| item rest IH]; [reflexivity |].
  rewrite remove_cons.
  destruct (decide (item_object item = o)) as [Ho | Ho].
  - destruct (gint_wrap (item_count item - 1) <=? 0); cbn [fst snd];
      [discriminate |].
    intros _. rewrite !contains_cons. reflexivity.
  - destruct (poc_object_bag_remove rest o) as [[r bag'] effects].
    cbn [fst snd] in *. intros Hr. rewrite !contains_cons.
    destruct (decide (item_object item = o')); [reflexivity | exact (IH Hr)].
Qed.

Lemma has_data_get_data bag (o : Obj) :
  has_data bag -> poc_object_bag_contains bag o = true ->
  poc_object_bag_get_data bag o <> None.
Proof.
  unfold has_data. induction bag as [| item rest IH]; intros Hdata;
    [discriminate |].
  apply Forall_cons in Hdata as [Hd Hdata].
  rewrite contains_cons, get_data_cons.
  destruct (decide (item_object item = o)); [intros _; exact Hd | apply IH, Hdata].
Qed.

Lemma set_bag_data_cons item bag (o : Obj) (v : Data) :
  set_bag_data (item :: bag) o v
  = if decide (item_object item = o)
    then {| item_object := item_object item; item_count := item_count item; item_data := Some v;
            item_destroy := item_destroy item |} :: bag
    else item :: set_bag_data bag o v.
Proof.
  unfold set_bag_data. rewrite find_object_cons.
  destruct (decide (item_object item = o)); [reflexivity |].
  destruct (poc_object_bag_find_object bag o); reflexivity.
Qed.

Lemma set_bag_data_has_data bag (o : Obj) (v : Data) :
  has_data bag -> has_data (set_bag_data bag o v).
Proof.
  unfold has_data. induction bag as [| item rest IH]; intros Hdata;
    [exact Hdata |].
  rewrite set_bag_data_cons. apply Forall_cons in Hdata as [Hd Hdata].
  destruct (decide (item_object item = o)).
  - constructor; [discriminate | exact Hdata].
  - constructor; [exact Hd | apply IH; exact Hdata].
Qed.

End BagWithData.

Section SoloFlags.
Context {Obj : Type} `{!EqDecision Obj}.
Implicit Type bag : PocObjectBag Obj PocPlotDataset GDestroyNotify.
Local Open Scope Z_scope.

Lemma solo_flags_nonneg bag : 0 <= solo_flags bag.
Proof.
  induction bag as [| item rest IH]; cbn [solo_flags]; [lia |].
  destruct (item_data item) as [[[]] |]; cbn [dataset_solo]; lia.
Qed.

Lemma solo_flags_add bag (o : Obj) (f : option GDestroyNotify) :
  solo_flags (bag_add_with_data bag o {| dataset_solo := false |} f)
  = solo_flags bag.
Proof.
  induction bag as [| item rest IH].
  - rewrite bag_add_with_data_nil. reflexivity.
  - rewrite bag_add_with_data_cons.
    destruct (decide (item_object item = o)); cbn [solo_flags item_data set_count];
      [reflexivity | rewrite IH; reflexivity].
Qed.

Lemma solo_flags_remove bag (o : Obj) :
  solo_flags (poc_object_bag_remove bag o).1.2 <= solo_flags bag.
Proof.
  induction bag as [| item rest IH]; [cbn; lia |].
  rewrite remove_cons.
  destruct (decide (item_object item = o)).
  - destruct (gint_wrap (item_count item - 1) <=? 0);
      cbn [fst snd solo_flags item_data set_count]; [| lia].
    destruct (item_data item) as [[[]] |]; cbn [dataset_solo]; lia.
  - destruct (poc_object_bag_remove rest o) as [[r bag'] effects].
    cbn [fst snd solo_flags] in *. lia.
Qed.

Lemma solo_flags_set bag (o : Obj) (d : PocPlotDataset) (solo : bool) :
  poc_object_bag_get_data bag o = Some d ->
  solo_flags (set_bag_data bag o {| dataset_solo := solo |})
  = solo_flags bag + Z.b2z solo - Z.b2z (dataset_solo d).
Proof.
  induction bag as [| item rest IH]; [discriminate |].
  rewrite get_data_cons, set_bag_data_cons.
  destruct (decide (item_object item = o)).
  - intros Hd. cbn [solo_flags item_data dataset_solo]. rewrite Hd.
    destruct solo, (dataset_solo d); cbn; lia.
  - intros Hd. cbn [solo_flags]. rewrite (IH Hd). lia.
Qed.

(** A dataset whose flag is set is counted. *)
Lemma solo_flags_positive bag (o : Obj) (d : PocPlotDataset) :
  poc_object_bag_get_data bag o = Some d -> dataset_solo d = true ->
  1 <= solo_flags bag.
Proof.
  induction bag as [| item rest IH]; [discriminate |].
  rewrite get_data_cons. cbn [solo_flags].
  pose proof (solo_flags_nonneg rest).
  destruct (decide (item_object item = o)).
  - intros -> ->. lia.
  - intros Hd Hs. specialize (IH Hd Hs).
    destruct (item_data item) as [[[]] |]; cbn [dataset_solo]; lia.
Qed.

End SoloFlags.

Section PlotProperties.
Context {Obj : Type} `{!EqDecision Obj}.
Implicit Type self : PocPlot Obj.
Local Open Scope Z_scope.


Lemma same_datasets_refl self : same_datasets self self.
Proof. split; reflexivity. Qed.

Lemma same_datasets_trans self1 self2 self3 :
  same_datasets self1 self2 -> same_datasets self2 self3 ->
  same_datasets self1 self3.
Proof. intros [H1 H2] [H3 H4]. split; congruence. Qed.

(** *** The axes *)

Lemma set_x_axis_spec self (a : Obj) :
  axes_inv self ->
  axes_inv (poc_plot_set_x_axis self a)
  /\ same_datasets self (poc_plot_set_x_axis self a)
  /\ axes (poc_plot_set_x_axis self a) = axes self.
Proof.
  intros [[Hx Hy] Hdata]. unfold poc_plot_set_x_axis.
  destruct (poc_object_bag_contains (axes self) a) eqn:Hc.
  - split; [| split; [split |]; reflexivity].
    split; [split |]; cbn; [| exact Hy | exact Hdata].
    intros a' [= <-]. exact Hc.
  - split; [split; [split |]; assumption |].
    split; [apply same_datasets_refl | reflexivity].
Qed.

Lemma set_y_axis_spec self (a : Obj) :
  axes_inv self ->
  axes_inv (poc_plot_set_y_axis self a)
  /\ same_datasets self (poc_plot_set_y_axis self a)
  /\ axes (poc_plot_set_y_axis self a) = axes self.
Proof.
  intros [[Hx Hy] Hdata]. unfold poc_plot_set_y_axis.
  destruct (poc_object_bag_contains (axes self) a) eqn:Hc.
  - split; [| split; [split |]; reflexivity].
    split; [split |]; cbn; [exact Hx | | exact Hdata].
    intros a' [= <-]. exact Hc.
  - split; [split; [split |]; assumption |].
    split; [apply same_datasets_refl | reflexivity].
Qed.

Lemma set_axis_spec self (a : Obj) :
  axes_inv self ->
  axes_inv (poc_plot_set_axis self a)
  /\ same_datasets self (poc_plot_set_axis self a).
Proof.
  intros Hinv. unfold poc_plot_set_axis.
  destruct (poc_object_bag_get_data (axes self) a) as [axis_data |];
    [| split; [exact Hinv | apply same_datasets_refl]].
  destruct (axis_orientation axis_data).
  - destruct (set_x_axis_spec self a Hinv) as (H1 & H2 & _). split; assumption.
  - destruct (set_y_axis_spec self a Hinv) as (H1 & H2 & _). split; assumption.
Qed.

Lemma add_axis_fields self (axis : Obj) (hidden : bool) (pack : GtkPackType)
    (orientation : GtkOrientation) :
  let self' := poc_plot_add_axis self axis hidden pack orientation in
  axes self'
  = bag_add_with_data (axes self) axis
      {| axis_pack := pack; axis_orientation := orientation;
         axis_hidden := hidden;
         axis_area := {| rect_x := 0; rect_y := 0; rect_width := 0;
                         rect_height := 0 |} |} (Some g_free)
  /\ plot_x_axis self' = plot_x_axis self
  /\ plot_y_axis self' = plot_y_axis self
  /\ same_datasets self self'.
Proof.
  unfold poc_plot_add_axis, bag_add_with_data, same_datasets.
  destruct (poc_object_bag_add (axes self) axis) as [[found bag] effects].
  destruct found; [cbn; auto |].
  destruct (poc_object_bag_set_data_full bag axis _ _) as [[r bag'] effects'].
  cbn. auto.
Qed.

Lemma add_axis_spec self (axis : Obj) (hidden : bool) (pack : GtkPackType)
    (orientation : GtkOrientation) :
  axes_inv self ->
  axes_inv (poc_plot_add_axis self axis hidden pack orientation)
  /\ poc_object_bag_contains
       (axes (poc_plot_add_axis self axis hidden pack orientation)) axis
     = true.
Proof.
  intros [[Hx Hy] Hdata].
  destruct (add_axis_fields self axis hidden pack orientation)
    as (Haxes & Hx' & Hy' & _).
  set (self' := poc_plot_add_axis self axis hidden pack orientation) in *.
  split; [split; [split |] |].
  - intros a Ha. rewrite Haxes, bag_add_with_data_contains.
    rewrite Hx' in Ha. rewrite (Hx a Ha). reflexivity.
  - intros a Ha. rewrite Haxes, bag_add_with_data_contains.
    rewrite Hy' in Ha. rewrite (Hy a Ha). reflexivity.
  - rewrite Haxes. apply bag_add_with_data_has_data. exact Hdata.
  - rewrite Haxes, bag_add_with_data_contains.
    rewrite bool_decide_eq_true_2 by reflexivity. apply orb_true_r.
Qed.

Lemma remove_axis_fields self (axis : Obj) :
  let self' := poc_plot_remove_axis self axis in
  let removed := (poc_object_bag_remove (axes self) axis).1.1 in
  axes self' = (poc_object_bag_remove (axes self) axis).1.2
  /\ plot_x_axis self'
     = (if removed && bool_decide (plot_x_axis self = Some axis)
        then None else plot_x_axis self)
  /\ plot_y_axis self'
     = (if removed && bool_decide (plot_y_axis self = Some axis)
        then None else plot_y_axis self)
  /\ same_datasets self self'.
Proof.
  unfold poc_plot_remove_axis, same_datasets.
  destruct (poc_object_bag_remove (axes self) axis) as [[removed bag] effects].
  destruct self as [ax ds px py so rl]. cbn.
  destruct removed; cbn; [| auto].
  repeat case_decide; repeat case_bool_decide; cbn in *; try congruence;
    auto.
Qed.

Lemma remove_axis_spec self (axis : Obj) :
  axes_inv self ->
  axes_inv (poc_plot_remove_axis self axis)
  /\ same_datasets self (poc_plot_remove_axis self axis).
Proof.
  intros [[Hx Hy] Hdata].
  destruct (remove_axis_fields self axis) as (Haxes & Hx' & Hy' & Hsame).
  cbv zeta in *.
  set (self' := poc_plot_remove_axis self axis) in *.
  pose proof (remove_kept_contains (axes self) axis) as Hkept.
  pose proof (remove_contains_other (axes self) axis) as Hother.
  split; [| exact Hsame]. split; [split |].
  - intros a Ha. rewrite Hx' in Ha. rewrite Haxes.
    destruct ((poc_object_bag_remove (axes self) axis).1.1) eqn:Hr.
    + cbn [andb] in Ha.
      destruct (decide (plot_x_axis self = Some axis)) as [He | He].
      * rewrite (bool_decide_eq_true_2 _ He) in Ha. discriminate.
      * rewrite (bool_decide_eq_false_2 _ He) in Ha.
        rewrite Hother by congruence. apply Hx, Ha.
    + rewrite Hkept by reflexivity. apply Hx, Ha.
  - intros a Ha. rewrite Hy' in Ha. rewrite Haxes.
    destruct ((poc_object_bag_remove (axes self) axis).1.1) eqn:Hr.
    + cbn [andb] in Ha.
      destruct (decide (plot_y_axis self = Some axis)) as [He | He].
      * rewrite (bool_decide_eq_true_2 _ He) in Ha. discriminate.
      * rewrite (bool_decide_eq_false_2 _ He) in Ha.
        rewrite Hother by congruence. apply Hy, Ha.
    + rewrite Hkept by reflexivity. apply Hy, Ha.
  - rewrite Haxes. apply remove_has_data, Hdata.
Qed.

Lemma clear_axes_spec self :
  axes_inv (poc_plot_clear_axes self)
  /\ same_datasets self (poc_plot_clear_axes self).
Proof.
  split; [| split; reflexivity].
  split; [split; intros a; discriminate | constructor].
Qed.

(** *** The datasets *)

Section DatasetAxes.
Variable poc_dataset_get_x_axis : Obj -> option Obj.
Variable poc_dataset_get_y_axis : Obj -> option Obj.

Lemma remove_dataset_internal_spec self (dataset : Obj) :
  axes_inv self ->
  axes_inv (poc_plot_remove_dataset_internal poc_dataset_get_x_axis
              poc_dataset_get_y_axis self dataset)
  /\ same_datasets self
       (poc_plot_remove_dataset_internal poc_dataset_get_x_axis
          poc_dataset_get_y_axis self dataset).
Proof.
  intros Hinv. unfold poc_plot_remove_dataset_internal.
  assert (H1 : axes_inv
                 match poc_dataset_get_x_axis dataset with
                 | Some axis => poc_plot_remove_axis self axis
                 | None => self
                 end
               /\ same_datasets self
                 match poc_dataset_get_x_axis dataset with
                 | Some axis => poc_plot_remove_axis self axis
                 | None => self
                 end).
  { destruct (poc_dataset_get_x_axis dataset) as [axis |];
      [apply remove_axis_spec, Hinv
      | split; [exact Hinv | apply same_datasets_refl]]. }
  destruct H1 as [Hinv1 Hsame1].
  set (self1 := match poc_dataset_get_x_axis dataset with
                | Some axis => poc_plot_remove_axis self axis
                | None => self
                end) in *.
  destruct (poc_dataset_get_y_axis dataset) as [axis |];
    [| split; assumption].
  destruct (remove_axis_spec self1 axis Hinv1) as [Hinv2 Hsame2].
  split; [exact Hinv2 | exact (same_datasets_trans _ _ _ Hsame1 Hsame2)].
Qed.

Lemma add_dataset_spec self (dataset : Obj) (x_pack y_pack : GtkPackType) :
  axes_inv self ->
  let self' :=
    poc_plot_add_dataset poc_dataset_get_x_axis poc_dataset_get_y_axis self
      dataset x_pack y_pack in
  axes_inv self'
  /\ datasets self'
     = bag_add_with_data (datasets self) dataset {| dataset_solo := false |}
         (Some g_free)
  /\ plot_solo self' = plot_solo self.
Proof.
  intros Hinv. cbv zeta. unfold poc_plot_add_dataset.
  fold (bag_add_with_data (datasets self) dataset {| dataset_solo := false |}
          (Some g_free)).
  set (bag := bag_add_with_data (datasets self) dataset
                {| dataset_solo := false |} (Some g_free)).
  assert (Hbag :
    (let '(found, bag0, _) := poc_object_bag_add (datasets self) dataset in
     if found then bag0
     else (poc_object_bag_set_data_full bag0 dataset
             (Some {| dataset_solo := false |}) (Some g_free)).1.2) = bag)
    by reflexivity.
  destruct (poc_object_bag_add (datasets self) dataset)
    as [[found bag0] effects].
  rewrite Hbag. clear Hbag.
  set (self0 := set_datasets bag self).
  assert (Hinv0 : axes_inv self0) by exact Hinv.
  assert (Hd0 : datasets self0 = bag /\ plot_solo self0 = plot_solo self)
    by (split; reflexivity).
  clearbody self0.
  (* the X axis *)
  set (self1 := match poc_dataset_get_x_axis dataset with
                | Some axis => _
                | None => self0
                end).
  assert (H1 : axes_inv self1 /\ same_datasets self0 self1).
  { subst self1. destruct (poc_dataset_get_x_axis dataset) as [axis |];
      [| split; [exact Hinv0 | apply same_datasets_refl]].
    destruct (add_axis_spec self0 axis false x_pack
                GTK_ORIENTATION_HORIZONTAL Hinv0) as [Hinv1 _].
    destruct (add_axis_fields self0 axis false x_pack
                GTK_ORIENTATION_HORIZONTAL) as (_ & _ & _ & Hsame1).
    cbv zeta in Hsame1.
    set (selfa := poc_plot_add_axis self0 axis false x_pack
                    GTK_ORIENTATION_HORIZONTAL) in *.
    destruct (plot_x_axis selfa); [split; assumption |].
    destruct (set_x_axis_spec selfa axis Hinv1) as (H & Hsame2 & _).
    split; [exact H | exact (same_datasets_trans _ _ _ Hsame1 Hsame2)]. }
  destruct H1 as [Hinv1 Hsame1]. clearbody self1.
  (* the Y axis *)
  assert (H2 : axes_inv
                 match poc_dataset_get_y_axis dataset with
                 | Some axis =>
                     match plot_y_axis
                             (poc_plot_add_axis self1 axis false y_pack
                                GTK_ORIENTATION_VERTICAL) with
                     | None =>
                         poc_plot_set_y_axis
                           (poc_plot_add_axis self1 axis false y_pack
                              GTK_ORIENTATION_VERTICAL) axis
                     | Some _ =>
                         poc_plot_add_axis self1 axis false y_pack
                           GTK_ORIENTATION_VERTICAL
                     end
                 | None => self1
                 end
               /\ same_datasets self1
                 match poc_dataset_get_y_axis dataset with
                 | Some axis =>
                     match plot_y_axis
                             (poc_plot_add_axis self1 axis false y_pack
                                GTK_ORIENTATION_VERTICAL) with
                     | None =>
                         poc_plot_set_y_axis
                           (poc_plot_add_axis self1 axis false y_pack
                              GTK_ORIENTATION_VERTICAL) axis
                     | Some _ =>
                         poc_plot_add_axis self1 axis false y_pack
                           GTK_ORIENTATION_VERTICAL
                     end
                 | None => self1
                 end).
  { destruct (poc_dataset_get_y_axis dataset) as [axis |];
      [| split; [exact Hinv1 | apply same_datasets_refl]].
    destruct (add_axis_spec self1 axis false y_pack
                GTK_ORIENTATION_VERTICAL Hinv1) as [Hinva _].
    destruct (add_axis_fields self1 axis false y_pack
                GTK_ORIENTATION_VERTICAL) as (_ & _ & _ & Hsamea).
    cbv zeta in Hsamea.
    set (selfa := poc_plot_add_axis self1 axis false y_pack
                    GTK_ORIENTATION_VERTICAL) in *.
    destruct (plot_y_axis selfa); [split; assumption |].
    destruct (set_y_axis_spec selfa axis Hinva) as (H & Hsame2 & _).
    split; [exact H | exact (same_datasets_trans _ _ _ Hsamea Hsame2)]. }
  destruct H2 as [Hinv2 Hsame2].
  split; [exact Hinv2 |].
  destruct (same_datasets_trans _ _ _ Hsame1 Hsame2) as [Hd Hs].
  destruct Hd0 as [Hd0 Hs0]. split; congruence.
Qed.

Lemma remove_dataset_spec self (dataset : Obj) :
  axes_inv self ->
  let self' :=
    poc_plot_remove_dataset poc_dataset_get_x_axis poc_dataset_get_y_axis self
      dataset in
  axes_inv self'
  /\ datasets self' = (poc_object_bag_remove (datasets self) dataset).1.2
  /\ plot_solo self' = plot_solo self.
Proof.
  intros Hinv. cbv zeta. unfold poc_plot_remove_dataset.
  destruct (poc_object_bag_remove (datasets self) dataset)
    as [[removed bag] effects].
  cbn [fst snd]. destruct removed; [| split; [exact Hinv | split; reflexivity]].
  destruct (remove_dataset_internal_spec (set_datasets bag self) dataset Hinv)
    as [Hinv' [Hd Hs]].
  split; [exact Hinv' | split; [exact Hd | exact Hs]].
Qed.

Lemma clear_dataset_loop_spec
    (bag : PocObjectBag Obj PocPlotDataset GDestroyNotify) self :
  axes_inv self ->
  axes_inv
    (poc_object_bag_foreach bag
       (poc_plot_clear_dataset_cb poc_dataset_get_x_axis
          poc_dataset_get_y_axis) self)
  /\ same_datasets self
       (poc_object_bag_foreach bag
          (poc_plot_clear_dataset_cb poc_dataset_get_x_axis
             poc_dataset_get_y_axis) self).
Proof.
  unfold poc_object_bag_foreach. revert self.
  induction bag as [| item rest IH]; intros self Hinv.
  - split; [exact Hinv | apply same_datasets_refl].
  - cbn [fold_left]. unfold poc_plot_clear_dataset_cb at 2 4.
    destruct (remove_dataset_internal_spec self (item_object item) Hinv)
      as [Hinv1 Hsame1].
    destruct (IH _ Hinv1) as [Hinv2 Hsame2].
    split; [exact Hinv2 | exact (same_datasets_trans _ _ _ Hsame1 Hsame2)].
Qed.

Lemma clear_dataset_spec self :
  axes_inv self ->
  let self' :=
    poc_plot_clear_dataset poc_dataset_get_x_axis poc_dataset_get_y_axis
      self in
  axes_inv self' /\ datasets self' = [] /\ plot_solo self' = plot_solo self.
Proof.
  intros Hinv. cbv zeta. unfold poc_plot_clear_dataset.
  destruct (clear_dataset_loop_spec (datasets self) self Hinv)
    as [Hinv' [Hd Hs]].
  split; [exact Hinv' | split; [reflexivity | exact Hs]].
Qed.

Lemma plot_inv_weaken self (n : Z) : plot_inv n self -> plot_inv (n + 1) self.
Proof.
  intros (Haxes & Hdata & Hflags).
  split; [exact Haxes | split; [exact Hdata | lia]].
Qed.

Lemma solo_dataset_spec self (dataset : Obj) (solo : bool) (n : Z) :
  plot_inv n self -> 0 <= n < G_MAXINT ->
  exists self',
    poc_plot_solo_dataset self dataset solo = Some self'
    /\ plot_inv (n + 1) self'.
Proof.
  intros Hinv Hn. pose proof Hinv as (Haxes & Hdata & Hflags).
  pose proof (solo_flags_nonneg (datasets self)) as Hnonneg.
  unfold poc_plot_solo_dataset.
  destruct (poc_object_bag_get_data (datasets self) dataset) as [data0 |]
    eqn:Hget;
    [| exists self; split; [reflexivity | apply plot_inv_weaken, Hinv]].
  pose proof (solo_flags_set (datasets self) dataset data0 solo Hget) as Hset.
  destruct solo, (dataset_solo data0) eqn:Hsolo; cbn [andb negb].
  - exists self. split; [reflexivity | apply plot_inv_weaken, Hinv].
  - rewrite gint_wrap_small by (unfold G_MAXINT in *; lia).
    cbn [set_plot_solo set_datasets plot_solo datasets].
    rewrite (proj2 (Z.leb_le _ _)) by lia.
    eexists. split; [reflexivity |].
    split; [exact Haxes | split].
    + apply set_bag_data_has_data, Hdata.
    + cbn [datasets plot_solo set_datasets set_plot_solo].
      rewrite Hset. cbn [Z.b2z]. lia.
  - pose proof (solo_flags_positive (datasets self) dataset data0 Hget Hsolo).
    rewrite gint_wrap_small by (unfold G_MAXINT in *; lia).
    cbn [set_plot_solo set_datasets plot_solo datasets].
    rewrite (proj2 (Z.leb_le _ _)) by lia.
    eexists. split; [reflexivity |].
    split; [exact Haxes | split].
    + apply set_bag_data_has_data, Hdata.
    + cbn [datasets plot_solo set_datasets set_plot_solo].
      rewrite Hset. cbn [Z.b2z]. lia.
  - exists self. split; [reflexivity | apply plot_inv_weaken, Hinv].
Qed.

Lemma plot_call_inv self (c : PlotCall Obj) (n : Z) :
  plot_inv n self -> 0 <= n < G_MAXINT ->
  exists self',
    poc_plot_call poc_dataset_get_x_axis poc_dataset_get_y_axis self c
    = Some self'
    /\ plot_inv (n + 1) self'.
Proof.
  intros Hinv Hn.
  destruct c as [a | a | a | a h p o | a | | d xp yp | d | | d s];
    cbn [poc_plot_call];
    try (apply solo_dataset_spec; assumption);
    destruct Hinv as (Haxes & Hdata & Hflags);
    eexists; (split; [reflexivity |]).
  - destruct (set_x_axis_spec self a Haxes) as (H & [Hd Hs] & _).
    split; [exact H | rewrite Hd, Hs; split; [exact Hdata | lia]].
  - destruct (set_y_axis_spec self a Haxes) as (H & [Hd Hs] & _).
    split; [exact H | rewrite Hd, Hs; split; [exact Hdata | lia]].
  - destruct (set_axis_spec self a Haxes) as (H & [Hd Hs]).
    split; [exact H | rewrite Hd, Hs; split; [exact Hdata | lia]].
  - destruct (add_axis_spec self a h p o Haxes) as [H _].
    destruct (add_axis_fields self a h p o) as (_ & _ & _ & [Hd Hs]).
    split; [exact H | rewrite Hd, Hs; split; [exact Hdata | lia]].
  - destruct (remove_axis_spec self a Haxes) as (H & [Hd Hs]).
    split; [exact H | rewrite Hd, Hs; split; [exact Hdata | lia]].
  - destruct (clear_axes_spec self) as (H & [Hd Hs]).
    split; [exact H | rewrite Hd, Hs; split; [exact Hdata | lia]].
  - destruct (add_dataset_spec self d xp yp Haxes) as (H & Hd & Hs).
    split; [exact H | rewrite Hd, Hs; split].
    + apply bag_add_with_data_has_data, Hdata.
    + rewrite solo_flags_add. lia.
  - destruct (remove_dataset_spec self d Haxes) as (H & Hd & Hs).
    split; [exact H | rewrite Hd, Hs; split].
    + apply remove_has_data, Hdata.
    + pose proof (solo_flags_remove (datasets self) d). lia.
  - destruct (clear_dataset_spec self Haxes) as (H & Hd & Hs).
    split; [exact H | rewrite Hd, Hs; split].
    + constructor.
    + pose proof (solo_flags_nonneg (datasets self)). cbn. lia.
Qed.

End DatasetAxes.

Lemma plot_calls_inv
    (calls : list ((Obj -> option Obj) * (Obj -> option Obj) * PlotCall Obj))
    self (n : Z) :
  plot_inv n self -> 0 <= n -> n + Z.of_nat (length calls) <= G_MAXINT ->
  exists self',
    poc_plot_calls self calls = Some self'
    /\ plot_inv (n + Z.of_nat (length calls)) self'.
Proof.
  revert self n. induction calls as [| [[get_x get_y] c] rest IH];
    intros self n Hinv H0 Hn.
  - exists self. split; [reflexivity |]. cbn [length].
    replace (n + Z.of_nat 0) with n by lia. exact Hinv.
  - cbn [poc_plot_calls]. cbn [length] in *.
    destruct (plot_call_inv get_x get_y self c n Hinv ltac:(lia))
      as (self1 & -> & Hinv1).
    destruct (IH self1 (n + 1) Hinv1 ltac:(lia) ltac:(lia))
      as (self2 & -> & Hinv2).
    exists self2. split; [reflexivity |].
    replace (n + Z.of_nat (S (length rest)))
      with (n + 1 + Z.of_nat (length rest)) by lia.
    exact Hinv2.
Qed.

Lemma plot_init_inv : plot_inv 0 (poc_plot_init (Obj := Obj)).
Proof.
  split; [split; [split; intros a; discriminate | constructor] |].
  split; [constructor | cbn; lia].
Qed.

End PlotProperties.

Section PlotDraw.
Context {Obj : Type} `{!EqDecision Obj}.
Implicit Type self : PocPlot Obj.
Implicit Type bag : PocObjectBag Obj PocPlotDataset GDestroyNotify.
Local Open Scope Z_scope.

Lemma draw_datasets_loop self bag (l : list Obj) :
  has_data bag ->
  poc_object_bag_foreach bag (poc_plot_draw_dataset self) (Some l)
  = Some (l ++ if plot_solo self =? 0 then item_object <$> bag
               else solo_objects bag).
Proof.
  unfold poc_object_bag_foreach, has_data. revert l.
  induction bag as [| item rest IH]; intros l Hdata.
  - cbn. destruct (plot_solo self =? 0); rewrite app_nil_r; reflexivity.
  - apply Forall_cons in Hdata as [Hd Hdata].
    cbn [fold_left poc_plot_draw_dataset fmap list_fmap solo_objects].
    destruct (plot_solo self =? 0) eqn:Hsolo.
    + rewrite (IH _ Hdata), <- app_assoc. reflexivity.
    + destruct (item_data item) as [[[]] |]; [| | contradiction];
        cbn [dataset_solo]; rewrite (IH _ Hdata), <- ?app_assoc; reflexivity.
Qed.

Lemma draw_datasets_spec self :
  has_data (datasets self) ->
  poc_plot_draw_datasets self
  = Some (if plot_solo self =? 0 then item_object <$> datasets self
          else solo_objects (datasets self)).
Proof. intros Hdata. apply (draw_datasets_loop self _ [] Hdata). Qed.

Lemma solo_objects_none bag : solo_flags bag = 0 -> solo_objects bag = [].
Proof.
  induction bag as [| item rest IH]; [reflexivity |].
  cbn [solo_flags solo_objects]. pose proof (solo_flags_nonneg rest).
  destruct (item_data item) as [[[]] |]; cbn [dataset_solo]; intros H0;
    try lia; apply IH; lia.
Qed.

Lemma solo_flags_remove_last bag (o : Obj) (d : PocPlotDataset) :
  bag_refs bag o = 1 -> poc_object_bag_get_data bag o = Some d ->
  (poc_object_bag_remove bag o).1.1 = true
  /\ solo_flags (poc_object_bag_remove bag o).1.2
     = solo_flags bag - Z.b2z (dataset_solo d).
Proof.
  induction bag as [| item rest IH]; [discriminate |].
  rewrite bag_refs_cons, get_data_cons, remove_cons.
  destruct (decide (item_object item = o)).
  - intros Hc Hd. rewrite Hc.
    change (gint_wrap (1 - 1) <=? 0) with true. cbn [fst snd solo_flags].
    rewrite Hd. split; [reflexivity |]. destruct (dataset_solo d); cbn; lia.
  - intros Hrefs Hget. destruct (IH Hrefs Hget) as [Hr Hflags].
    destruct (poc_object_bag_remove rest o) as [[r bag'] effects].
    cbn [fst snd solo_flags] in *. split; [exact Hr | lia].
Qed.

End PlotDraw.

Section PlotTheorems.
Context {Obj : Type} `{!EqDecision Obj}.
Implicit Type self : PocPlot Obj.
Local Open Scope Z_scope.

(** X22.  pocplot.c, the functions that manage axes and datasets: after any
    sequence of fewer than 2^31 calls on a new plot, the axes whose grids
    the plot draws are axes of the plot, and every axis and dataset of the
    plot has its data, so that the loop over the datasets in
    [poc_plot_draw] never reads through a NULL pointer: it draws all the
    datasets when the solo counter is 0 and those whose solo flag is set
    otherwise. *)
Theorem plot_grid_axes_are_axes_of_the_plot
    (calls : list ((Obj -> option Obj) * (Obj -> option Obj) * PlotCall Obj)) :
  Z.of_nat (length calls) < 2 ^ 31 ->
  exists self,
    poc_plot_calls poc_plot_init calls = Some self
    /\ grid_axes_belong self
    /\ has_data (axes self)
    /\ has_data (datasets self)
    /\ poc_plot_draw_datasets self
       = Some (if plot_solo self =? 0 then item_object <$> datasets self
               else solo_objects (datasets self)).
Proof.
  intros Hlen.
  destruct (plot_calls_inv calls poc_plot_init 0 plot_init_inv ltac:(lia)
              ltac:(unfold G_MAXINT; lia))
    as (self & Hrun & (Hgrid & Haxes) & Hdata & _).
  exists self. split; [exact Hrun | split; [exact Hgrid |]].
  split; [exact Haxes | split; [exact Hdata |]].
  apply draw_datasets_spec, Hdata.
Qed.

(** X23.  pocplot.c, [poc_plot_solo_dataset]: after any sequence of fewer
    than 2^31 calls on a new plot the assertion [self->solo >= 0] has never
    failed, and the solo counter is at least the number of datasets of the
    plot whose solo flag is set. *)
Theorem plot_solo_assertion_holds
    (calls : list ((Obj -> option Obj) * (Obj -> option Obj) * PlotCall Obj)) :
  Z.of_nat (length calls) < 2 ^ 31 ->
  exists self,
    poc_plot_calls poc_plot_init calls = Some self
    /\ 0 <= solo_flags (datasets self) <= plot_solo self.
Proof.
  intros Hlen.
  destruct (plot_calls_inv calls poc_plot_init 0 plot_init_inv ltac:(lia)
              ltac:(unfold G_MAXINT; lia))
    as (self & Hrun & _ & _ & Hflags).
  exists self. split; [exact Hrun |].
  pose proof (solo_flags_nonneg (datasets self)). lia.
Qed.

(** X24.  pocplot.c, [poc_plot_remove_dataset]: removing a dataset does not
    change the solo counter.  When the dataset that leaves the plot has its
    solo flag set, the counter stays one above the number of flags that
    are left; if it was the only solo dataset, the plot then draws no
    dataset at all, although none of those it keeps is solo. *)
Theorem plot_solo_survives_removal
    (get_x get_y : Obj -> option Obj) self (dataset : Obj) :
  has_data (datasets self) ->
  plot_solo self = solo_flags (datasets self) ->
  bag_refs (datasets self) dataset = 1 ->
  poc_object_bag_get_data (datasets self) dataset
  = Some {| dataset_solo := true |} ->
  let self' := poc_plot_remove_dataset get_x get_y self dataset in
  plot_solo self' = solo_flags (datasets self') + 1
  /\ (forall d, d <> dataset ->
        poc_object_bag_contains (datasets self') d
        = poc_object_bag_contains (datasets self) d)
  /\ (solo_flags (datasets self) = 1 ->
      solo_objects (datasets self') = []
      /\ poc_plot_draw_datasets self' = Some []).
Proof.
  intros Hdata Hsolo Hrefs Hget self'.
  destruct (solo_flags_remove_last (datasets self) dataset _ Hrefs Hget)
    as [Hr Hflags].
  cbn [dataset_solo Z.b2z] in Hflags.
  assert (Hfields :
    datasets self' = (poc_object_bag_remove (datasets self) dataset).1.2
    /\ plot_solo self' = plot_solo self).
  { subst self'. unfold poc_plot_remove_dataset.
    destruct (poc_object_bag_remove (datasets self) dataset)
      as [[removed bag] effects].
    cbn [fst snd] in *. subst removed.
    unfold poc_plot_remove_dataset_internal.
    destruct (get_x dataset) as [a |], (get_y dataset) as [b |];
      repeat match goal with
        | |- context [poc_plot_remove_axis ?s ?a] =>
            let H := fresh in
            destruct (remove_axis_fields s a) as (_ & _ & _ & [H ?]);
            cbv zeta in H; rewrite H; clear H
        end;
      split; try reflexivity;
      repeat match goal with
        | |- context [poc_plot_remove_axis ?s ?a] =>
            let H := fresh in
            destruct (remove_axis_fields s a) as (_ & _ & _ & [? H]);
            cbv zeta in H; rewrite H; clear H
        end; reflexivity. }
  destruct Hfields as [Hd Hs].
  split; [rewrite Hd, Hs, Hflags; lia | split].
  - intros d Hne. rewrite Hd. apply remove_contains_other, Hne.
  - intros Hone.
    assert (Hnone : solo_objects (datasets self') = [])
      by (apply solo_objects_none; rewrite Hd, Hflags; lia).
    split; [exact Hnone |].
    rewrite draw_datasets_spec
      by (rewrite Hd; apply remove_has_data, Hdata).
    rewrite Hnone, (proj2 (Z.eqb_neq _ _)) by lia. reflexivity.
Qed.

End PlotTheorems.

Lemma plot_grid_axes_are_axes_of_the_plot_witness :
  (Z.of_nat (length example_calls) < 2 ^ 31)%Z
  /\ exists self,
       poc_plot_calls poc_plot_init example_calls = Some self
       /\ grid_axes_belong self.
Proof.
  split; [reflexivity |].
  destruct (plot_grid_axes_are_axes_of_the_plot example_calls eq_refl)
    as (self & Hrun & Hgrid & _).
  exists self. split; [exact Hrun | exact Hgrid].
Defined.

Lemma plot_solo_assertion_holds_witness :
  (Z.of_nat (length example_calls) < 2 ^ 31)%Z
  /\ exists self,
       poc_plot_calls poc_plot_init example_calls = Some self
       /\ (0 <= plot_solo self)%Z.
Proof.
  split; [reflexivity |].
  destruct (plot_solo_assertion_holds example_calls eq_refl)
    as (self & Hrun & Hsolo).
  exists self. split; [exact Hrun | lia].
Defined.

Lemma example_plot_has_data : has_data (datasets example_plot).
Proof. repeat constructor; discriminate. Qed.

Lemma plot_solo_survives_removal_witness :
  has_data (datasets example_plot)
  /\ plot_solo example_plot = solo_flags (datasets example_plot)
  /\ bag_refs (datasets example_plot) 1%nat = 1%Z
  /\ poc_object_bag_get_data (datasets example_plot) 1%nat
     = Some {| dataset_solo := true |}
  /\ poc_object_bag_contains
       (datasets (poc_plot_remove_dataset example_get_x example_get_y
                    example_plot 1%nat)) 2%nat = true
  /\ poc_plot_draw_datasets
       (poc_plot_remove_dataset example_get_x example_get_y example_plot
          1%nat) = Some [].
Proof.
  split; [exact example_plot_has_data |].
  split; [reflexivity | split; [reflexivity | split; [reflexivity |]]].
  destruct (plot_solo_survives_removal example_get_x example_get_y
              example_plot 1%nat example_plot_has_data
              ltac:(reflexivity) ltac:(reflexivity) ltac:(reflexivity))
    as (_ & Hkept & Hdraw).
  split; [rewrite Hkept by discriminate; reflexivity |].
  apply Hdraw. reflexivity.
Defined.


Section PlotFieldsOf.
Context {Obj : Type} `{!EqDecision Obj}.
Implicit Type self : PocPlot Obj.
Local Open Scope Z_scope.

Lemma set_x_axis_fields self (a : Obj) :
  poc_object_bag_contains (axes self) a = true ->
  let self' := poc_plot_set_x_axis self a in
  axes self' = axes self /\ plot_x_axis self' = Some a
  /\ plot_y_axis self' = plot_y_axis self /\ same_datasets self self'.
Proof.
  intros Hc. unfold poc_plot_set_x_axis, same_datasets. rewrite Hc.
  cbn. auto.
Qed.

Lemma set_y_axis_fields self (a : Obj) :
  poc_object_bag_contains (axes self) a = true ->
  let self' := poc_plot_set_y_axis self a in
  axes self' = axes self /\ plot_x_axis self' = plot_x_axis self
  /\ plot_y_axis self' = Some a /\ same_datasets self self'.
Proof.
  intros Hc. unfold poc_plot_set_y_axis, same_datasets. rewrite Hc.
  cbn. auto.
Qed.

Section DatasetAxes.
Variable get_x get_y : Obj -> option Obj.

Lemma add_dataset_fields self (dataset : Obj) (x_pack y_pack : GtkPackType) :
  let self' := poc_plot_add_dataset get_x get_y self dataset x_pack y_pack in
  datasets self'
  = bag_add_with_data (datasets self) dataset {| dataset_solo := false |}
      (Some g_free)
  /\ plot_solo self' = plot_solo self
  /\ axes self'
     = add_axis_opt
         (add_axis_opt (axes self) (get_x dataset)
            (dataset_axis_data x_pack GTK_ORIENTATION_HORIZONTAL))
         (get_y dataset) (dataset_axis_data y_pack GTK_ORIENTATION_VERTICAL)
  /\ plot_x_axis self' = grid_after_add (plot_x_axis self) (get_x dataset)
  /\ plot_y_axis self' = grid_after_add (plot_y_axis self) (get_y dataset).
Proof.
  cbv zeta. unfold poc_plot_add_dataset.
  fold (bag_add_with_data (datasets self) dataset {| dataset_solo := false |}
          (Some g_free)).
  set (bag := bag_add_with_data (datasets self) dataset
                {| dataset_solo := false |} (Some g_free)).
  assert (Hbag :
    (let '(found, bag0, _) := poc_object_bag_add (datasets self) dataset in
     if found then bag0
     else (poc_object_bag_set_data_full bag0 dataset
             (Some {| dataset_solo := false |}) (Some g_free)).1.2) = bag)
    by reflexivity.
  destruct (poc_object_bag_add (datasets self) dataset)
    as [[found bag0] effects].
  rewrite Hbag. clear Hbag.
  set (self0 := set_datasets bag self).
  assert (H0 : datasets self0 = bag /\ plot_solo self0 = plot_solo self
               /\ axes self0 = axes self
               /\ plot_x_axis self0 = plot_x_axis self
               /\ plot_y_axis self0 = plot_y_axis self)
    by (cbn; auto).
  clearbody self0. destruct H0 as (Hd0 & Hs0 & Ha0 & Hx0 & Hy0).
  (* the X axis *)
  set (self1 := match get_x dataset with
                | Some axis => _
                | None => self0
                end).
  assert (H1 : same_datasets self0 self1
               /\ axes self1
                  = add_axis_opt (axes self0) (get_x dataset)
                      (dataset_axis_data x_pack GTK_ORIENTATION_HORIZONTAL)
               /\ plot_x_axis self1
                  = grid_after_add (plot_x_axis self0) (get_x dataset)
               /\ plot_y_axis self1 = plot_y_axis self0).
  { subst self1. destruct (get_x dataset) as [axis |].
    - destruct (add_axis_fields self0 axis false x_pack
                  GTK_ORIENTATION_HORIZONTAL) as (Ha & Hx & Hy & Hsame).
      cbv zeta in *.
      set (selfa := poc_plot_add_axis self0 axis false x_pack
                      GTK_ORIENTATION_HORIZONTAL) in *.
      unfold grid_after_add. rewrite <- Hx.
      destruct (plot_x_axis selfa) eqn:Hxa; [cbn; auto |].
      assert (Hc : poc_object_bag_contains (axes selfa) axis = true).
      { rewrite Ha, bag_add_with_data_contains.
        rewrite bool_decide_eq_true_2 by reflexivity. apply orb_true_r. }
      destruct (set_x_axis_fields selfa axis Hc) as (Ha' & Hx' & Hy' & Hsame').
      cbv zeta in *.
      split; [exact (same_datasets_trans _ _ _ Hsame Hsame') |].
      split; [rewrite Ha', Ha; reflexivity |].
      split; [exact Hx' | congruence].
    - unfold grid_after_add. destruct (plot_x_axis self0);
        (split; [apply same_datasets_refl | cbn; auto]). }
  clearbody self1. destruct H1 as ([Hd1 Hs1] & Ha1 & Hx1 & Hy1).
  (* the Y axis *)
  destruct (get_y dataset) as [axis |].
  - destruct (add_axis_fields self1 axis false y_pack
                GTK_ORIENTATION_VERTICAL) as (Ha & Hx & Hy & [Hd Hs]).
    cbv zeta in *.
    set (selfa := poc_plot_add_axis self1 axis false y_pack
                    GTK_ORIENTATION_VERTICAL) in *.
    unfold grid_after_add at 2. rewrite <- Hy0, <- Hy1, <- Hy.
    destruct (plot_y_axis selfa) eqn:Hya.
    + rewrite Hd, Hd1, Hs, Hs1, Ha, Ha1, Hx, Hx1, Ha0, Hx0. cbn. auto.
    + assert (Hc : poc_object_bag_contains (axes selfa) axis = true).
      { rewrite Ha, bag_add_with_data_contains.
        rewrite bool_decide_eq_true_2 by reflexivity. apply orb_true_r. }
      destruct (set_y_axis_fields selfa axis Hc)
        as (Ha' & Hx' & Hy' & [Hd' Hs']).
      cbv zeta in *.
      rewrite Hd', Hd, Hd1, Hs', Hs, Hs1, Ha', Ha, Ha1, Hx', Hx, Hx1, Ha0,
        Hx0, Hy'.
      cbn. auto.
  - rewrite Hd1, Hs1, Ha1, Hx1, Hy1, Ha0, Hx0, Hy0. cbn.
    unfold grid_after_add at 2. destruct (plot_y_axis self); auto.
Qed.

Lemma remove_dataset_internal_fields self (dataset : Obj) :
  let self' := poc_plot_remove_dataset_internal get_x get_y self dataset in
  let r1 := remove_axis_opt (axes self) (get_x dataset) in
  let r2 := remove_axis_opt r1.2 (get_y dataset) in
  same_datasets self self'
  /\ axes self' = r2.2
  /\ plot_x_axis self'
     = grid_after_remove r2.1 (get_y dataset)
         (grid_after_remove r1.1 (get_x dataset) (plot_x_axis self))
  /\ plot_y_axis self'
     = grid_after_remove r2.1 (get_y dataset)
         (grid_after_remove r1.1 (get_x dataset) (plot_y_axis self)).
Proof.
  cbv zeta. unfold poc_plot_remove_dataset_internal.
  set (self1 := match get_x dataset with
                | Some axis => poc_plot_remove_axis self axis
                | None => self
                end).
  assert (H1 : same_datasets self self1
               /\ axes self1 = (remove_axis_opt (axes self) (get_x dataset)).2
               /\ plot_x_axis self1
                  = grid_after_remove
                      (remove_axis_opt (axes self) (get_x dataset)).1
                      (get_x dataset) (plot_x_axis self)
               /\ plot_y_axis self1
                  = grid_after_remove
                      (remove_axis_opt (axes self) (get_x dataset)).1
                      (get_x dataset) (plot_y_axis self)).
  { subst self1. unfold remove_axis_opt, grid_after_remove.
    destruct (get_x dataset) as [axis |].
    - destruct (remove_axis_fields self axis) as (Ha & Hx & Hy & Hsame).
      cbv zeta in *. auto.
    - cbn. split; [apply same_datasets_refl | auto]. }
  clearbody self1. destruct H1 as (Hsame1 & Ha1 & Hx1 & Hy1).
  rewrite <- Ha1, <- Hx1, <- Hy1.
  unfold remove_axis_opt, grid_after_remove.
  destruct (get_y dataset) as [axis |].
  - destruct (remove_axis_fields self1 axis) as (Ha & Hx & Hy & Hsame).
    cbv zeta in *.
    split; [exact (same_datasets_trans _ _ _ Hsame1 Hsame) | auto].
  - cbn. auto.
Qed.

Lemma remove_dataset_fields self (dataset : Obj) :
  let self' := poc_plot_remove_dataset get_x get_y self dataset in
  let r := (poc_object_bag_remove (datasets self) dataset).1 in
  self'
  = if r.1
    then poc_plot_remove_dataset_internal get_x get_y (set_datasets r.2 self)
           dataset
    else set_datasets r.2 self.
Proof.
  cbv zeta. unfold poc_plot_remove_dataset.
  destruct (poc_object_bag_remove (datasets self) dataset)
    as [[removed bag] effects].
  reflexivity.
Qed.

End DatasetAxes.

(** *** The counts of the axes *)

Lemma add_axis_opt_wf (bag : PocObjectBag Obj PocPlotAxis GDestroyNotify)
    (axis : option Obj) (d : PocPlotAxis) (n : Z) :
  bag_wf bag -> (forall o, bag_refs bag o <= n) -> n < G_MAXINT ->
  bag_wf (add_axis_opt bag axis d)
  /\ forall o,
       bag_refs (add_axis_opt bag axis d) o
       = bag_refs bag o + (if decide (axis = Some o) then 1 else 0).
Proof.
  intros Hwf Hle Hn. destruct axis as [a |]; cbn [add_axis_opt].
  - split; [apply bag_add_with_data_wf; [exact Hwf | specialize (Hle a); lia] |].
    intros o. rewrite bag_add_with_data_refs;
      [| exact Hwf | specialize (Hle a); lia].
    destruct (decide (o = a)) as [-> | Hne].
    + rewrite decide_True by reflexivity. reflexivity.
    + rewrite decide_False by congruence. reflexivity.
  - split; [exact Hwf |]. intros o. rewrite decide_False by discriminate. lia.
Qed.

Lemma remove_axis_opt_wf (bag : PocObjectBag Obj PocPlotAxis GDestroyNotify)
    (axis : option Obj) :
  bag_wf bag ->
  bag_wf (remove_axis_opt bag axis).2
  /\ forall o,
       bag_refs (remove_axis_opt bag axis).2 o
       = if decide (axis = Some o) then Z.max 0 (bag_refs bag o - 1)
         else bag_refs bag o.
Proof.
  intros Hwf. destruct axis as [a |]; cbn [remove_axis_opt].
  - split; [apply remove_wf, Hwf |].
    intros o. destruct (decide (Some a = Some o)) as [[= ->] | Hne].
    + apply (remove_same bag o Hwf).
    + apply remove_refs_other. congruence.
  - split; [exact Hwf |]. intros o. rewrite decide_False by discriminate.
    reflexivity.
Qed.

End PlotFieldsOf.


Section PlotRoundTrip.
Context {Obj : Type} `{!EqDecision Obj}.
Implicit Type self : PocPlot Obj.
Implicit Type bag : PocObjectBag Obj PocPlotAxis GDestroyNotify.
Local Open Scope Z_scope.

(** The axes of a dataset, added and removed again. *)
Lemma axes_round_trip bag (ax ay : option Obj) (dx dy : PocPlotAxis) :
  bag_wf bag -> (forall o, bag_refs bag o < G_MAXINT - 1) ->
  let r1 := remove_axis_opt (add_axis_opt (add_axis_opt bag ax dx) ay dy) ax in
  let r2 := remove_axis_opt r1.2 ay in
  r2.2 = bag
  /\ r1.1 = match ax with
            | Some a =>
                negb (poc_object_bag_contains bag a)
                && negb (bool_decide (ay = Some a))
            | None => false
            end
  /\ r2.1 = match ay with
            | Some b => negb (poc_object_bag_contains bag b)
            | None => false
            end.
Proof.
  intros Hwf Hlt. cbv zeta.
  assert (Hone : forall o d,
            (poc_object_bag_remove (bag_add_with_data bag o d (Some g_free))
               o).1
            = (negb (poc_object_bag_contains bag o), bag)).
  { intros o d. apply bag_add_with_data_remove;
      [exact Hwf | specialize (Hlt o); lia]. }
  destruct ax as [a |], ay as [b |]; cbn [add_axis_opt remove_axis_opt].
  - destruct (decide (a = b)) as [<- | Hne].
    + rewrite bool_decide_eq_true_2 by reflexivity.
      rewrite bag_add_with_data_remove.
      * cbn [fst snd]. rewrite Hone. cbn [fst snd].
        rewrite bag_add_with_data_contains.
        rewrite bool_decide_eq_true_2 by reflexivity.
        rewrite orb_true_r, andb_false_r. auto.
      * apply bag_add_with_data_wf; [exact Hwf | specialize (Hlt a); lia].
      * rewrite bag_add_with_data_refs;
          [| exact Hwf | specialize (Hlt a); lia].
        rewrite decide_True by reflexivity. specialize (Hlt a). lia.
    + rewrite bool_decide_eq_false_2 by congruence.
      rewrite bag_add_with_data_remove_other by exact Hne.
      cbn [fst snd]. rewrite ?Hone. cbn [fst snd].
      rewrite ?Hone. cbn [fst snd]. rewrite andb_true_r. auto.
  - rewrite Hone. cbn [fst snd].
    rewrite bool_decide_eq_false_2 by discriminate.
    rewrite andb_true_r. auto.
  - cbn [fst snd]. rewrite Hone. auto.
  - auto.
Qed.

Ltac grid_cases :=
  unfold grid_after_remove, grid_after_add;
  repeat match goal with
    | |- context [poc_object_bag_contains ?B ?a] =>
        let E := fresh "E" in
        destruct (poc_object_bag_contains B a) eqn:E
    end;
  repeat case_bool_decide; cbn [negb andb] in *; congruence.

Lemma grid_x_round_trip bag (current ax ay : option Obj) :
  (forall a, current = Some a -> poc_object_bag_contains bag a = true) ->
  grid_after_remove
    match ay with
    | Some b => negb (poc_object_bag_contains bag b)
    | None => false
    end ay
    (grid_after_remove
       match ax with
       | Some a =>
           negb (poc_object_bag_contains bag a)
           && negb (bool_decide (ay = Some a))
       | None => false
       end ax (grid_after_add current ax))
  = match current, ax with
    | None, Some a =>
        if poc_object_bag_contains bag a then Some a else None
    | _, _ => current
    end.
Proof.
  intros Hin.
  destruct current as [c |]; [specialize (Hin c eq_refl) | clear Hin];
    destruct ax as [a |], ay as [b |];
    try destruct (decide (a = b)); try destruct (decide (c = a));
    try destruct (decide (c = b)); simplify_eq; grid_cases.
Qed.

Lemma grid_y_round_trip bag (current ax ay : option Obj) :
  (forall a, current = Some a -> poc_object_bag_contains bag a = true) ->
  grid_after_remove
    match ay with
    | Some b => negb (poc_object_bag_contains bag b)
    | None => false
    end ay
    (grid_after_remove
       match ax with
       | Some a =>
           negb (poc_object_bag_contains bag a)
           && negb (bool_decide (ay = Some a))
       | None => false
       end ax (grid_after_add current ay))
  = match current, ay with
    | None, Some a =>
        if poc_object_bag_contains bag a then Some a else None
    | _, _ => current
    end.
Proof.
  intros Hin.
  destruct current as [c |]; [specialize (Hin c eq_refl) | clear Hin];
    destruct ax as [a |], ay as [b |];
    try destruct (decide (a = b)); try destruct (decide (c = a));
    try destruct (decide (c = b)); simplify_eq; grid_cases.
Qed.

(** X25.  pocplot.c, [poc_plot_add_dataset] then [poc_plot_remove_dataset]:
    adding a dataset that is new to the plot and removing it again gives
    back the datasets, the axes with their counts and data, and the solo
    counter; an axis of the grid that was set stays, and one that was not
    set is left set to the axis of the dataset exactly when that axis was
    already an axis of the plot. *)
Theorem plot_add_remove_dataset_round_trip
    (get_x get_y : Obj -> option Obj) self (dataset : Obj)
    (x_pack y_pack : GtkPackType) :
  grid_axes_belong self ->
  bag_wf (axes self) -> bag_wf (datasets self) ->
  poc_object_bag_contains (datasets self) dataset = false ->
  (forall o, bag_refs (axes self) o < G_MAXINT - 1) ->
  let self' :=
    poc_plot_remove_dataset get_x get_y
      (poc_plot_add_dataset get_x get_y self dataset x_pack y_pack) dataset in
  let kept (current axis : option Obj) :=
    match current, axis with
    | None, Some a =>
        if poc_object_bag_contains (axes self) a then Some a else None
    | _, _ => current
    end in
  datasets self' = datasets self
  /\ axes self' = axes self
  /\ plot_solo self' = plot_solo self
  /\ plot_x_axis self' = kept (plot_x_axis self) (get_x dataset)
  /\ plot_y_axis self' = kept (plot_y_axis self) (get_y dataset).
Proof.
  intros [Hgx Hgy] Hwfa Hwfd Hnew Hlt. cbv zeta.
  destruct (add_dataset_fields get_x get_y self dataset x_pack y_pack)
    as (Hd1 & Hs1 & Ha1 & Hx1 & Hy1).
  cbv zeta in *.
  set (self1 := poc_plot_add_dataset get_x get_y self dataset x_pack y_pack)
    in *.
  pose proof (remove_dataset_fields get_x get_y self1 dataset) as Hrem.
  cbv zeta in Hrem. rewrite Hd1 in Hrem.
  rewrite bag_add_with_data_remove in Hrem;
    [| exact Hwfd
     | rewrite (contains_false_refs _ _ Hnew); unfold G_MAXINT; lia].
  rewrite Hnew in Hrem. cbn [negb fst snd] in Hrem. rewrite Hrem.
  destruct (remove_dataset_internal_fields get_x get_y
              (set_datasets (datasets self) self1) dataset)
    as ([Hd Hs] & Ha & Hx & Hy).
  cbv zeta in *. cbn [set_datasets axes plot_x_axis plot_y_axis datasets
                      plot_solo] in *.
  rewrite Ha1 in Ha, Hx, Hy.
  destruct (axes_round_trip (axes self) (get_x dataset) (get_y dataset)
              (dataset_axis_data x_pack GTK_ORIENTATION_HORIZONTAL)
              (dataset_axis_data y_pack GTK_ORIENTATION_VERTICAL) Hwfa Hlt)
    as (Hr2 & Hf1 & Hf2).
  cbv zeta in *. rewrite Hr2 in Ha. rewrite Hf1, Hf2 in Hx, Hy.
  split; [exact Hd | split; [exact Ha | split; [congruence |]]].
  rewrite Hx, Hy, Hx1, Hy1.
  split; [apply grid_x_round_trip, Hgx | apply grid_y_round_trip, Hgy].
Qed.


(** X26.  pocplot.c, [poc_plot_add_dataset] and [poc_plot_remove_dataset]:
    every call that adds a dataset counts its axes once more, also when
    the dataset is already in the plot, but only the removal that takes
    the dataset out of the plot counts them down.  So after a new dataset
    is added twice and removed twice the dataset is gone, and each of its
    axes is still an axis of the plot, counted once more than before. *)
Theorem plot_dataset_added_twice_keeps_axes
    (get_x get_y : Obj -> option Obj) self (dataset : Obj)
    (x_pack y_pack x_pack' y_pack' : GtkPackType) :
  bag_wf (axes self) -> bag_wf (datasets self) ->
  poc_object_bag_contains (datasets self) dataset = false ->
  (forall o, bag_refs (axes self) o < G_MAXINT - 3) ->
  let self' :=
    poc_plot_remove_dataset get_x get_y
      (poc_plot_remove_dataset get_x get_y
         (poc_plot_add_dataset get_x get_y
            (poc_plot_add_dataset get_x get_y self dataset x_pack y_pack)
            dataset x_pack' y_pack') dataset) dataset in
  datasets self' = datasets self
  /\ (forall o,
        bag_refs (axes self') o
        = bag_refs (axes self) o + axis_uses get_x get_y dataset o)
  /\ forall a,
       get_x dataset = Some a \/ get_y dataset = Some a ->
       poc_object_bag_contains (axes self') a = true.
Proof.
  intros Hwfa Hwfd Hnew Hlt. cbv zeta.
  pose proof (contains_false_refs _ _ Hnew) as Hrefs0.
  (* the first addition *)
  destruct (add_dataset_fields get_x get_y self dataset x_pack y_pack)
    as (Hd1 & _ & Ha1 & _).
  cbv zeta in *.
  set (self1 := poc_plot_add_dataset get_x get_y self dataset x_pack y_pack)
    in *.
  (* the second addition *)
  destruct (add_dataset_fields get_x get_y self1 dataset x_pack' y_pack')
    as (Hd2 & _ & Ha2 & _).
  cbv zeta in *.
  set (self2 := poc_plot_add_dataset get_x get_y self1 dataset x_pack' y_pack')
    in *.
  rewrite Hd1 in Hd2. rewrite Ha1 in Ha2.
  set (D1 := bag_add_with_data (datasets self) dataset
               {| dataset_solo := false |} (Some g_free)) in *.
  assert (HwfD1 : bag_wf D1)
    by (apply bag_add_with_data_wf;
        [exact Hwfd | rewrite Hrefs0; unfold G_MAXINT; lia]).
  assert (HrefsD1 : bag_refs D1 dataset = 1).
  { unfold D1. rewrite bag_add_with_data_refs;
      [| exact Hwfd | rewrite Hrefs0; unfold G_MAXINT; lia].
    rewrite decide_True by reflexivity. lia. }
  assert (HcD1 : poc_object_bag_contains D1 dataset = true).
  { unfold D1. rewrite bag_add_with_data_contains.
    rewrite bool_decide_eq_true_2 by reflexivity. apply orb_true_r. }
  (* the first removal leaves the dataset in the plot *)
  pose proof (remove_dataset_fields get_x get_y self2 dataset) as Hrem3.
  cbv zeta in Hrem3. rewrite Hd2 in Hrem3.
  rewrite bag_add_with_data_remove in Hrem3;
    [| exact HwfD1 | rewrite HrefsD1; unfold G_MAXINT; lia].
  rewrite HcD1 in Hrem3. cbn [negb fst snd] in Hrem3. rewrite Hrem3.
  (* the second takes it out *)
  pose proof (remove_dataset_fields get_x get_y (set_datasets D1 self2)
                dataset) as Hrem4.
  cbv zeta in Hrem4. cbn [set_datasets datasets] in Hrem4.
  assert (HremD1 : (poc_object_bag_remove D1 dataset).1
                   = (true, datasets self)).
  { unfold D1. rewrite bag_add_with_data_remove;
      [| exact Hwfd | rewrite Hrefs0; unfold G_MAXINT; lia].
    rewrite Hnew. reflexivity. }
  rewrite HremD1 in Hrem4. cbn [fst snd] in Hrem4. rewrite Hrem4.
  destruct (remove_dataset_internal_fields get_x get_y
              (set_datasets (datasets self)
                 (set_datasets D1 self2)) dataset)
    as ([Hd _] & Ha & _).
  cbv zeta in *. cbn [set_datasets axes datasets] in Ha, Hd.
  split; [exact Hd |].
  (* the counts of the axes *)
  rewrite Ha2 in Ha.
  set (dx := dataset_axis_data x_pack GTK_ORIENTATION_HORIZONTAL) in *.
  set (dy := dataset_axis_data y_pack GTK_ORIENTATION_VERTICAL) in *.
  set (dx' := dataset_axis_data x_pack' GTK_ORIENTATION_HORIZONTAL) in *.
  set (dy' := dataset_axis_data y_pack' GTK_ORIENTATION_VERTICAL) in *.
  set (n := fun o => if decide (get_x dataset = Some o) then 1 else 0).
  set (m := fun o => if decide (get_y dataset = Some o) then 1 else 0).
  assert (Hn : forall o, 0 <= n o <= 1)
    by (intros o; unfold n; destruct (decide _); lia).
  assert (Hm : forall o, 0 <= m o <= 1)
    by (intros o; unfold m; destruct (decide _); lia).
  assert (H0 : forall o, 0 <= bag_refs (axes self) o)
    by (intros o; apply (wf_contains_refs (axes self) o Hwfa)).
  assert (Hb1 : forall o, bag_refs (axes self) o <= G_MAXINT - 4).
  { intros o. specialize (Hlt o). lia. }
  destruct (add_axis_opt_wf (axes self) (get_x dataset) dx (G_MAXINT - 4)
              Hwfa Hb1 ltac:(lia))
    as [Hwf1 Hr1].
  destruct (add_axis_opt_wf _ (get_y dataset) dy (G_MAXINT - 3) Hwf1
              ltac:(intros o; rewrite Hr1; specialize (Hlt o);
                    specialize (Hn o); fold (n o); lia) ltac:(lia))
    as [Hwf2 Hr2].
  destruct (add_axis_opt_wf _ (get_x dataset) dx' (G_MAXINT - 2) Hwf2
              ltac:(intros o; rewrite Hr2, Hr1; specialize (Hlt o);
                    specialize (Hn o); specialize (Hm o);
                    fold (n o) (m o); lia) ltac:(lia))
    as [Hwf3 Hr3].
  destruct (add_axis_opt_wf _ (get_y dataset) dy' (G_MAXINT - 1) Hwf3
              ltac:(intros o; rewrite Hr3, Hr2, Hr1; specialize (Hlt o);
                    specialize (Hn o); specialize (Hm o);
                    fold (n o) (m o); lia) ltac:(lia))
    as [Hwf4 Hr4].
  destruct (remove_axis_opt_wf _ (get_x dataset) Hwf4) as [Hwf5 Hr5].
  destruct (remove_axis_opt_wf _ (get_y dataset) Hwf5) as [Hwf6 Hr6].
  rewrite <- Ha in Hwf6, Hr6.
  assert (Hcount : forall o,
            bag_refs
              (axes (poc_plot_remove_dataset_internal get_x get_y
                       (set_datasets (datasets self) (set_datasets D1 self2))
                       dataset)) o
            = bag_refs (axes self) o + axis_uses get_x get_y dataset o).
  { intros o. rewrite Hr6, Hr5, Hr4, Hr3, Hr2, Hr1.
    unfold axis_uses. fold (n o) (m o).
    specialize (Hn o). specialize (Hm o). specialize (H0 o).
    unfold n, m in *.
    destruct (decide (get_x dataset = Some o)),
      (decide (get_y dataset = Some o)); lia. }
  split; [exact Hcount |].
  intros a Huse.
  apply (wf_contains_refs _ a Hwf6). rewrite Hcount.
  specialize (H0 a). unfold axis_uses.
  destruct Huse as [Hx | Hy];
    [rewrite (decide_True (P := get_x dataset = Some a)) by exact Hx
    | rewrite (decide_True (P := get_y dataset = Some a)) by exact Hy];
    destruct (decide _); lia.
Qed.

End PlotRoundTrip.

Lemma example_plot_wf :
  bag_wf (axes example_plot) /\ bag_wf (datasets example_plot).
Proof.
  split.
  - remember (axes example_plot) as bag eqn:Hbag.
    vm_compute in Hbag. subst bag.
    repeat (apply wf_cons; split;
              [reflexivity | split; [unfold G_MAXINT; cbn; lia |]]).
    split; constructor.
  - remember (datasets example_plot) as bag eqn:Hbag.
    vm_compute in Hbag. subst bag.
    repeat (apply wf_cons; split;
              [reflexivity | split; [unfold G_MAXINT; cbn; lia |]]).
    split; constructor.
Qed.

Lemma example_plot_refs (o : nat) :
  (bag_refs (axes example_plot) o < G_MAXINT - 3)%Z.
Proof.
  remember (axes example_plot) as bag eqn:Hbag.
  vm_compute in Hbag. subst bag.
  rewrite !bag_refs_cons. cbn [item_object item_count].
  unfold G_MAXINT. repeat destruct (decide _); cbn; lia.
Qed.

Lemma example_plot_grid : grid_axes_belong example_plot.
Proof. split; intros a [= <-]; reflexivity. Qed.

Lemma plot_add_remove_dataset_round_trip_witness :
  grid_axes_belong example_plot
  /\ bag_wf (axes example_plot) /\ bag_wf (datasets example_plot)
  /\ poc_object_bag_contains (datasets example_plot) 3%nat = false
  /\ (forall o, (bag_refs (axes example_plot) o < G_MAXINT - 1)%Z)
  /\ axes (poc_plot_remove_dataset (fun _ => Some 12%nat) (fun _ => Some 20%nat)
             (poc_plot_add_dataset (fun _ => Some 12%nat)
                (fun _ => Some 20%nat) example_plot 3%nat GTK_PACK_START
                GTK_PACK_END) 3%nat)
     = axes example_plot.
Proof.
  assert (Hrefs : forall o, (bag_refs (axes example_plot) o < G_MAXINT - 1)%Z)
    by (intros o; pose proof (example_plot_refs o); lia).
  split; [exact example_plot_grid |].
  split; [exact (proj1 example_plot_wf) |].
  split; [exact (proj2 example_plot_wf) |].
  split; [reflexivity | split; [exact Hrefs |]].
  exact (proj1 (proj2 (plot_add_remove_dataset_round_trip
                         (fun _ => Some 12%nat) (fun _ => Some 20%nat)
                         example_plot 3%nat GTK_PACK_START GTK_PACK_END
                         example_plot_grid (proj1 example_plot_wf)
                         (proj2 example_plot_wf) eq_refl Hrefs))).
Defined.

Lemma plot_dataset_added_twice_keeps_axes_witness :
  bag_wf (axes example_plot) /\ bag_wf (datasets example_plot)
  /\ poc_object_bag_contains (datasets example_plot) 3%nat = false
  /\ (forall o, (bag_refs (axes example_plot) o < G_MAXINT - 3)%Z)
  /\ poc_object_bag_contains
       (axes (poc_plot_remove_dataset (fun _ => Some 12%nat) (fun _ => None)
                (poc_plot_remove_dataset (fun _ => Some 12%nat)
                   (fun _ => None)
                   (poc_plot_add_dataset (fun _ => Some 12%nat)
                      (fun _ => None)
                      (poc_plot_add_dataset (fun _ => Some 12%nat)
                         (fun _ => None) example_plot 3%nat GTK_PACK_START
                         GTK_PACK_START)
                      3%nat GTK_PACK_START GTK_PACK_START) 3%nat) 3%nat))
       12%nat = true.
Proof.
  split; [exact (proj1 example_plot_wf) |].
  split; [exact (proj2 example_plot_wf) |].
  split; [reflexivity | split; [exact example_plot_refs |]].
  exact (proj2 (proj2 (plot_dataset_added_twice_keeps_axes
                         (fun _ => Some 12%nat) (fun _ => None)
                         example_plot 3%nat GTK_PACK_START GTK_PACK_START
                         GTK_PACK_START GTK_PACK_START
                         (proj1 example_plot_wf) (proj2 example_plot_wf)
                         eq_refl example_plot_refs)) 12%nat
           (or_introl eq_refl)).
Defined.

